(** * JointsGalore: the flat-file record store of [server.js]

    A shallow embedding of the document store ([loadUsers], [saveUsers],
    [loadPosts], [savePosts]), the schema normalisers ([normaliseUsers],
    [normalisePosts]) and the route handlers that mutate the two
    collections, followed by the properties the specification states
    about them.

    Modelling conventions.
    - A JavaScript value read from a JSON document is a [value]; a field
      that is absent from an object reads as [VUndef].  Numbers are the
      integers the application stores (counters and millisecond
      timestamps), so [VNum] carries a [Z]: the integer [n] stands for the
      double of that value, numbers with a fractional part are not
      represented, and the arithmetic of the like counter rounds as the
      doubles of JavaScript do ([round_double]).
    - A string is the sequence of bytes of its UTF-8 encoding.
    - A form field and the name a session holds are strings; the field of
      the comment form is a [value], since its handler calls a string
      method on it.  The arrays and objects the body parser can also hand
      over in the other fields are not represented.
    - A user or post document is a record of the fields the server reads;
      every field is a [value], so that legacy or hand-edited records with
      missing or malformed fields are representable.
    - In-place mutation of the object returned by [Array.prototype.find]
      is an update of the list at the index of the first match.
    - The file system is the pair of collection files together with the
      log of [fs.writeFileSync] calls; handlers are state-and-exception
      computations over it ([io]).
    - [Date.now()] is the parameter [now] of the computation that reads
      the clock. *)

From Stdlib Require Import Ascii String Sorted.
From stdpp Require Import base numbers list strings option.

Local Open Scope string_scope.
Local Open Scope list_scope.
Local Set Warnings "-register-all".

(** ** JavaScript values *)

Inductive value : Type :=
  | VUndef
  | VNull
  | VBool (b : bool)
  | VNum (n : Z)
  | VStr (s : string)
  | VArr (xs : list value)
  | VObj (fields : list (string * value)).

(** [!v] is [negb (truthy v)]. *)
Definition truthy (v : value) : bool :=
  match v with
  | VUndef | VNull => false
  | VBool b => b
  | VNum n => negb (n =? 0)%Z
  | VStr s => negb (String.eqb s "")
  | VArr _ | VObj _ => true
  end.

(** [typeof v === 'boolean'], [typeof v === 'number'], [Array.isArray(v)]. *)
Definition is_boolean (v : value) : bool :=
  match v with VBool _ => true | _ => false end.

Definition is_number (v : value) : bool :=
  match v with VNum _ => true | _ => false end.

Definition isArray (v : value) : bool :=
  match v with VArr _ => true | _ => false end.

(** [v === s] for a string [s]: strict equality never converts. *)
Definition strict_eq_str (v : value) (s : string) : bool :=
  match v with VStr t => String.eqb t s | _ => false end.

(** [v === n] where [n] is the result of [parseInt]: [None] is [NaN], which
    is equal to nothing. *)
Definition strict_eq_num (v : value) (n : option Z) : bool :=
  match v, n with VNum m, Some k => (m =? k)%Z | _, _ => false end.

(** [v === x] where [x] is a form field of the request body: [None] is a
    field that was not sent ([undefined]). *)
Definition strict_eq_field (v : value) (x : option string) : bool :=
  match v, x with
  | VUndef, None => true
  | VStr t, Some s => String.eqb t s
  | _, _ => false
  end.

(** [x || d] for a form field. *)
Definition field_or (x : option string) (d : string) : string :=
  match x with
  | Some s => if String.eqb s "" then d else s
  | None => d
  end.

(** [!x] for a form field. *)
Definition field_blank (x : option string) : bool :=
  match x with
  | Some s => String.eqb s ""
  | None => true
  end.

(** Property read [v.k]: [None] is the [TypeError] of reading a property of
    [undefined] or [null]; an object without the key, and any other value,
    gives [undefined] (the keys read here are [id] and [author]). *)
Fixpoint assoc (k : string) (fields : list (string * value)) : value :=
  match fields with
  | [] => VUndef
  | (k', v) :: rest => if String.eqb k' k then v else assoc k rest
  end.

Definition get_prop (v : value) (k : string) : option value :=
  match v with
  | VUndef | VNull => None
  | VObj fields => Some (assoc k fields)
  | _ => Some VUndef
  end.

(** ** Documents *)

Record user : Type := User {
  username : value;
  email : value;
  passwordPlain : value;
  joinedAt : value;
  isAdmin : value;
  banned : value;
  followers : value;
  following : value
}.

Record post : Type := Post {
  post_id : value;
  title : value;
  caption : value;
  imageFilename : value;
  author : value;
  createdAt : value;
  likes : value;
  likedBy : value;
  comments : value
}.

Definition set_joinedAt (v : value) (u : user) : user :=
  User (username u) (email u) (passwordPlain u) v
       (isAdmin u) (banned u) (followers u) (following u).

Definition set_isAdmin (v : value) (u : user) : user :=
  User (username u) (email u) (passwordPlain u) (joinedAt u)
       v (banned u) (followers u) (following u).

Definition set_banned (v : value) (u : user) : user :=
  User (username u) (email u) (passwordPlain u) (joinedAt u)
       (isAdmin u) v (followers u) (following u).

Definition set_followers (v : value) (u : user) : user :=
  User (username u) (email u) (passwordPlain u) (joinedAt u)
       (isAdmin u) (banned u) v (following u).

Definition set_following (v : value) (u : user) : user :=
  User (username u) (email u) (passwordPlain u) (joinedAt u)
       (isAdmin u) (banned u) (followers u) v.

Definition set_likes (v : value) (p : post) : post :=
  Post (post_id p) (title p) (caption p) (imageFilename p) (author p)
       (createdAt p) v (likedBy p) (comments p).

Definition set_likedBy (v : value) (p : post) : post :=
  Post (post_id p) (title p) (caption p) (imageFilename p) (author p)
       (createdAt p) (likes p) v (comments p).

Definition set_comments (v : value) (p : post) : post :=
  Post (post_id p) (title p) (caption p) (imageFilename p) (author p)
       (createdAt p) (likes p) (likedBy p) v.

(** ** The file system and the [io] computations *)

(** The content of a collection file, classified by what
    [JSON.parse(fs.readFileSync(f, 'utf8') || '[]')] does with it.  A text
    that parses to something other than an array of objects is not
    represented. *)
Inductive file (D : Type) : Type :=
  | Absent                      (* no such file: [readFileSync] throws *)
  | Text_empty                  (* the empty string, which is falsy *)
  | Text_json (docs : list D)   (* the JSON text of the array [docs] *)
  | Text_other.                 (* a text [JSON.parse] rejects *)
Arguments Absent {D}.
Arguments Text_empty {D}.
Arguments Text_json {D} docs.
Arguments Text_other {D}.

Inductive path : Type := USERS_FILE | POSTS_FILE.

Record world : Type := World {
  users_file : file user;
  posts_file : file post;
  writes : list path            (* the [writeFileSync] calls, oldest first *)
}.

Inductive exn : Type := ENOENT | SyntaxError | TypeError.

Inductive outcome (A : Type) : Type :=
  | Done (a : A) (w : world)
  | Thrown (e : exn) (w : world).
Arguments Done {A} a w.
Arguments Thrown {A} e w.

Definition io (A : Type) : Type := world -> outcome A.

Definition ret {A} (a : A) : io A := fun w => Done a w.

Definition throw {A} (e : exn) : io A := fun w => Thrown e w.

Definition bind {A B} (m : io A) (k : A -> io B) : io B :=
  fun w =>
    match m w with
    | Done a w' => k a w'
    | Thrown e w' => Thrown e w'
    end.

Notation "'let*' x ':=' m 'in' k" := (bind m (fun x => k))
  (at level 10, x pattern, k at level 200).

Definition final_world {A} (o : outcome A) : world :=
  match o with Done _ w => w | Thrown _ w => w end.

(** [if (!fs.existsSync(F)) fs.writeFileSync(F, '[]')] for both files. *)
Definition existsSync {D} (f : file D) : bool :=
  match f with Absent => false | _ => true end.

Definition ensure_files : io unit :=
  fun w =>
    let w1 :=
      if existsSync (users_file w) then w
      else World (Text_json []) (posts_file w) ((writes w ++ [USERS_FILE])) in
    let w2 :=
      if existsSync (posts_file w1) then w1
      else World (users_file w1) (Text_json []) ((writes w1 ++ [POSTS_FILE])) in
    Done tt w2.

(** [JSON.parse(fs.readFileSync(F, 'utf8') || '[]')]. *)
Definition read_collection {D} (f : file D) : io (list D) :=
  match f with
  | Absent => throw ENOENT
  | Text_empty => ret []
  | Text_json docs => ret docs
  | Text_other => throw SyntaxError
  end.

Definition loadUsers : io (list user) :=
  fun w => read_collection (users_file w) w.

Definition saveUsers (users : list user) : io unit :=
  fun w => Done tt (World (Text_json users) (posts_file w)
                          ((writes w ++ [USERS_FILE]))).

Definition loadPosts : io (list post) :=
  fun w => read_collection (posts_file w) w.

Definition savePosts (posts : list post) : io unit :=
  fun w => Done tt (World (users_file w) (Text_json posts)
                          ((writes w ++ [POSTS_FILE]))).

(** ** The schema normalisers *)

(** The body of the [forEach] callback of [normaliseUsers], threading the
    captured [changed] flag. *)
Definition backfill_user (now : Z) (u : user) (changed : bool) : user * bool :=
  let '(u, changed) :=
    if negb (truthy (joinedAt u))
    then (set_joinedAt (VNum now) u, true) else (u, changed) in
  let '(u, changed) :=
    if negb (is_boolean (isAdmin u))
    then (set_isAdmin (VBool false) u, true) else (u, changed) in
  let '(u, changed) :=
    if negb (is_boolean (banned u))
    then (set_banned (VBool false) u, true) else (u, changed) in
  let '(u, changed) :=
    if negb (isArray (followers u))
    then (set_followers (VArr []) u, true) else (u, changed) in
  let '(u, changed) :=
    if negb (isArray (following u))
    then (set_following (VArr []) u, true) else (u, changed) in
  (u, changed).

Fixpoint forEach_user (now : Z) (users : list user) (changed : bool)
  : list user * bool :=
  match users with
  | [] => ([], changed)
  | u :: rest =>
      let '(u', changed) := backfill_user now u changed in
      let '(rest', changed) := forEach_user now rest changed in
      (u' :: rest', changed)
  end.

Definition normaliseUsers (now : Z) (users : list user) : io (list user) :=
  let '(users, changed) := forEach_user now users false in
  let* _ := (if changed then saveUsers users else ret tt) in
  ret users.

(** The body of the [forEach] callback of [normalisePosts]. *)
Definition backfill_post (p : post) : post :=
  let p := if negb (is_number (likes p)) then set_likes (VNum 0) p else p in
  let p := if negb (isArray (likedBy p)) then set_likedBy (VArr []) p else p in
  let p := if negb (isArray (comments p)) then set_comments (VArr []) p else p in
  p.

Definition normalisePosts (posts : list post) : io (list post) :=
  ret (map backfill_post posts).

(** ** Requests and responses *)

(** The object the feeds hand to their view. *)
Record page_view : Type := Page_view {
  pagePosts : list post;
  page : Z;
  totalPages : Z
}.

(** The object [app.get('/user/:username')] hands to the view. *)
Record profile_view : Type := Profile_view {
  profileUser : user;
  profile_posts : list post;
  totalPosts : nat;
  totalLikes : Z;
  followersCount : nat;
  followingCount : nat
}.

Inductive response : Type :=
  | Redirect (url : string)
  | Send (status : Z) (text : string)
  | Render_error (status : Z) (view : string) (error : string)
  | Render_admin (users : list user) (posts : list post)
  | Render_feed (view : string) (v : page_view)
  | Render_random (p : option post)
  | Render_user (v : profile_view)
  | Render_page (view : string).

(** What a handler that may log the client in hands back:
    [session_set = Some x] records the assignment
    [req.session.username = x]. *)
Record reply : Type := Reply {
  resp : response;
  session_set : option (option string)
}.

(** [req.session.username] when it is truthy. *)
Definition logged_in (sess : option string) : option string :=
  match sess with
  | Some name => if String.eqb name "" then None else Some name
  | None => None
  end.

(** [users.find(u => u.username === name)], with the index of the object
    found: later assignments to its fields update the array at that index. *)
Definition find_user (name : string) (users : list user) : option (nat * user) :=
  list_find (fun u => Is_true (strict_eq_str (username u) name)) users.

(** [xs.includes(s)], [xs.indexOf(s)], [xs.filter(n => n !== s)] and
    [xs.splice(i, 1)] on the elements of an array. *)
Definition includes (xs : list value) (s : string) : bool :=
  existsb (fun v => strict_eq_str v s) xs.

Definition indexOf (xs : list value) (s : string) : option nat :=
  fst <$> list_find (fun v => Is_true (strict_eq_str v s)) xs.

Definition filter_ne (xs : list value) (s : string) : list value :=
  List.filter (fun v => negb (strict_eq_str v s)) xs.

Definition splice1 {A} (i : nat) (xs : list A) : list A :=
  (take i xs ++ drop (S i) xs).

(** Reading [v] as an array before calling an array method on it; calling
    the method on anything else is a [TypeError]. *)
Definition as_array (v : value) : io (list value) :=
  match v with
  | VArr xs => ret xs
  | _ => throw TypeError
  end.

(** The middleware that attaches the current user to [res.locals]: its
    only effect on the store is the normalising load. *)
Definition attach_current_user (now : Z) (sess : option string) : io unit :=
  match logged_in sess with
  | Some _ =>
      let* raw := loadUsers in
      let* _ := normaliseUsers now raw in
      ret tt
  | None => ret tt
  end.

(** ** User routes *)

Record register_form : Type := Register_form {
  reg_username : option string;
  reg_email : option string;
  reg_password : option string;
  reg_password2 : option string
}.

(** The object literal pushed by [app.post('/register')]. *)
Definition new_user (now : Z) (body : register_form) (admin : bool) : user :=
  User (VStr (field_or (reg_username body) ""))
       (VStr (field_or (reg_email body) ""))
       (VStr (field_or (reg_password body) ""))
       (VNum now) (VBool admin) (VBool false) (VArr []) (VArr []).

Definition register_error (error : string) : reply :=
  Reply (Render_error 400 "register" error) None.

(** The answer to a registration under a name already taken. *)
Definition duplicate_username : response :=
  Render_error 400 "register" "Username already taken.".

(** [app.post('/register')]. *)
Definition register_route (now : Z) (body : register_form) : io reply :=
  if field_blank (reg_username body) || field_blank (reg_password body)
     || field_blank (reg_password2 body)
  then ret (register_error "Please fill in all required fields.")
  else if negb (bool_decide (reg_password body = reg_password2 body))
  then ret (register_error "Passwords do not match.")
  else
    let name := field_or (reg_username body) "" in
    let* raw := loadUsers in
    let* users := normaliseUsers now raw in
    match find_user name users with
    | Some _ => ret (register_error "Username already taken.")
    | None =>
        let isFirstUser := bool_decide (length users = 0) in
        let users := users ++ [new_user now body isFirstUser] in
        let* _ := saveUsers users in
        ret (Reply (Redirect "/") (Some (Some name)))
    end.

Record login_form : Type := Login_form {
  login_username : option string;
  login_password : option string
}.

(** [u.username === username && u.passwordPlain === password], the test of
    the [find] in [app.post('/login')]. *)
Definition credentials_match (body : login_form) (u : user) : bool :=
  strict_eq_field (username u) (login_username body)
  && strict_eq_field (passwordPlain u) (login_password body).

(** The two failures of [app.post('/login')]. *)
Definition invalid_credentials : response :=
  Render_error 401 "login" "Invalid username or password.".

Definition account_banned : response :=
  Render_error 403 "login" "Your account has been banned.".

(** [app.post('/login')]. *)
Definition login_route (now : Z) (body : login_form) : io reply :=
  let* raw := loadUsers in
  let* users := normaliseUsers now raw in
  match list_find (fun u => Is_true (credentials_match body u)) users with
  | None => ret (Reply invalid_credentials None)
  | Some (_, user) =>
      if truthy (banned user)
      then ret (Reply account_banned None)
      else ret (Reply (Redirect "/") (Some (login_username body)))
  end.

(** [if (!me.following.includes(targetName)) me.following.push(targetName)]
    and its mirror image on [target.followers]. *)
Definition push_following (name : string) (me : user) : io user :=
  let* xs := as_array (following me) in
  ret (if includes xs name then me
       else set_following (VArr (xs ++ [VStr name])) me).

Definition push_follower (name : string) (target : user) : io user :=
  let* xs := as_array (followers target) in
  ret (if includes xs name then target
       else set_followers (VArr (xs ++ [VStr name])) target).

(** [app.post('/user/:username/follow')]. *)
Definition follow_route (now : Z) (sess : option string) (targetName : string)
  : io response :=
  match logged_in sess with
  | None => ret (Redirect "/login")
  | Some meName =>
      if String.eqb targetName meName
      then ret (Redirect ("/user/" ++ targetName)%string)
      else
        let* raw := loadUsers in
        let* users := normaliseUsers now raw in
        match find_user meName users, find_user targetName users with
        | Some (i, me), Some (j, target) =>
            let* me' := push_following targetName me in
            let* target' := push_follower meName target in
            let* _ := saveUsers (<[j := target']> (<[i := me']> users)) in
            ret (Redirect ("/user/" ++ targetName)%string)
        | _, _ => ret (Redirect "/")
        end
  end.

(** [me.following = me.following.filter(n => n !== targetName)] and its
    mirror image. *)
Definition drop_following (name : string) (me : user) : io user :=
  let* xs := as_array (following me) in
  ret (set_following (VArr (filter_ne xs name)) me).

Definition drop_follower (name : string) (target : user) : io user :=
  let* xs := as_array (followers target) in
  ret (set_followers (VArr (filter_ne xs name)) target).

(** [app.post('/user/:username/unfollow')]. *)
Definition unfollow_route (now : Z) (sess : option string) (targetName : string)
  : io response :=
  match logged_in sess with
  | None => ret (Redirect "/login")
  | Some meName =>
      if String.eqb targetName meName
      then ret (Redirect ("/user/" ++ targetName)%string)
      else
        let* raw := loadUsers in
        let* users := normaliseUsers now raw in
        match find_user meName users, find_user targetName users with
        | Some (i, me), Some (j, target) =>
            let* me' := drop_following targetName me in
            let* target' := drop_follower meName target in
            let* _ := saveUsers (<[j := target']> (<[i := me']> users)) in
            ret (Redirect ("/user/" ++ targetName)%string)
        | _, _ => ret (Redirect "/")
        end
  end.

(** The [requireAdmin] middleware in front of the handler [next]. *)
Definition requireAdmin (now : Z) (sess : option string) (next : io response)
  : io response :=
  match logged_in sess with
  | None => ret (Redirect "/login")
  | Some name =>
      let* raw := loadUsers in
      let* users := normaliseUsers now raw in
      match find_user name users with
      | Some (_, user) =>
          if truthy (isAdmin user) then next
          else ret (Send 403 "Admins only.")
      | None => ret (Send 403 "Admins only.")
      end
  end.

(** The three admin routes that assign one field of the user found. *)
Definition admin_set_field (now : Z) (set : user -> user) (name : string)
  : io response :=
  let* raw := loadUsers in
  let* users := normaliseUsers now raw in
  match find_user name users with
  | Some (i, user) =>
      let* _ := saveUsers (<[i := set user]> users) in
      ret (Redirect "/admin")
  | None => ret (Redirect "/admin")
  end.

(** [app.post('/admin/users/:username/ban')], [.../unban], [.../make-admin]. *)
Definition ban_route (now : Z) (sess : option string) (name : string) : io response :=
  requireAdmin now sess (admin_set_field now (set_banned (VBool true)) name).

Definition unban_route (now : Z) (sess : option string) (name : string) : io response :=
  requireAdmin now sess (admin_set_field now (set_banned (VBool false)) name).

Definition make_admin_route (now : Z) (sess : option string) (name : string) : io response :=
  requireAdmin now sess (admin_set_field now (set_isAdmin (VBool true)) name).

(** ** Post routes *)

(** [posts.find(p => p.id === id)], with the index of the object found. *)
Definition find_post (id : option Z) (posts : list post) : option (nat * post) :=
  list_find (fun p => Is_true (strict_eq_num (post_id p) id)) posts.

(** [posts.filter(p => p.id !== id)]. *)
Definition remove_id (id : option Z) (posts : list post) : list post :=
  List.filter (fun p => negb (strict_eq_num (post_id p) id)) posts.

(** The numeric value of [post.likes]; the normaliser has made it a number,
    and on anything else the model stops. *)
Definition as_number (v : value) : io Z :=
  match v with
  | VNum n => ret n
  | _ => throw TypeError
  end.

(** The object literal pushed by [app.post('/upload')]. *)
Definition new_post (now : Z) (name filename : string)
    (form_title form_caption : option string) : post :=
  Post (VNum now) (VStr (field_or form_title "Untitled Joint"))
       (VStr (field_or form_caption "")) (VStr filename) (VStr name)
       (VNum now) (VNum 0) (VArr []) (VArr []).

(** [app.post('/upload')], after [multer] has stored the photo under the
    name [file] ([None] when no file was sent). *)
Definition upload_route (now : Z) (sess : option string)
    (form_title form_caption file : option string) : io response :=
  match logged_in sess with
  | None => ret (Send 401 "You must be logged in to upload.")
  | Some name =>
      match file with
      | None => ret (Send 400 "No image uploaded.")
      | Some filename =>
          let* raw := loadPosts in
          let* posts := normalisePosts raw in
          let posts := posts ++ [new_post now name filename form_title form_caption] in
          let* _ := savePosts posts in
          ret (Redirect "/")
      end
  end.

(** The double nearest to the integer [z], ties to the even significand:
    the result of an addition or subtraction whose exact value is [z].
    Integers up to [2^53] in size are doubles; beyond, the doubles lie
    [2^(e - 52)] apart, where [2^e <= |z| < 2^(e + 1)]. *)
Definition round_double (z : Z) : Z :=
  let a := Z.abs z in
  if (a <? 2 ^ 53)%Z then z
  else
    let ulp := (2 ^ (Z.log2 a - 52))%Z in
    let q := (a / ulp)%Z in
    let r := (a mod ulp)%Z in
    let q' :=
      if (2 * r <? ulp)%Z then q
      else if (ulp <? 2 * r)%Z then (q + 1)%Z
      else if Z.even q then q else (q + 1)%Z in
    (Z.sgn z * (q' * ulp))%Z.

(** The toggle on the post found: the body of the [if (idx === -1)]
    statement of [app.post('/posts/:id/like')], with [post.likes++] and
    [post.likes--] in the arithmetic of doubles. *)
Definition toggle_like (user : string) (p : post) : io post :=
  let* xs := as_array (likedBy p) in
  let* n := as_number (likes p) in
  match indexOf xs user with
  | None =>
      ret (set_likes (VNum (round_double (n + 1)))
             (set_likedBy (VArr (xs ++ [VStr user])) p))
  | Some idx =>
      let n := round_double (n - 1) in
      let n := if (n <? 0)%Z then 0%Z else n in
      ret (set_likes (VNum n) (set_likedBy (VArr (splice1 idx xs)) p))
  end.

(** [app.post('/posts/:id/like')]. *)
Definition like_route (sess : option string) (id : option Z) : io response :=
  match logged_in sess with
  | None => ret (Redirect "/login")
  | Some user =>
      let* raw := loadPosts in
      let* posts := normalisePosts raw in
      match find_post id posts with
      | None => ret (Send 404 "Post not found.")
      | Some (i, p) =>
          let* p' := toggle_like user p in
          let* _ := savePosts (<[i := p']> posts) in
          ret (Redirect "/")
      end
  end.

(** [app.post('/posts/:id/delete')]. *)
Definition delete_route (sess : option string) (id : option Z) : io response :=
  match logged_in sess with
  | None => ret (Redirect "/login")
  | Some user =>
      let* raw := loadPosts in
      let* posts := normalisePosts raw in
      match find_post id posts with
      | None => ret (Send 404 "Post not found.")
      | Some (_, p) =>
          if negb (strict_eq_str (author p) user)
          then ret (Send 403 "You can only delete your own joints.")
          else
            let posts := remove_id id posts in
            let* _ := savePosts posts in
            ret (Redirect "/")
      end
  end.

(** [String.prototype.trim] strips the white space and the line
    terminators of ECMAScript from both ends.  In UTF-8 these are the
    single bytes of tab, line feed, vertical tab, form feed, carriage
    return and space; the two bytes of U+00A0; and the three bytes of
    U+1680, U+2000 to U+200A, U+2028, U+2029, U+202F, U+205F, U+3000 and
    U+FEFF. *)
Definition is_space (c : ascii) : bool :=
  let n := nat_of_ascii c in
  ((9 <=? n)%nat && (n <=? 13)%nat) || (n =? 32)%nat.

Definition is_space2 (a b : ascii) : bool :=
  (nat_of_ascii a =? 194)%nat && (nat_of_ascii b =? 160)%nat.

Definition is_space3 (a b c : ascii) : bool :=
  let x := nat_of_ascii a in
  let y := nat_of_ascii b in
  let z := nat_of_ascii c in
  ((x =? 225)%nat && (y =? 154)%nat && (z =? 128)%nat)
  || ((x =? 226)%nat && (y =? 128)%nat
      && (((128 <=? z)%nat && (z <=? 138)%nat)
          || (z =? 168)%nat || (z =? 169)%nat || (z =? 175)%nat))
  || ((x =? 226)%nat && (y =? 129)%nat && (z =? 159)%nat)
  || ((x =? 227)%nat && (y =? 128)%nat && (z =? 128)%nat)
  || ((x =? 239)%nat && (y =? 187)%nat && (z =? 191)%nat).

(** Stripping from the front, for the tests [w2] and [w3] of the
    characters of two and three bytes. *)
Fixpoint strip (w2 : ascii -> ascii -> bool) (w3 : ascii -> ascii -> ascii -> bool)
    (cs : list ascii) : list ascii :=
  match cs with
  | [] => []
  | a :: r1 =>
      if is_space a then strip w2 w3 r1
      else
        match r1 with
        | [] => cs
        | b :: r2 =>
            if w2 a b then strip w2 w3 r2
            else
              match r2 with
              | [] => cs
              | c :: r3 => if w3 a b c then strip w2 w3 r3 else cs
              end
        end
  end.

Definition trim_start (cs : list ascii) : list ascii :=
  strip is_space2 is_space3 cs.

(** Stripping from the end is stripping the reversed bytes from the front,
    where the bytes of a character come in reverse. *)
Definition trim_end_rev (cs : list ascii) : list ascii :=
  strip (fun a b => is_space2 b a) (fun a b c => is_space3 c b a) cs.

Definition trim (s : string) : string :=
  string_of_list_ascii
    (rev (trim_end_rev (rev (trim_start (list_ascii_of_string s))))).

(** [v || ''] for the field of the comment form. *)
Definition or_empty (v : value) : value := if truthy v then v else VStr "".

(** [app.post('/posts/:id/comments')]; the text is
    [(req.body.comment || '').trim()]. *)
Definition comment_route (now : Z) (sess : option string) (id : option Z)
    (form_comment : value) : io response :=
  match logged_in sess with
  | None => ret (Redirect "/login")
  | Some user =>
      match or_empty form_comment with
      | VStr s =>
          let text := trim s in
          if String.eqb text "" then ret (Redirect "/")
          else
            let* raw := loadPosts in
            let* posts := normalisePosts raw in
            match find_post id posts with
            | None => ret (Send 404 "Post not found.")
            | Some (i, p) =>
                let* cs := as_array (comments p) in
                let c := VObj [("id", VNum now); ("author", VStr user);
                               ("text", VStr text); ("createdAt", VNum now)] in
                let* _ := savePosts (<[i := set_comments (VArr (cs ++ [c])) p]> posts) in
                ret (Redirect "/")
            end
      | _ => throw TypeError  (* an array or an object has no [trim] *)
      end
  end.

(** [cs.findIndex(c => c.id === commentId)]: reading [c.id] throws on a
    [null] element met before the match. *)
Fixpoint findIndex_id (commentId : option Z) (cs : list value) : io (option nat) :=
  match cs with
  | [] => ret None
  | c :: rest =>
      match get_prop c "id" with
      | None => throw TypeError
      | Some v =>
          if strict_eq_num v commentId then ret (Some 0%nat)
          else
            let* r := findIndex_id commentId rest in
            ret (S <$> r)
      end
  end.

(** [app.post('/posts/:postId/comments/:commentId/delete')]. *)
Definition delete_comment_route (sess : option string)
    (postId commentId : option Z) : io response :=
  match logged_in sess with
  | None => ret (Redirect "/login")
  | Some user =>
      let* raw := loadPosts in
      let* posts := normalisePosts raw in
      match find_post postId posts with
      | None => ret (Send 404 "Post not found.")
      | Some (i, p) =>
          let* cs := as_array (comments p) in
          let* found := findIndex_id commentId cs in
          match found with
          | None => ret (Send 404 "Comment not found.")
          | Some idx =>
              match cs !! idx ≫= (fun c => get_prop c "author") with
              | None => throw TypeError
              | Some comment_author =>
                  if negb (strict_eq_str comment_author user)
                     && negb (strict_eq_str (author p) user)
                  then ret (Send 403 "You cannot delete this comment.")
                  else
                    let* _ := savePosts
                      (<[i := set_comments (VArr (splice1 idx cs)) p]> posts) in
                    ret (Redirect "/")
              end
          end
      end
  end.

(** [app.get('/admin')]. *)
Definition admin_page_route (now : Z) (sess : option string) : io response :=
  requireAdmin now sess
    (let* raw_users := loadUsers in
     let* users := normaliseUsers now raw_users in
     let* raw_posts := loadPosts in
     let* posts := normalisePosts raw_posts in
     ret (Render_admin users posts)).

(** [app.post('/admin/posts/:id/delete')]. *)
Definition admin_delete_route (now : Z) (sess : option string) (id : option Z)
  : io response :=
  requireAdmin now sess
    (let* raw := loadPosts in
     let* posts := normalisePosts raw in
     let posts := remove_id id posts in
     let* _ := savePosts posts in
     ret (Redirect "/admin")).

(** ** Pagination of the feeds *)

Definition POSTS_PER_PAGE : Z := 5.

(** [Math.ceil(n / s)] for a count [n] and a positive page size [s]. *)
Definition ceil_div (n s : Z) : Z := ((n + s - 1) / s)%Z.

(** [posts.slice(start, stop)] for [0 <= start <= stop]: the elements at the
    indices [start], ..., [stop - 1] that exist. *)
Definition slice {A} (start stop : Z) (xs : list A) : list A :=
  take (Z.to_nat (stop - start)) (drop (Z.to_nat start) xs).

(** The pagination shared by [app.get('/')] and [app.get('/top')], for the
    sorted array [posts]; [query_page] is
    [parseInt(req.query.page || '1', 10)], [None] when it is [NaN]. *)
Definition paginate (per_page : Z) (posts : list post) (query_page : option Z)
  : page_view :=
  let page :=
    match query_page with
    | None => 1%Z
    | Some p => if (p <? 1)%Z then 1%Z else p
    end in
  let totalPages := Z.max 1 (ceil_div (Z.of_nat (length posts)) per_page) in
  let page := if (page >? totalPages)%Z then totalPages else page in
  let start := ((page - 1) * per_page)%Z in
  let pagePosts := slice start (start + per_page) posts in
  Page_view pagePosts page totalPages.

Definition feed_page (posts : list post) (query_page : option Z) : page_view :=
  paginate POSTS_PER_PAGE posts query_page.

(** ** The feeds *)

(** [x - y] for two numbers; [None] is [NaN].  The model does not convert
    other values to numbers (JavaScript converts strings, booleans and
    [null]): it answers [NaN] for them, which is the difference for a
    missing field.  The properties of the feeds are stated for posts whose
    [createdAt] is a number. *)
Definition sub_num (x y : value) : option Z :=
  match x, y with
  | VNum a, VNum b => Some (a - b)%Z
  | _, _ => None
  end.

(** Whether the comparator puts [x] after [y]: its result is positive
    ([NaN] counts as 0). *)
Definition sorts_after {A} (cmp : A -> A -> option Z) (x y : A) : bool :=
  match cmp x y with
  | Some c => (0 <? c)%Z
  | None => false
  end.

(** [x] may stand before [y]: the comparator does not put it after [y]. *)
Definition may_precede {A} (cmp : A -> A -> option Z) (x y : A) : Prop :=
  sorts_after cmp x y = false.

(** [Array.prototype.sort] with a comparator.  The sort is stable, so for
    a consistent comparator its result is determined; it is computed here
    by insertion from the right.  (For an inconsistent comparator the
    order is left to the implementation.) *)
Fixpoint insert_sorted {A} (cmp : A -> A -> option Z) (x : A) (l : list A) : list A :=
  match l with
  | [] => [x]
  | y :: rest =>
      if sorts_after cmp x y then y :: insert_sorted cmp x rest else x :: l
  end.

Definition sort_by {A} (cmp : A -> A -> option Z) (l : list A) : list A :=
  foldr (insert_sorted cmp) [] l.

(** [(a, b) => b.createdAt - a.createdAt]. *)
Definition newest_first (a b : post) : option Z :=
  sub_num (createdAt b) (createdAt a).

(** [v || 0]. *)
Definition or_zero (v : value) : value := if truthy v then v else VNum 0.

(** The comparator of [app.get('/top')]; [likes] is a number once the
    posts have gone through [normalisePosts], and on anything else the
    model answers [NaN]. *)
Definition most_liked (a b : post) : option Z :=
  match or_zero (likes a), or_zero (likes b) with
  | VNum likesA, VNum likesB =>
      if negb (likesB =? likesA)%Z then Some (likesB - likesA)%Z
      else sub_num (createdAt b) (createdAt a)
  | _, _ => None
  end.

(** [app.get('/')] and [app.get('/top')]: the object handed to the view. *)
Definition home_route (query_page : option Z) : io page_view :=
  let* raw := loadPosts in
  let* posts := normalisePosts raw in
  ret (feed_page (sort_by newest_first posts) query_page).

Definition top_route (query_page : option Z) : io page_view :=
  let* raw := loadPosts in
  let* posts := normalisePosts raw in
  ret (feed_page (sort_by most_liked posts) query_page).

(** ** The profile page *)

(** [sum + (p.likes || 0)], the step of the [reduce]; [likes] is a number
    once the posts have gone through [normalisePosts], and for anything
    else the model leaves the sum as it is. *)
Definition add_likes (sum : Z) (p : post) : Z :=
  match or_zero (likes p) with
  | VNum n => (sum + n)%Z
  | _ => sum
  end.

(** [v ? v.length : 0] for a field [normaliseUsers] has made an array. *)
Definition length_or_zero (v : value) : nat :=
  match v with
  | VArr xs => length xs
  | _ => 0
  end.

(** [app.get('/user/:username')]. *)
Definition profile_route (now : Z) (name : string) : io (response + profile_view) :=
  let* raw := loadUsers in
  let* users := normaliseUsers now raw in
  match find_user name users with
  | None => ret (inl (Send 404 "User not found."))
  | Some (_, user) =>
      let* raw_posts := loadPosts in
      let* posts := normalisePosts raw_posts in
      let posts := List.filter (fun p => strict_eq_str (author p) name) posts in
      let posts := sort_by newest_first posts in
      ret (inr (Profile_view user posts (length posts)
                  (fold_left add_likes posts 0%Z)
                  (length_or_zero (followers user))
                  (length_or_zero (following user))))
  end.

(** ** The remaining pages *)

(** [app.get('/random')]: [draw] stands for the draw of [Math.random], and
    [Math.floor(Math.random() * posts.length)] is some index of the
    array. *)
Definition random_route (draw : nat) : io response :=
  let* raw := loadPosts in
  let* posts := normalisePosts raw in
  match posts with
  | [] => ret (Render_random None)
  | _ :: _ => ret (Render_random (posts !! (draw mod length posts)))
  end.

(** [app.get('/login')] and [app.get('/register')]. *)
Definition form_page (sess : option string) (view : string) : io response :=
  match logged_in sess with
  | Some _ => ret (Redirect "/")
  | None => ret (Render_page view)
  end.

(** ** The server: one request after another *)

(** The routes of the server.  [Upload] is the request as it reaches the
    handler, after [multer] has stored the photo. *)
Inductive request : Type :=
  | Register (body : register_form)
  | Login (body : login_form)
  | Follow (targetName : string)
  | Unfollow (targetName : string)
  | Ban (name : string)
  | Unban (name : string)
  | Make_admin (name : string)
  | Upload (form_title form_caption file : option string)
  | Like (id : option Z)
  | Delete_post (id : option Z)
  | Add_comment (id : option Z) (form_comment : value)
  | Delete_comment (postId commentId : option Z)
  | Admin_page
  | Admin_delete_post (id : option Z)
  | Home (query_page : option Z)
  | Top (query_page : option Z)
  | Random_post (draw : nat)
  | Profile (name : string)
  | About
  | Login_page
  | Register_page
  | Logout.

(** The route selected by the request, run at clock reading [now] for a
    client whose session holds [sess]. *)
Definition route (now : Z) (sess : option string) (r : request) : io response :=
  match r with
  | Register body => let* r := register_route now body in ret (resp r)
  | Login body => let* r := login_route now body in ret (resp r)
  | Follow targetName => follow_route now sess targetName
  | Unfollow targetName => unfollow_route now sess targetName
  | Ban name => ban_route now sess name
  | Unban name => unban_route now sess name
  | Make_admin name => make_admin_route now sess name
  | Upload t c f => upload_route now sess t c f
  | Like id => like_route sess id
  | Delete_post id => delete_route sess id
  | Add_comment id text => comment_route now sess id text
  | Delete_comment postId commentId => delete_comment_route sess postId commentId
  | Admin_page => admin_page_route now sess
  | Admin_delete_post id => admin_delete_route now sess id
  | Home q => let* v := home_route q in ret (Render_feed "index" v)
  | Top q => let* v := top_route q in ret (Render_feed "top" v)
  | Random_post draw => random_route draw
  | Profile name =>
      let* r := profile_route now name in
      ret (match r with inl answer => answer | inr v => Render_user v end)
  | About => ret (Render_page "about")
  | Login_page => form_page sess "login"
  | Register_page => form_page sess "register"
  | Logout => ret (Redirect "/")
  end.

(** The routes that write to neither file. *)
Definition is_readonly (r : request) : bool :=
  match r with
  | Home _ | Top _ | Random_post _ | About | Login_page | Register_page | Logout => true
  | _ => false
  end.

(** Every request passes through the current-user middleware first. *)
Definition serve (now : Z) (sess : option string) (r : request) : io response :=
  let* _ := attach_current_user now sess in
  route now sess r.

(** A request as it arrives: the clock, the session and the route. *)
Record arrival : Type := Arrival {
  at_time : Z;
  session : option string;
  req : request
}.

(** The server handles the arrivals in order; a handler that throws leaves
    the files as they were at the throw and the server goes on. *)
Fixpoint run (arrivals : list arrival) (w : world) : world :=
  match arrivals with
  | [] => w
  | a :: rest => run rest (final_world (serve (at_time a) (session a) (req a) w))
  end.

(** The store right after start-up on a fresh data directory. *)
Definition fresh_world : world := World Absent Absent [].

Definition started (w : world) : world := final_world (ensure_files w).

(** ** The canonical shape of a record *)

(** The shape the specification gives a normalised user: a join time, two
    booleans and two arrays. *)
Definition canonical_user (u : user) : Prop :=
  truthy (joinedAt u) = true /\
  is_boolean (isAdmin u) = true /\
  is_boolean (banned u) = true /\
  isArray (followers u) = true /\
  isArray (following u) = true.

(** The shape of a normalised post: a numeric counter and two arrays. *)
Definition canonical_post (p : post) : Prop :=
  is_number (likes p) = true /\
  isArray (likedBy p) = true /\
  isArray (comments p) = true.

(** Whether some branch of the [forEach] callback of [normaliseUsers]
    fires on [u]. *)
Definition needs_backfill (u : user) : bool :=
  negb (truthy (joinedAt u)) || negb (is_boolean (isAdmin u))
  || negb (is_boolean (banned u)) || negb (isArray (followers u))
  || negb (isArray (following u)).

(** The array [normaliseUsers] returns. *)
Definition normalised_users (now : Z) (users : list user) : list user :=
  map (fun u => fst (backfill_user now u false)) users.

(** The store after [normaliseUsers now users] has run on [w]. *)
Definition after_normalise (now : Z) (users : list user) (w : world) : world :=
  if existsb needs_backfill users
  then World (Text_json (normalised_users now users)) (posts_file w)
             (writes w ++ [USERS_FILE])
  else w.

(** ** The data model: usernames, likes and the follow relation *)

(** The usernames of the collection, in order (records whose [username] is
    not a string have none). *)
Definition name_of (u : user) : option string :=
  match username u with VStr s => Some s | _ => None end.

Definition user_names (users : list user) : list string := omap name_of users.

(** [likes] is the number of entries of [likedBy]. *)
Definition likes_counted (p : post) : Prop :=
  exists xs, likedBy p = VArr xs /\ likes p = VNum (Z.of_nat (length xs)).

(** [likes] is the number of entries of [likedBy], which are at most [b]. *)
Definition counted_upto (b : nat) (p : post) : Prop :=
  exists xs,
    likedBy p = VArr xs /\ likes p = VNum (Z.of_nat (length xs)) /\ length xs <= b.

(** [likedBy] is a set: no entry occurs twice. *)
Definition liked_once (p : post) : Prop :=
  exists xs, likedBy p = VArr xs /\ NoDup xs.

(** The post the toggle leaves, for [likedBy = xs] and [likes = n]. *)
Definition toggled (user : string) (xs : list value) (n : Z) (p : post) : post :=
  match indexOf xs user with
  | None =>
      set_likes (VNum (round_double (n + 1)))
                (set_likedBy (VArr (xs ++ [VStr user])) p)
  | Some idx =>
      set_likes (VNum (if (round_double (n - 1) <? 0)%Z then 0
                       else round_double (n - 1))%Z)
                (set_likedBy (VArr (splice1 idx xs)) p)
  end.

(** The follow relation as the two sides record it: [a] follows [b]
    according to [a]'s [following], and according to [b]'s [followers]. *)
Definition follows (A : user) (b : string) : Prop :=
  match following A with VArr xs => VStr b ∈ xs | _ => False end.

Definition followed_by (B : user) (a : string) : Prop :=
  match followers B with VArr xs => VStr a ∈ xs | _ => False end.

Definition following_side (users : list user) (a b : string) : Prop :=
  exists A, A ∈ users /\ username A = VStr a /\ follows A b.

Definition followers_side (users : list user) (a b : string) : Prop :=
  exists B, B ∈ users /\ username B = VStr b /\ followed_by B a.

(** Usernames are unique and the two sides record the same relation. *)
Definition users_consistent (users : list user) : Prop :=
  NoDup (user_names users) /\
  forall a b, following_side users a b <-> followers_side users a b.

(** The symmetry of the specification, on the records themselves. *)
Definition follow_symmetric (users : list user) : Prop :=
  forall A B a b,
    A ∈ users -> B ∈ users -> username A = VStr a -> username B = VStr b ->
    a <> b -> (followed_by B a <-> follows A b).

(** ** Invariants of the store *)

(** A computation started in a store satisfying [I] ends, normally or by a
    throw, in a store satisfying [I], and a value it returns satisfies
    [Q]. *)
Definition triple {A} (I : world -> Prop) (m : io A) (Q : A -> Prop) : Prop :=
  forall w, I w ->
    match m w with
    | Done a w' => I w' /\ Q a
    | Thrown _ w' => I w'
    end.

Definition top {A} : A -> Prop := fun _ => True.

(** The posts file holds a collection in which every post satisfies [P]. *)
Definition posts_all (P : post -> Prop) (w : world) : Prop :=
  exists posts, posts_file w = Text_json posts /\ Forall P posts.

Definition users_inv (w : world) : Prop :=
  exists users, users_file w = Text_json users /\ users_consistent users.

(** ** Sample data *)

(** A post record that lacks [likedBy] and [comments]. *)
Definition legacy_post : post :=
  Post (VNum 1700000000000) (VStr "First") (VStr "") (VStr "1.png")
       (VStr "alice") (VNum 1700000000000) (VNum 3) VUndef VUndef.

(** A user record that lacks every field the normaliser backfills. *)
Definition legacy_user : user :=
  User (VStr "alice") (VStr "") (VStr "pw") VUndef VUndef VUndef VUndef VUndef.

Definition alice : user :=
  User (VStr "alice") (VStr "") (VStr "pw") (VNum 1700000000000)
       (VBool true) (VBool false) (VArr []) (VArr []).

Definition bob_banned : user :=
  User (VStr "bob") (VStr "") (VStr "hunter2") (VNum 1700000000001)
       (VBool false) (VBool true) (VArr []) (VArr []).

(** Two posts created in the same millisecond: they share their id. *)
Definition twin_a : post :=
  Post (VNum 7) (VStr "A") (VStr "") (VStr "a.png") (VStr "alice") (VNum 7)
       (VNum 0) (VArr []) (VArr []).

Definition twin_b : post :=
  Post (VNum 7) (VStr "B") (VStr "") (VStr "b.png") (VStr "bob") (VNum 7)
       (VNum 0) (VArr []) (VArr []).

Definition other_post : post :=
  Post (VNum 9) (VStr "C") (VStr "") (VStr "c.png") (VStr "bob") (VNum 9)
       (VNum 0) (VArr []) (VArr []).

Definition liked_post : post :=
  Post (VNum 11) (VStr "D") (VStr "") (VStr "d.png") (VStr "alice") (VNum 11)
       (VNum 2) (VArr [VStr "bob"; VStr "carol"]) (VArr []).

(** The requests of two clients on a fresh installation. *)
Definition sample_session : list arrival :=
  [ Arrival 100 None
      (Register (Register_form (Some "alice") None (Some "pw") (Some "pw")));
    Arrival 110 None
      (Register (Register_form (Some "bob") (Some "b@x.org") (Some "pw2") (Some "pw2")));
    Arrival 120 (Some "alice") (Upload (Some "Sunset") None (Some "120-1.png"));
    Arrival 130 (Some "bob") (Like (Some 120%Z));
    Arrival 140 (Some "alice") (Like (Some 120%Z));
    Arrival 150 (Some "bob") (Add_comment (Some 120%Z) (VStr " nice "));
    Arrival 160 (Some "bob") (Follow "alice");
    Arrival 170 (Some "bob") (Like (Some 120%Z));
    Arrival 180 (Some "alice") (Ban "bob");
    Arrival 190 (Some "alice") Admin_page ].

(** ** The orders of the feeds *)

(** The pages [1 .. n] of a sorted array, in order. *)
Definition pages_upto (per_page : Z) (posts : list post) (n : nat) : list (list post) :=
  map (fun k => pagePosts (paginate per_page posts (Some (Z.of_nat (S k))))) (seq 0 n).

(** The keys the two feeds sort on. *)
Definition created (p : post) : Z :=
  match createdAt p with VNum n => n | _ => 0%Z end.

Definition like_count (p : post) : Z :=
  match likes p with VNum n => n | _ => 0%Z end.

Definition timestamped (p : post) : Prop := exists n, createdAt p = VNum n.

(** [x] and [y] are tied: the comparator puts neither after the other. *)
Definition tied {A} (cmp : A -> A -> option Z) (x y : A) : bool :=
  negb (sorts_after cmp x y) && negb (sorts_after cmp y x).

(** The comparators of the two feeds on posts whose keys are numbers. *)
Definition by_created (a b : post) : option Z := Some (created b - created a)%Z.

Definition by_likes_then_created (a b : post) : option Z :=
  if negb (like_count b =? like_count a)%Z
  then Some (like_count b - like_count a)%Z
  else Some (created b - created a)%Z.

(** The orders of the two feeds: newest first; most liked first, the newer
    first among equally liked. *)
Definition newer_or_same (a b : post) : Prop := (created b <= created a)%Z.

Definition more_liked_or_newer (a b : post) : Prop :=
  (like_count b < like_count a)%Z \/
  (like_count b = like_count a /\ (created b <= created a)%Z).

Definition same_created (t : Z) (p : post) : bool := (created p =? t)%Z.

Definition same_rank (l t : Z) (p : post) : bool :=
  (like_count p =? l)%Z && (created p =? t)%Z.

Definition sample_feed : list post :=
  [twin_a; liked_post; other_post; twin_b].

(** ** The writes of the users file *)

(** What a handler does to one record of the collection it has loaded: the
    pushes of a follow, the filters of an unfollow and the assignments of
    the three admin routes. *)
Inductive user_update : user -> user -> Prop :=
| update_follow me m t xs :
    username me = VStr m -> t <> m ->
    following me = VArr xs -> includes xs t = false ->
    user_update me (set_following (VArr (xs ++ [VStr t])) me)
| update_followed target m t ys :
    username target = VStr t -> t <> m ->
    followers target = VArr ys -> includes ys m = false ->
    user_update target (set_followers (VArr (ys ++ [VStr m])) target)
| update_unfollow me t xs :
    following me = VArr xs ->
    user_update me (set_following (VArr (filter_ne xs t)) me)
| update_unfollowed target m ys :
    followers target = VArr ys ->
    user_update target (set_followers (VArr (filter_ne ys m)) target)
| update_banned u b : user_update u (set_banned (VBool b) u)
| update_promoted u : user_update u (set_isAdmin (VBool true) u).

(** The collections the users file can hold after the one it held at the
    start: each step is a write some handler makes. *)
Inductive users_evolve (users0 : list user) : list user -> Prop :=
| evolve_start : users_evolve users0 users0
| evolve_normalised now users :
    users_evolve users0 users ->
    users_evolve users0 (normalised_users now users)
| evolve_registered now body users :
    users_evolve users0 users ->
    field_blank (reg_username body) = false ->
    find_user (field_or (reg_username body) "") users = None ->
    users_evolve users0
      (users ++ [new_user now body (bool_decide (length users = 0))])
| evolve_updated users i u u' :
    users_evolve users0 users ->
    users !! i = Some u -> user_update u u' ->
    users_evolve users0 (<[i := u']> users).

Definition users_hold (R : list user -> Prop) (w : world) : Prop :=
  exists users, users_file w = Text_json users /\ R users.

(** The fields of an account no route assigns, and the two that only move
    one way: a join date once set, and the admin flag once [true]. *)
Definition same_account (u u' : user) : Prop :=
  username u' = username u /\ email u' = email u /\
  passwordPlain u' = passwordPlain u /\
  (truthy (joinedAt u) = true -> joinedAt u' = joinedAt u) /\
  (isAdmin u = VBool true -> isAdmin u' = VBool true).

(** Neither list of follows names its owner or a name twice. *)
Definition tidy_user (u : user) : Prop :=
  forall name, username u = VStr name ->
    (forall xs, following u = VArr xs -> NoDup xs /\ VStr name ∉ xs) /\
    (forall ys, followers u = VArr ys -> NoDup ys /\ VStr name ∉ ys).

(** ** The writes of the posts file *)

(** The object literal pushed by [app.post('/posts/:id/comments')]. *)
Definition new_comment (now : Z) (user text : string) : value :=
  VObj [("id", VNum now); ("author", VStr user);
        ("text", VStr text); ("createdAt", VNum now)].

(** What a handler does to the post it has found: the like toggle, the
    push of a comment and the splice that removes one. *)
Inductive post_update : post -> post -> Prop :=
| update_liked p user xs n :
    user <> "" -> likedBy p = VArr xs -> likes p = VNum n ->
    post_update p (toggled user xs n p)
| update_commented p now user s cs :
    user <> "" -> trim s <> "" ->
    comments p = VArr cs ->
    post_update p
      (set_comments (VArr (cs ++ [new_comment now user (trim s)])) p)
| update_uncommented p idx cs :
    comments p = VArr cs ->
    post_update p (set_comments (VArr (splice1 idx cs)) p).

(** The collections a handler can hold or save after the posts file held
    [posts0]: each step is the normalisation of a load or a change some
    handler makes before it saves. *)
Inductive posts_evolve (posts0 : list post) : list post -> Prop :=
| pevolve_start : posts_evolve posts0 posts0
| pevolve_normalised posts :
    posts_evolve posts0 posts ->
    posts_evolve posts0 (map backfill_post posts)
| pevolve_uploaded now name filename form_title form_caption posts :
    posts_evolve posts0 posts -> name <> "" ->
    posts_evolve posts0
      (posts ++ [new_post now name filename form_title form_caption])
| pevolve_removed id posts :
    posts_evolve posts0 posts ->
    posts_evolve posts0 (remove_id id posts)
| pevolve_updated posts i p p' :
    posts_evolve posts0 posts ->
    posts !! i = Some p -> post_update p p' ->
    posts_evolve posts0 (<[i := p']> posts).

Definition posts_hold (R : list post -> Prop) (w : world) : Prop :=
  exists posts, posts_file w = Text_json posts /\ R posts.

(** The fields of a post that are set by the upload and assigned by no
    route. *)
Record content : Type := Content {
  content_id : value;
  content_title : value;
  content_caption : value;
  content_image : value;
  content_author : value;
  content_createdAt : value
}.

Definition content_of (p : post) : content :=
  Content (post_id p) (title p) (caption p) (imageFilename p) (author p)
          (createdAt p).

(** The content an upload gives a post: the identifier is the creation
    time, a number; the title ([title || 'Untitled Joint']) and the author
    (the session name) are truthy; the image name is the string [multer]
    made.  Nothing is said of the type of the title, the caption and the
    author, which are what the form and the session hold. *)
Definition uploaded (c : content) : Prop :=
  (exists n, content_id c = VNum n /\ content_createdAt c = VNum n) /\
  truthy (content_title c) = true /\
  (exists f, content_image c = VStr f) /\
  truthy (content_author c) = true.

(** A comment as the comment route writes it: the identifier is the
    creation time, the author (the session name) is truthy, and the text
    is a string that is not empty and is trimmed. *)
Definition good_comment (c : value) : Prop :=
  exists n a t,
    c = VObj [("id", VNum n); ("author", a); ("text", VStr t); ("createdAt", VNum n)] /\
    truthy a = true /\ t <> "" /\ trim t = t.

(** A post in the shape the routes give it. *)
Definition well_formed_post (p : post) : Prop :=
  uploaded (content_of p) /\
  (exists n, likes p = VNum n /\ (0 <= n)%Z) /\
  (exists xs, likedBy p = VArr xs /\ Forall (fun v => truthy v = true) xs) /\
  (exists cs, comments p = VArr cs /\ Forall good_comment cs).

(** No white space at the front of [l], for the tests [w2] and [w3]. *)
Definition starts_clean (w2 : ascii -> ascii -> bool)
    (w3 : ascii -> ascii -> ascii -> bool) (l : list ascii) : Prop :=
  match l with
  | [] => True
  | a :: r1 =>
      is_space a = false /\
      match r1 with
      | [] => True
      | b :: r2 =>
          w2 a b = false /\
          match r2 with
          | [] => True
          | c :: _ => w3 a b c = false
          end
      end
  end.

(** ** A store no handler throws on *)

(** A file that is empty or holds the JSON text of an array of objects,
    and the collection it gives.  (A text that [JSON.parse] accepts and
    that is no array of objects, such as [{}] or [[null]], is not among
    the files of the model.) *)
Definition holds_records {D} (f : file D) : Prop :=
  match f with Text_empty | Text_json _ => True | Absent | Text_other => False end.

Definition docs_of {D} (f : file D) : list D :=
  match f with Text_json docs => docs | _ => [] end.

(** A comment whose properties can be read: anything but [undefined] and
    [null]. *)
Definition readable (c : value) : Prop := c <> VUndef /\ c <> VNull.

Definition readable_comments (p : post) : Prop :=
  forall cs, comments p = VArr cs -> Forall readable cs.

(** Both files hold a collection of records and no array of comments
    holds [null]. *)
Definition healthy (w : world) : Prop :=
  holds_records (users_file w) /\ holds_records (posts_file w) /\
  Forall readable_comments (docs_of (posts_file w)).

(** The request hands the comment handler a text it can trim: the field
    of the form is absent or empty, or it is a string. *)
Definition trimmable (r : request) : Prop :=
  match r with
  | Add_comment _ text => truthy text = false \/ exists s, text = VStr s
  | _ => True
  end.

Definition has_arrays (u : user) : Prop :=
  exists xs ys, followers u = VArr xs /\ following u = VArr ys.

(** [m] returns from every store that satisfies [I], with a value that
    satisfies [Q], and leaves a store that satisfies [I]. *)
Definition safe {A} (I : world -> Prop) (m : io A) (Q : A -> Prop) : Prop :=
  forall w, I w -> exists a w', m w = Done a w' /\ I w' /\ Q a.

(** ** The totals of the profile page *)


(** ** Stores that differ in one file *)

Definition with_users (uf : file user) (w : world) : world :=
  World uf (posts_file w) (writes w).

Definition with_posts (pf : file post) (w : world) : world :=
  World (users_file w) pf (writes w).

Definition lift_outcome {A} (f : world -> world) (o : outcome A) : outcome A :=
  match o with
  | Done a w => Done a (f w)
  | Thrown e w => Thrown e (f w)
  end.

(** [m] neither reads nor writes what [f] replaces: run on the store [f]
    has been applied to, it does what it does on the store itself. *)
Definition commutes {A} (f : world -> world) (m : io A) : Prop :=
  forall w, m (f w) = lift_outcome f (m w).

(** The answer to a request from a client that is not logged in, for the
    routes that answer it without reading a file. *)
Definition anonymous_answer (r : request) : response :=
  match r with
  | Upload _ _ _ => Send 401 "You must be logged in to upload."
  | About => Render_page "about"
  | Login_page => Render_page "login"
  | Register_page => Render_page "register"
  | Logout => Redirect "/"
  | _ => Redirect "/login"
  end.

(** ** A collection without an admin *)

(** A collection that is not empty and in which nobody is an admin; if
    [B] holds, nobody is banned either. *)
Definition locked (B : Prop) (users : list user) : Prop :=
  users <> [] /\
  Forall (fun u => isAdmin u <> VBool true) users /\
  (B -> Forall (fun u => banned u <> VBool true) users).

(** ** A migrated users file *)

(** The four fields [normaliseUsers] gives a type: two booleans and two
    arrays.  (The fifth, [joinedAt], is set from the clock.) *)
Definition migrated_user (u : user) : Prop :=
  is_boolean (isAdmin u) = true /\ is_boolean (banned u) = true /\
  isArray (followers u) = true /\ isArray (following u) = true.

(** * Properties *)

(** Case analysis on the five tests of the [normaliseUsers] callback. *)
Ltac backfill_cases j a b fr fg :=
  unfold backfill_user; cbn;
  destruct (truthy j) eqn:?; cbn;
  destruct (is_boolean a) eqn:?; cbn;
  destruct (is_boolean b) eqn:?; cbn;
  destruct (isArray fr) eqn:?; cbn;
  destruct (isArray fg) eqn:?; cbn.

(** Case analysis on the three tests of the [normalisePosts] callback. *)
Ltac post_cases l lb cs :=
  unfold backfill_post; cbn;
  destruct (is_number l) eqn:?; cbn;
  destruct (isArray lb) eqn:?; cbn;
  destruct (isArray cs) eqn:?; cbn.

(** ** Normalisation of users *)

Lemma canonical_user_needs_backfill u :
  canonical_user u <-> needs_backfill u = false.
Proof.
  unfold canonical_user, needs_backfill. split.
  - intros (-> & -> & -> & -> & ->). reflexivity.
  - intros H.
    destruct (truthy (joinedAt u)), (is_boolean (isAdmin u)),
      (is_boolean (banned u)), (isArray (followers u)),
      (isArray (following u)); simpl in H; try discriminate; auto.
Qed.

Lemma backfill_user_flag now u c :
  snd (backfill_user now u c) = c || needs_backfill u.
Proof.
  unfold needs_backfill. destruct u as [n e p j a b fr fg].
  backfill_cases j a b fr fg; rewrite ?orb_true_r, ?orb_false_r; reflexivity.
Qed.

Lemma backfill_user_result now u c :
  fst (backfill_user now u c) = fst (backfill_user now u false).
Proof.
  destruct u as [n e p j a b fr fg].
  backfill_cases j a b fr fg; reflexivity.
Qed.

Lemma backfill_user_canonical now u c :
  canonical_user u -> backfill_user now u c = (u, c).
Proof.
  intros (Hj & Ha & Hb & Hfr & Hfg).
  destruct u as [n e p j a b fr fg]; simpl in *.
  backfill_cases j a b fr fg; congruence.
Qed.

Lemma backfill_user_makes_canonical now u c :
  now <> 0%Z -> canonical_user (fst (backfill_user now u c)).
Proof.
  intros Hnow. assert (Hn : truthy (VNum now) = true).
  { simpl. destruct (Z.eqb_spec now 0); [contradiction | reflexivity]. }
  unfold canonical_user. destruct u as [n e p j a b fr fg].
  backfill_cases j a b fr fg; cbn in Hn; rewrite ?Hn; auto 10.
Qed.

(** The fields the normaliser never touches. *)
Lemma backfill_user_identity now u c :
  username (fst (backfill_user now u c)) = username u /\
  passwordPlain (fst (backfill_user now u c)) = passwordPlain u /\
  email (fst (backfill_user now u c)) = email u.
Proof.
  destruct u as [n e p j a b fr fg].
  backfill_cases j a b fr fg; auto.
Qed.

Lemma forEach_user_flag now users c :
  snd (forEach_user now users c) = c || existsb needs_backfill users.
Proof.
  revert c. induction users as [|u rest IH]; intros c; simpl.
  - rewrite orb_false_r. reflexivity.
  - pose proof (backfill_user_flag now u c) as Hf.
    destruct (backfill_user now u c) as [u' c1]; simpl in Hf.
    specialize (IH c1). destruct (forEach_user now rest c1) as [rest' c2].
    simpl in *. rewrite IH, Hf, orb_assoc. reflexivity.
Qed.

Lemma forEach_user_result now users c :
  fst (forEach_user now users c) = map (fun u => fst (backfill_user now u false)) users.
Proof.
  revert c. induction users as [|u rest IH]; intros c; simpl; [reflexivity|].
  pose proof (backfill_user_result now u c) as Hr.
  destruct (backfill_user now u c) as [u' c1]; simpl in Hr.
  specialize (IH c1). destruct (forEach_user now rest c1) as [rest' c2].
  simpl in *. rewrite IH, Hr. reflexivity.
Qed.

Lemma normalised_users_canonical now users :
  Forall canonical_user users -> normalised_users now users = users.
Proof.
  unfold normalised_users. induction 1 as [|u rest Hu _ IH]; simpl; [reflexivity|].
  rewrite (backfill_user_canonical now u false Hu), IH. reflexivity.
Qed.

Lemma normalised_users_makes_canonical now users :
  now <> 0%Z -> Forall canonical_user (normalised_users now users).
Proof.
  intros Hnow. unfold normalised_users. apply Forall_map, Forall_forall.
  intros u _. apply backfill_user_makes_canonical, Hnow.
Qed.

Lemma existsb_needs_backfill_false users :
  existsb needs_backfill users = false <-> Forall canonical_user users.
Proof.
  induction users as [|u rest IH]; simpl.
  - split; auto.
  - split.
    + intros [Hu Hrest]%orb_false_iff. constructor.
      * apply canonical_user_needs_backfill, Hu.
      * apply IH, Hrest.
    + intros H. inversion H as [|? ? Hu Hrest]; subst.
      apply orb_false_iff. split.
      * apply canonical_user_needs_backfill, Hu.
      * apply IH, Hrest.
Qed.

(** What [normaliseUsers] does to the store: one write of the amended array
    when some record needed a backfill, nothing otherwise. *)
Lemma normaliseUsers_run now users w :
  normaliseUsers now users w =
    Done (normalised_users now users)
         (if existsb needs_backfill users
          then World (Text_json (normalised_users now users)) (posts_file w)
                     (writes w ++ [USERS_FILE])
          else w).
Proof.
  unfold normaliseUsers.
  pose proof (forEach_user_flag now users false) as Hf.
  pose proof (forEach_user_result now users false) as Hr.
  destruct (forEach_user now users false) as [users' changed]; simpl in *.
  subst. fold (normalised_users now users).
  destruct (existsb needs_backfill users); reflexivity.
Qed.

Lemma normaliseUsers_canonical now users w :
  Forall canonical_user users -> normaliseUsers now users w = Done users w.
Proof.
  intros H. rewrite normaliseUsers_run, normalised_users_canonical by assumption.
  apply existsb_needs_backfill_false in H. rewrite H. reflexivity.
Qed.

Lemma normalised_users_changed now users :
  now <> 0%Z -> existsb needs_backfill users = true ->
  normalised_users now users <> users.
Proof.
  intros Hnow Hex Heq.
  pose proof (normalised_users_makes_canonical now users Hnow) as Hc.
  rewrite Heq in Hc. apply existsb_needs_backfill_false in Hc. congruence.
Qed.

(** ** Normalisation of posts *)

Lemma backfill_post_canonical p : canonical_post p -> backfill_post p = p.
Proof.
  intros (Hl & Hb & Hc).
  destruct p as [i t c f a ca l lb cs]; simpl in *.
  post_cases l lb cs; congruence.
Qed.

Lemma backfill_post_makes_canonical p : canonical_post (backfill_post p).
Proof.
  unfold canonical_post. destruct p as [i t c f a ca l lb cs].
  post_cases l lb cs; auto.
Qed.

Lemma map_backfill_post_canonical posts :
  Forall canonical_post posts -> map backfill_post posts = posts.
Proof.
  induction 1 as [|p rest Hp _ IH]; simpl; [reflexivity|].
  rewrite (backfill_post_canonical p Hp), IH. reflexivity.
Qed.

Lemma map_backfill_post_makes_canonical posts :
  Forall canonical_post (map backfill_post posts).
Proof.
  apply Forall_map, Forall_forall. intros p _. apply backfill_post_makes_canonical.
Qed.

(** ** The document store *)

(** C4, the claim as stated fails: with the users file (or the posts file)
    missing, the load throws [ENOENT] instead of returning the empty
    sequence. *)
Lemma load_missing_file_throws :
  loadUsers fresh_world = Thrown ENOENT fresh_world /\
  loadPosts fresh_world = Thrown ENOENT fresh_world /\
  loadUsers fresh_world <> Done [] fresh_world /\
  loadPosts fresh_world <> Done [] fresh_world.
Proof. repeat split; discriminate. Qed.

(** C4, amended: a load of an empty file returns the empty sequence and
    leaves the store alone; a file that is missing when the server starts
    is created by the start-up code, with one write, as the text of the
    empty array, after which the load returns the empty sequence.  (A file
    missing at the time of the load itself makes the load throw.) *)
Theorem load_empty_or_initialised (w : world) :
  (users_file w = Text_empty -> loadUsers w = Done [] w) /\
  (posts_file w = Text_empty -> loadPosts w = Done [] w) /\
  (users_file w = Absent ->
     users_file (started w) = Text_json [] /\
     loadUsers (started w) = Done [] (started w)) /\
  (posts_file w = Absent ->
     posts_file (started w) = Text_json [] /\
     loadPosts (started w) = Done [] (started w)) /\
  (forall docs, users_file w = Text_json docs -> users_file (started w) = Text_json docs) /\
  (forall docs, posts_file w = Text_json docs -> posts_file (started w) = Text_json docs).
Proof.
  destruct w as [uf pf ws]. unfold started, ensure_files, loadUsers, loadPosts.
  destruct uf, pf; simpl; repeat split; intros; simplify_eq; reflexivity.
Qed.

Lemma load_empty_or_initialised_witness :
  loadUsers (World Text_empty Absent []) = Done [] (World Text_empty Absent []) /\
  loadPosts (started (World Text_empty Absent []))
    = Done [] (World Text_empty (Text_json []) [POSTS_FILE]).
Proof.
  pose proof (load_empty_or_initialised (World Text_empty Absent [])) as (Hu & _ & _ & Hp & _).
  split.
  - apply Hu. reflexivity.
  - apply Hp. reflexivity.
Defined.

(** ** The normalisers and the store *)

(** C3, the claim as stated fails for posts: [normalisePosts] amends a
    record that lacks [likedBy] and [comments], and writes nothing. *)
Lemma normalisePosts_amends_without_persist :
  let w := World (Text_json []) (Text_json [legacy_post]) [] in
  let amended := set_comments (VArr []) (set_likedBy (VArr []) legacy_post) in
  normalisePosts [legacy_post] w = Done [amended] w /\
  [amended] <> [legacy_post] /\
  writes (final_world (normalisePosts [legacy_post] w)) = [].
Proof.
  simpl. split; [reflexivity|]. split; [discriminate | reflexivity].
Qed.

(** C3, amended: [normaliseUsers] writes the users file, once and with the
    amended array, exactly when it amended some record, and writes nothing
    when it amended none (the clock reading [now] being a valid join time,
    that is, not 0); [normalisePosts] returns the amended array and never
    writes. *)
Theorem normalise_persist (now : Z) (users : list user) (posts : list post) (w : world) :
  now <> 0%Z ->
  (exists users',
     users' = normalised_users now users /\
     ((users' <> users /\
       normaliseUsers now users w =
         Done users' (World (Text_json users') (posts_file w) (writes w ++ [USERS_FILE])))
      \/
      (users' = users /\ normaliseUsers now users w = Done users w))) /\
  normalisePosts posts w = Done (map backfill_post posts) w.
Proof.
  intros Hnow. split; [|reflexivity].
  exists (normalised_users now users). split; [reflexivity|].
  rewrite normaliseUsers_run.
  destruct (existsb needs_backfill users) eqn:Hex.
  - left. split; [|reflexivity]. apply normalised_users_changed; assumption.
  - right. apply existsb_needs_backfill_false in Hex.
    rewrite normalised_users_canonical by assumption. split; reflexivity.
Qed.

Lemma normalise_persist_witness :
  normaliseUsers 1700000000005 [legacy_user] (World (Text_json [legacy_user]) Text_empty [])
  = Done (normalised_users 1700000000005 [legacy_user])
         (World (Text_json (normalised_users 1700000000005 [legacy_user]))
                Text_empty [USERS_FILE]).
Proof.
  destruct (normalise_persist 1700000000005 [legacy_user] []
              (World (Text_json [legacy_user]) Text_empty []))
    as [(users' & -> & [[_ H] | [H _]]) _].
  - lia.
  - exact H.
  - discriminate H.
Defined.

(** C6: normalising a collection that is already in canonical shape returns
    it unchanged and leaves the store, write log included, as it was; and
    the array a normaliser returns is in canonical shape, so that a second
    normalisation right after the first changes nothing and writes
    nothing. *)
Theorem normalise_idempotent (now now' : Z) (users : list user) (posts : list post)
    (w : world) :
  (Forall canonical_user users -> normaliseUsers now users w = Done users w) /\
  (Forall canonical_post posts -> normalisePosts posts w = Done posts w) /\
  (now <> 0%Z ->
   forall users1 w1,
     normaliseUsers now users w = Done users1 w1 ->
     Forall canonical_user users1 /\
     normaliseUsers now' users1 w1 = Done users1 w1) /\
  (forall posts1 w1,
     normalisePosts posts w = Done posts1 w1 ->
     Forall canonical_post posts1 /\
     normalisePosts posts1 w1 = Done posts1 w1).
Proof.
  split; [apply normaliseUsers_canonical|].
  split.
  { intros H. unfold normalisePosts, ret.
    rewrite map_backfill_post_canonical by assumption. reflexivity. }
  split.
  - intros Hnow users1 w1. rewrite normaliseUsers_run. intros [= <- <-].
    pose proof (normalised_users_makes_canonical now users Hnow) as Hc.
    split; [exact Hc|]. apply normaliseUsers_canonical, Hc.
  - intros posts1 w1. unfold normalisePosts, ret. intros [= <- <-].
    pose proof (map_backfill_post_makes_canonical posts) as Hc.
    split; [exact Hc|].
    rewrite map_backfill_post_canonical by assumption. reflexivity.
Qed.

Lemma normalise_idempotent_witness :
  let w := World (Text_json [legacy_user]) (Text_json [legacy_post]) [] in
  let users1 := normalised_users 7 [legacy_user] in
  let w1 := World (Text_json users1) (Text_json [legacy_post]) [USERS_FILE] in
  normaliseUsers 8 users1 w1 = Done users1 w1 /\
  normalisePosts (map backfill_post [legacy_post]) w
    = Done (map backfill_post [legacy_post]) w.
Proof.
  intros w users1 w1.
  destruct (normalise_idempotent 7 8 [legacy_user] [legacy_post] w)
    as (_ & _ & Hu & Hp).
  split.
  - apply (Hu ltac:(lia) users1 w1). reflexivity.
  - apply (Hp (map backfill_post [legacy_post]) w). reflexivity.
Defined.

(** ** Pagination *)

Lemma ceil_div_bounds (n s : Z) :
  (0 < s)%Z -> (n <= ceil_div n s * s < n + s)%Z.
Proof.
  intros Hs. unfold ceil_div.
  pose proof (Z.div_mod (n + s - 1) s ltac:(lia)) as Hd.
  pose proof (Z.mod_pos_bound (n + s - 1) s Hs) as Hm.
  nia.
Qed.

Lemma ceil_div_pos (n s : Z) : (0 < s)%Z -> (0 < n)%Z -> (1 <= ceil_div n s)%Z.
Proof. intros Hs Hn. pose proof (ceil_div_bounds n s Hs). nia. Qed.

Lemma slice_lookup {A} (start stop : Z) (xs : list A) (i : nat) :
  (0 <= start)%Z ->
  slice start stop xs !! i =
    if decide (start + Z.of_nat i < stop)%Z
    then xs !! (Z.to_nat start + i)%nat else None.
Proof.
  intros Hs. unfold slice. destruct (decide _) as [Hlt|Hge].
  - rewrite lookup_take_lt by lia. apply lookup_drop.
  - apply lookup_take_ge. lia.
Qed.

Lemma paginate_fields (S : Z) (posts : list post) (q : option Z) :
  let tp := Z.max 1 (ceil_div (Z.of_nat (length posts)) S) in
  let pg := Z.min (Z.max 1 (default 1%Z q)) tp in
  paginate S posts q =
    Page_view (slice ((pg - 1) * S) ((pg - 1) * S + S) posts) pg tp.
Proof.
  intros tp pg. unfold paginate. fold tp.
  assert (Hpg : (if ((match q with
                       | Some p => if (p <? 1)%Z then 1%Z else p
                       | None => 1%Z
                       end) >? tp)%Z
                 then tp
                 else match q with
                      | Some p => if (p <? 1)%Z then 1%Z else p
                      | None => 1%Z
                      end) = pg).
  { subst pg. destruct q as [p|]; simpl;
      [destruct (Z.ltb_spec p 1)|];
      match goal with |- context [(?a >? ?b)%Z] =>
        destruct (Z.gtb_spec a b) end; lia. }
  rewrite Hpg. reflexivity.
Qed.

(** C7: for a page size [S > 0] and [N] posts, [totalPages] is the ceiling
    of [N / S] but at least 1; the page shown is the requested one clamped
    into [1 .. totalPages] (1 when the request is not a number); the posts
    shown are those at the indices [(page-1)*S .. page*S - 1] that exist;
    and when there is at least one post the page shown is never empty. *)
Theorem paginate_bounds (S : Z) (posts : list post) (q : option Z) :
  (0 < S)%Z ->
  let N := Z.of_nat (length posts) in
  let v := paginate S posts q in
  totalPages v = Z.max 1 (ceil_div N S) /\
  (N <= ceil_div N S * S < N + S)%Z /\
  (1 <= totalPages v)%Z /\
  (1 <= page v <= totalPages v)%Z /\
  (forall p, q = Some p -> (1 <= p <= totalPages v)%Z -> page v = p) /\
  (forall p, q = Some p -> (p < 1)%Z -> page v = 1%Z) /\
  (q = None -> page v = 1%Z) /\
  (forall p, q = Some p -> (totalPages v < p)%Z -> page v = totalPages v) /\
  (forall i : nat,
     pagePosts v !! i =
       if decide ((page v - 1) * S + Z.of_nat i < page v * S)%Z
       then posts !! (Z.to_nat ((page v - 1) * S) + i)%nat else None) /\
  ((0 < N)%Z -> pagePosts v <> []).
Proof.
  intros HS N v.
  pose proof (ceil_div_bounds N S HS) as Hceil.
  subst v. rewrite paginate_fields. fold N. cbn [pagePosts page totalPages].
  set (tp := Z.max 1 (ceil_div N S)).
  set (pg := Z.min (Z.max 1 (default 1%Z q)) tp).
  assert (Hpage : (1 <= pg <= tp)%Z) by lia.
  assert (Hslice : forall i : nat,
     slice ((pg - 1) * S) ((pg - 1) * S + S) posts !! i =
       if decide ((pg - 1) * S + Z.of_nat i < pg * S)%Z
       then posts !! (Z.to_nat ((pg - 1) * S) + i)%nat else None).
  { intros i. rewrite slice_lookup by nia.
    repeat destruct (decide _); try reflexivity; lia. }
  split; [reflexivity|]. split; [exact Hceil|]. split; [lia|].
  split; [exact Hpage|].
  split; [intros p -> Hp; subst pg; simpl; lia|].
  split; [intros p -> Hp; subst pg; simpl; lia|].
  split; [intros ->; subst pg; simpl; lia|].
  split; [intros p -> Hp; subst pg; simpl; lia|].
  split; [exact Hslice|].
  intros HN Hnil. specialize (Hslice 0%nat). rewrite Hnil in Hslice.
  destruct (decide _) as [_|Hn]; [|lia].
  symmetry in Hslice. apply lookup_ge_None in Hslice.
  assert (tp = ceil_div N S) by lia. nia.
Qed.

Lemma paginate_bounds_witness :
  let posts := [legacy_post; legacy_post; legacy_post; legacy_post;
                legacy_post; legacy_post; legacy_post] in
  totalPages (feed_page posts (Some 9%Z)) = 2%Z /\
  page (feed_page posts (Some 9%Z)) = 2%Z /\
  pagePosts (feed_page posts (Some 9%Z)) <> [].
Proof.
  intros posts.
  pose proof (paginate_bounds POSTS_PER_PAGE posts (Some 9%Z) ltac:(reflexivity))
    as (Ht & _ & _ & _ & _ & _ & _ & Hp & _ & Hne).
  split; [exact Ht|]. split.
  - apply (Hp 9%Z); [reflexivity|]. rewrite Ht. vm_compute. reflexivity.
  - apply Hne. vm_compute. reflexivity.
Defined.

(** ** Running the load-and-normalise prefix of a handler *)

Lemma strict_eq_str_true v s : strict_eq_str v s = true <-> v = VStr s.
Proof.
  destruct v; simpl; try (split; [discriminate | intros [=]]).
  rewrite String.eqb_eq. split; [intros -> | intros [= ->]]; reflexivity.
Qed.

Lemma strict_eq_str_Is_true v s : Is_true (strict_eq_str v s) <-> v = VStr s.
Proof. rewrite Is_true_true. apply strict_eq_str_true. Qed.

Lemma strict_eq_field_Some v s :
  strict_eq_field v (Some s) = true <-> v = VStr s.
Proof.
  destruct v; simpl; try (split; [discriminate | intros [=]]).
  rewrite String.eqb_eq. split; [intros -> | intros [= ->]]; reflexivity.
Qed.

Lemma loadUsers_json users w :
  users_file w = Text_json users -> loadUsers w = Done users w.
Proof. unfold loadUsers. intros ->. reflexivity. Qed.

Lemma loadPosts_json posts w :
  posts_file w = Text_json posts -> loadPosts w = Done posts w.
Proof. unfold loadPosts. intros ->. reflexivity. Qed.

Lemma load_normalise_users {A} now users w (k : list user -> io A) :
  users_file w = Text_json users ->
  (let* raw := loadUsers in let* users := normaliseUsers now raw in k users) w
  = k (normalised_users now users) (after_normalise now users w).
Proof.
  intros Hf. unfold bind. rewrite (loadUsers_json users w Hf), normaliseUsers_run.
  reflexivity.
Qed.

Lemma load_normalise_posts {A} posts w (k : list post -> io A) :
  posts_file w = Text_json posts ->
  (let* raw := loadPosts in let* posts := normalisePosts raw in k posts) w
  = k (map backfill_post posts) w.
Proof.
  intros Hf. unfold bind. rewrite (loadPosts_json posts w Hf). reflexivity.
Qed.

Lemma after_normalise_users_file now users w :
  users_file w = Text_json users ->
  users_file (after_normalise now users w) = Text_json (normalised_users now users).
Proof.
  intros Hf. unfold after_normalise.
  destruct (existsb needs_backfill users) eqn:Hex; [reflexivity|].
  apply existsb_needs_backfill_false in Hex.
  rewrite normalised_users_canonical by assumption. exact Hf.
Qed.

Lemma after_normalise_posts_file now users w :
  posts_file (after_normalise now users w) = posts_file w.
Proof. unfold after_normalise. destruct (existsb _ _); reflexivity. Qed.

Lemma after_normalise_canonical now users w :
  Forall canonical_user users -> after_normalise now users w = w.
Proof.
  intros H. unfold after_normalise.
  apply existsb_needs_backfill_false in H. rewrite H. reflexivity.
Qed.

(** [find] on the normalised array finds the record at the same index. *)
Lemma find_user_normalised now name users :
  find_user name (normalised_users now users)
  = prod_map id (fun u => fst (backfill_user now u false)) <$> find_user name users.
Proof.
  unfold find_user, normalised_users.
  change (map ?f users) with (f <$> users).
  rewrite list_find_fmap. f_equal. apply list_find_ext. intros u. simpl.
  destruct (backfill_user_identity now u false) as (-> & _). reflexivity.
Qed.

Lemma find_user_None name users :
  find_user name users = None <-> forall u, u ∈ users -> username u <> VStr name.
Proof.
  unfold find_user. rewrite list_find_None, list.Forall_forall.
  split; intros H u Hu; specialize (H u Hu); rewrite strict_eq_str_Is_true in *;
    exact H.
Qed.

Lemma find_user_Some name users i u :
  find_user name users = Some (i, u) ->
  users !! i = Some u /\ username u = VStr name /\
  forall j v, users !! j = Some v -> j < i -> username v <> VStr name.
Proof.
  unfold find_user. rewrite list_find_Some. intros (Hi & Hu & Hleast).
  split; [exact Hi|]. split; [apply strict_eq_str_Is_true, Hu|].
  intros j v Hj Hlt Hv. apply (Hleast j v Hj Hlt), strict_eq_str_Is_true, Hv.
Qed.

(** ** Registration *)

(** C8: a registration with all required fields and matching passwords
    appends the user with [isAdmin] true when the collection is empty and
    with [isAdmin] false when it is not empty and holds no record with this
    exact username; when a record with this exact username exists it is
    answered 400 "Username already taken.", logs nobody in, and performs no
    write of its own: the store is the one the normalising load leaves,
    which is the store as it was when the records are in canonical
    shape. *)
Theorem register_first_user_admin (now : Z) (body : register_form)
    (name pw : string) (users : list user) (w : world) :
  users_file w = Text_json users ->
  reg_username body = Some name -> name <> "" ->
  reg_password body = Some pw -> reg_password2 body = Some pw -> pw <> "" ->
  (users = [] ->
     register_route now body w =
       Done (Reply (Redirect "/") (Some (Some name)))
            (World (Text_json [new_user now body true]) (posts_file w)
                   (writes w ++ [USERS_FILE])) /\
     isAdmin (new_user now body true) = VBool true) /\
  (users <> [] -> (forall u, u ∈ users -> username u <> VStr name) ->
     register_route now body w =
       Done (Reply (Redirect "/") (Some (Some name)))
            (World (Text_json (normalised_users now users ++ [new_user now body false]))
                   (posts_file w)
                   (writes (after_normalise now users w) ++ [USERS_FILE])) /\
     isAdmin (new_user now body false) = VBool false) /\
  ((exists u, u ∈ users /\ username u = VStr name) ->
     register_route now body w =
       Done (Reply duplicate_username None) (after_normalise now users w) /\
     users_file (after_normalise now users w) = Text_json (normalised_users now users) /\
     length (normalised_users now users) = length users /\
     (Forall canonical_user users -> after_normalise now users w = w)).
Proof.
  intros Hf Hname Hne Hpw Hpw2 Hpwne.
  assert (Hrun : register_route now body w =
    match find_user name (normalised_users now users) with
    | Some _ => Done (Reply duplicate_username None) (after_normalise now users w)
    | None =>
        Done (Reply (Redirect "/") (Some (Some name)))
             (World (Text_json (normalised_users now users ++
                       [new_user now body (bool_decide (length (normalised_users now users) = 0))]))
                    (posts_file w)
                    (writes (after_normalise now users w) ++ [USERS_FILE]))
    end).
  { unfold register_route. rewrite Hname, Hpw, Hpw2. simpl.
    apply String.eqb_neq in Hne, Hpwne. rewrite Hne, Hpwne. simpl.
    rewrite bool_decide_eq_true_2 by reflexivity. simpl.
    rewrite (load_normalise_users now users w _ Hf).
    destruct (find_user name (normalised_users now users)); [reflexivity|].
    unfold bind, saveUsers, ret, new_user. rewrite Hname, Hpw. simpl.
    rewrite Hne, Hpwne, after_normalise_posts_file. reflexivity. }
  rewrite Hrun, find_user_normalised. split; [|split].
  - intros ->. simpl. split; reflexivity.
  - intros Hnil Hfresh. apply (proj2 (find_user_None name users)) in Hfresh.
    rewrite Hfresh. simpl.
    rewrite bool_decide_eq_false_2; [split; reflexivity|].
    unfold normalised_users. rewrite length_map. destruct users; [congruence|].
    simpl. lia.
  - intros (u & Hu & Hun).
    destruct (find_user name users) as [[i v]|] eqn:Hfind.
    + simpl. split; [reflexivity|]. split; [apply after_normalise_users_file, Hf|].
      split; [unfold normalised_users; apply length_map|].
      apply after_normalise_canonical.
    + exfalso. exact (proj1 (find_user_None name users) Hfind u Hu Hun).
Qed.

Lemma register_first_user_admin_witness :
  let body_a := Register_form (Some "alice") None (Some "pw") (Some "pw") in
  let body_b := Register_form (Some "Alice") None (Some "x") (Some "x") in
  let w0 := World (Text_json []) (Text_json []) [] in
  let w1 := World (Text_json [alice]) (Text_json []) [USERS_FILE] in
  register_route 1700000000000 body_a w0
    = Done (Reply (Redirect "/") (Some (Some "alice"))) w1 /\
  register_route 1700000000009 body_a w1 = Done (Reply duplicate_username None) w1 /\
  register_route 1700000000009 body_b w1
    = Done (Reply (Redirect "/") (Some (Some "Alice")))
           (World (Text_json [alice; new_user 1700000000009 body_b false])
                  (Text_json []) [USERS_FILE; USERS_FILE]).
Proof.
  intros body_a body_b w0 w1. split; [|split].
  - pose proof (register_first_user_admin 1700000000000 body_a "alice" "pw" [] w0
                  eq_refl eq_refl ltac:(discriminate) eq_refl eq_refl
                  ltac:(discriminate)) as (H & _).
    apply H. reflexivity.
  - pose proof (register_first_user_admin 1700000000009 body_a "alice" "pw" [alice] w1
                  eq_refl eq_refl ltac:(discriminate) eq_refl eq_refl
                  ltac:(discriminate)) as (_ & _ & H).
    apply H. exists alice. split; [apply list_elem_of_here | reflexivity].
  - pose proof (register_first_user_admin 1700000000009 body_b "Alice" "x" [alice] w1
                  eq_refl eq_refl ltac:(discriminate) eq_refl eq_refl
                  ltac:(discriminate)) as (_ & H & _).
    apply H; [discriminate|].
    intros u ->%list_elem_of_singleton. discriminate.
Defined.

(** ** Unique usernames *)

Lemma name_of_Some u s : name_of u = Some s <-> username u = VStr s.
Proof.
  unfold name_of. destruct (username u); split; intros H; try discriminate;
    congruence.
Qed.

Lemma elem_of_user_names users u s :
  u ∈ users -> username u = VStr s -> s ∈ user_names users.
Proof.
  intros Hu Hs. apply list_elem_of_omap. exists u. split; [exact Hu|].
  apply name_of_Some, Hs.
Qed.

Lemma user_names_cons u users :
  user_names (u :: users) =
    match name_of u with Some s => s :: user_names users | None => user_names users end.
Proof. reflexivity. Qed.

(** With unique usernames, a username names one position of the array. *)
Lemma unique_name_lookup users i j u v s :
  NoDup (user_names users) ->
  users !! i = Some u -> users !! j = Some v ->
  username u = VStr s -> username v = VStr s -> i = j.
Proof.
  revert i j. induction users as [|x rest IH]; intros i j Hnd Hi Hj Hu Hv.
  - discriminate.
  - rewrite user_names_cons in Hnd.
    assert (Hrest : NoDup (user_names rest)).
    { destruct (name_of x); [apply list.NoDup_cons in Hnd; tauto | exact Hnd]. }
    destruct i as [|i], j as [|j]; simpl in *.
    + reflexivity.
    + injection Hi as ->. apply name_of_Some in Hu. rewrite Hu in Hnd.
      apply list.NoDup_cons in Hnd as [Hnotin _]. exfalso. apply Hnotin.
      eapply elem_of_user_names; [eapply list_elem_of_lookup_2, Hj | exact Hv].
    + injection Hj as ->. apply name_of_Some in Hv. rewrite Hv in Hnd.
      apply list.NoDup_cons in Hnd as [Hnotin _]. exfalso. apply Hnotin.
      eapply elem_of_user_names; [eapply list_elem_of_lookup_2, Hi | exact Hu].
    + f_equal. eapply IH; eassumption.
Qed.

Lemma unique_name_elem users u v s :
  NoDup (user_names users) -> u ∈ users -> v ∈ users ->
  username u = VStr s -> username v = VStr s -> u = v.
Proof.
  intros Hnd [i Hi]%list_elem_of_lookup_1 [j Hj]%list_elem_of_lookup_1 Hu Hv.
  assert (i = j) as -> by (eapply unique_name_lookup; eassumption).
  congruence.
Qed.

(** ** Authentication *)

Lemma backfill_user_banned now u c :
  truthy (banned (fst (backfill_user now u c))) = true <-> banned u = VBool true.
Proof.
  destruct u as [n e p j a b fr fg].
  backfill_cases j a b fr fg; destruct b as [| |[|]| | | |]; simpl in *;
    split; intros; congruence.
Qed.

Lemma credentials_match_strings name pw u :
  credentials_match (Login_form (Some name) (Some pw)) u = true <->
  username u = VStr name /\ passwordPlain u = VStr pw.
Proof.
  unfold credentials_match. simpl.
  rewrite andb_true_iff, !strict_eq_field_Some. reflexivity.
Qed.

Lemma find_credentials_normalised now body users :
  list_find (fun u => Is_true (credentials_match body u)) (normalised_users now users)
  = prod_map id (fun u => fst (backfill_user now u false))
      <$> list_find (fun u => Is_true (credentials_match body u)) users.
Proof.
  unfold normalised_users. change (map ?f users) with (f <$> users).
  rewrite list_find_fmap. f_equal. apply list_find_ext. intros u. simpl.
  unfold credentials_match.
  destruct (backfill_user_identity now u false) as (-> & -> & _). reflexivity.
Qed.

(** C9: with unique usernames, a login with a username and a credential
    answers "banned" (403) exactly when they match a record whose [banned]
    is [true], logs the client in exactly when they match a record whose
    [banned] is not [true], and answers "invalid" (401) exactly when they
    match no record; the two failures are different responses. *)
Theorem login_banned_distinct (now : Z) (users : list user) (w : world)
    (name pw : string) :
  users_file w = Text_json users ->
  NoDup (user_names users) ->
  let matches u := u ∈ users /\ username u = VStr name /\ passwordPlain u = VStr pw in
  exists r,
    login_route now (Login_form (Some name) (Some pw)) w
      = Done r (after_normalise now users w) /\
    (r = Reply account_banned None <-> exists u, matches u /\ banned u = VBool true) /\
    (r = Reply (Redirect "/") (Some (Some name)) <->
       exists u, matches u /\ banned u <> VBool true) /\
    (r = Reply invalid_credentials None <-> ~ exists u, matches u) /\
    account_banned <> invalid_credentials.
Proof.
  intros Hf Hnd matches.
  set (body := Login_form (Some name) (Some pw)).
  assert (Hrun : login_route now body w =
    match list_find (fun u => Is_true (credentials_match body u))
            (normalised_users now users) with
    | None => Done (Reply invalid_credentials None) (after_normalise now users w)
    | Some (_, user) =>
        if truthy (banned user)
        then Done (Reply account_banned None) (after_normalise now users w)
        else Done (Reply (Redirect "/") (Some (Some name))) (after_normalise now users w)
    end).
  { unfold login_route. rewrite (load_normalise_users now users w _ Hf).
    destruct (list_find _ _) as [[i u]|]; [|reflexivity].
    destruct (truthy (banned u)); reflexivity. }
  rewrite Hrun, find_credentials_normalised. clear Hrun.
  destruct (list_find _ users) as [[i u]|] eqn:Hfind; simpl.
  - apply list_find_Some in Hfind as (Hi & Hm & _).
    apply Is_true_true, credentials_match_strings in Hm as [Hun Hpw].
    assert (Hu : matches u).
    { split; [eapply list_elem_of_lookup_2, Hi | split; assumption]. }
    assert (Honly : forall v, matches v -> v = u).
    { intros v (Hv & Hvn & _). destruct Hu as (Hu & _).
      eapply unique_name_elem; eassumption. }
    destruct (truthy (banned (fst (backfill_user now u false)))) eqn:Hb.
    + apply backfill_user_banned in Hb.
      eexists. split; [reflexivity|]. split; [|split; [|split]].
      * split; [intros _; exists u; auto | reflexivity].
      * split; [discriminate|]. intros (v & Hv & Hvb).
        rewrite (Honly v Hv) in Hvb. contradiction.
      * split; [discriminate|]. intros Hno. exfalso. apply Hno. exists u. exact Hu.
      * discriminate.
    + assert (Hnb : banned u <> VBool true).
      { intros Hb'. apply (backfill_user_banned now u false) in Hb'. congruence. }
      eexists. split; [reflexivity|]. split; [|split; [|split]].
      * split; [discriminate|]. intros (v & Hv & Hvb).
        rewrite (Honly v Hv) in Hvb. contradiction.
      * split; [intros _; exists u; auto | reflexivity].
      * split; [discriminate|]. intros Hno. exfalso. apply Hno. exists u. exact Hu.
      * discriminate.
  - apply list_find_None in Hfind.
    assert (Hno : ~ exists u, matches u).
    { intros (u & Hu & Hun & Hpw).
      apply (proj1 (list.Forall_forall _ _) Hfind u Hu).
      apply Is_true_true, credentials_match_strings. split; assumption. }
    eexists. split; [reflexivity|]. split; [|split; [|split]].
    + split; [discriminate|]. intros (u & Hu & _). exfalso. apply Hno. exists u. exact Hu.
    + split; [discriminate|]. intros (u & Hu & _). exfalso. apply Hno. exists u. exact Hu.
    + split; [intros _; exact Hno | reflexivity].
    + discriminate.
Qed.

Lemma login_banned_distinct_witness :
  let w := World (Text_json [alice; bob_banned]) (Text_json []) [] in
  login_route 1700000000100 (Login_form (Some "bob") (Some "hunter2")) w
    = Done (Reply account_banned None) w.
Proof.
  intros w.
  destruct (login_banned_distinct 1700000000100 [alice; bob_banned] w "bob" "hunter2"
              eq_refl ltac:(refine (bool_decide_unpack _ _); vm_compute; exact I))
    as (r & Hrun & Hb & _).
  rewrite Hrun. f_equal. apply Hb. exists bob_banned.
  split; [|reflexivity]. split; [|split; reflexivity].
  apply list_elem_of_further, list_elem_of_here.
Defined.

(** ** Deleting posts *)

Lemma find_post_Some id posts i p :
  find_post id posts = Some (i, p) <->
  posts !! i = Some p /\ strict_eq_num (post_id p) id = true /\
  forall j q, posts !! j = Some q -> j < i -> strict_eq_num (post_id q) id = false.
Proof.
  unfold find_post. rewrite list_find_Some. rewrite Is_true_true.
  split; intros (Hi & Hp & Hleast); (split; [exact Hi|]); (split; [exact Hp|]);
    intros j q Hj Hlt; specialize (Hleast j q Hj Hlt).
  - rewrite Is_true_true in Hleast. apply not_true_is_false, Hleast.
  - rewrite Is_true_true. congruence.
Qed.

Lemma find_post_None id posts :
  find_post id posts = None <->
  forall q, q ∈ posts -> strict_eq_num (post_id q) id = false.
Proof.
  unfold find_post. rewrite list_find_None, list.Forall_forall.
  split; intros H q Hq; specialize (H q Hq).
  - rewrite Is_true_true in H. apply not_true_is_false, H.
  - rewrite Is_true_true. congruence.
Qed.

Lemma elem_of_remove_id id posts q :
  q ∈ remove_id id posts <-> q ∈ posts /\ strict_eq_num (post_id q) id = false.
Proof.
  unfold remove_id. rewrite !list_elem_of_In, filter_In, negb_true_iff.
  reflexivity.
Qed.

Lemma remove_id_absent id posts :
  (forall q, q ∈ posts -> strict_eq_num (post_id q) id = false) ->
  remove_id id posts = posts.
Proof.
  unfold remove_id. induction posts as [|p rest IH]; intros H; simpl; [reflexivity|].
  rewrite (H p) by apply list_elem_of_here. simpl. f_equal. apply IH.
  intros q Hq. apply H, list_elem_of_further, Hq.
Qed.

Lemma requireAdmin_pass now sess name users k admin w (next : io response) :
  users_file w = Text_json users ->
  logged_in sess = Some name ->
  find_user name (normalised_users now users) = Some (k, admin) ->
  truthy (isAdmin admin) = true ->
  requireAdmin now sess next w = next (after_normalise now users w).
Proof.
  intros Hf Hs Hfind Hadm. unfold requireAdmin. rewrite Hs.
  rewrite (load_normalise_users now users w _ Hf), Hfind, Hadm. reflexivity.
Qed.

(** C10: the author's delete answers 404 when no post has the id, and
    otherwise decides on the first post with the id alone: when the
    requester is its author the array without every post of that id is
    saved, and when not the answer is 403 and nothing is written.  The
    admin's delete saves the array without every post of that id and
    answers with the redirect to the admin page, also when no post has the
    id (the array saved is then the one loaded). *)
Theorem delete_removes_every_post_with_id (now : Z) (w : world) (posts : list post)
    (sess : option string) (user : string) (id : option Z) :
  posts_file w = Text_json posts ->
  logged_in sess = Some user ->
  let posts' := map backfill_post posts in
  (forall i p,
     posts' !! i = Some p -> strict_eq_num (post_id p) id = true ->
     (forall j q, posts' !! j = Some q -> j < i -> strict_eq_num (post_id q) id = false) ->
     (author p = VStr user ->
        delete_route sess id w =
          Done (Redirect "/")
               (World (users_file w) (Text_json (remove_id id posts'))
                      (writes w ++ [POSTS_FILE]))) /\
     (author p <> VStr user ->
        delete_route sess id w =
          Done (Send 403 "You can only delete your own joints.") w)) /\
  ((forall q, q ∈ posts' -> strict_eq_num (post_id q) id = false) ->
     delete_route sess id w = Done (Send 404 "Post not found.") w) /\
  (forall q, q ∈ remove_id id posts' <->
             q ∈ posts' /\ strict_eq_num (post_id q) id = false) /\
  (forall users k admin,
     users_file w = Text_json users ->
     find_user user (normalised_users now users) = Some (k, admin) ->
     truthy (isAdmin admin) = true ->
     let w1 := after_normalise now users w in
     admin_delete_route now sess id w =
       Done (Redirect "/admin")
            (World (users_file w1) (Text_json (remove_id id posts'))
                   (writes w1 ++ [POSTS_FILE])) /\
     ((forall q, q ∈ posts' -> strict_eq_num (post_id q) id = false) ->
        remove_id id posts' = posts')).
Proof.
  intros Hf Hs posts'.
  assert (Hrun : delete_route sess id w =
    match find_post id posts' with
    | None => Done (Send 404 "Post not found.") w
    | Some (_, p) =>
        if negb (strict_eq_str (author p) user)
        then Done (Send 403 "You can only delete your own joints.") w
        else Done (Redirect "/")
                  (World (users_file w) (Text_json (remove_id id posts'))
                         (writes w ++ [POSTS_FILE]))
    end).
  { unfold delete_route. rewrite Hs, (load_normalise_posts posts w _ Hf).
    fold posts'. destruct (find_post id posts') as [[i p]|]; [|reflexivity].
    destruct (strict_eq_str (author p) user); reflexivity. }
  split; [|split; [|split]].
  - intros i p Hi Hp Hfirst.
    rewrite Hrun, (proj2 (find_post_Some id posts' i p)) by auto.
    split; intros Ha.
    + apply strict_eq_str_true in Ha. rewrite Ha. reflexivity.
    + destruct (strict_eq_str (author p) user) eqn:He; [|reflexivity].
      apply strict_eq_str_true in He. contradiction.
  - intros Hnone. rewrite Hrun, (proj2 (find_post_None id posts') Hnone).
    reflexivity.
  - intros q. apply elem_of_remove_id.
  - intros users k admin Hu Hfind Hadm w1. split; [|apply remove_id_absent].
    unfold admin_delete_route.
    rewrite (requireAdmin_pass now sess user users k admin w _ Hu Hs Hfind Hadm).
    fold w1.
    assert (Hp1 : posts_file w1 = Text_json posts).
    { unfold w1. rewrite after_normalise_posts_file. exact Hf. }
    rewrite (load_normalise_posts posts w1 _ Hp1). reflexivity.
Qed.

Lemma delete_removes_every_post_with_id_witness :
  let w := World (Text_json [alice]) (Text_json [twin_a; other_post; twin_b]) [] in
  delete_route (Some "alice") (Some 7%Z) w
    = Done (Redirect "/")
           (World (Text_json [alice]) (Text_json [other_post]) [POSTS_FILE]) /\
  delete_route (Some "bob") (Some 7%Z) w
    = Done (Send 403 "You can only delete your own joints.") w /\
  admin_delete_route 1 (Some "alice") (Some 8%Z) w
    = Done (Redirect "/admin")
           (World (Text_json [alice]) (Text_json [twin_a; other_post; twin_b])
                  [POSTS_FILE]).
Proof.
  intros w. split; [|split].
  - pose proof (delete_removes_every_post_with_id 1 w [twin_a; other_post; twin_b]
                  (Some "alice") "alice" (Some 7%Z) eq_refl eq_refl) as (H & _).
    apply (H 0%nat twin_a); try reflexivity. intros j q _ Hj. lia.
  - pose proof (delete_removes_every_post_with_id 1 w [twin_a; other_post; twin_b]
                  (Some "bob") "bob" (Some 7%Z) eq_refl eq_refl) as (H & _).
    apply (H 0%nat twin_a); try reflexivity; [intros j q _ Hj; lia | discriminate].
  - pose proof (delete_removes_every_post_with_id 1 w [twin_a; other_post; twin_b]
                  (Some "alice") "alice" (Some 8%Z) eq_refl eq_refl) as (_ & _ & _ & H).
    apply (H [alice] 0%nat alice); reflexivity.
Defined.

(** ** The like toggle *)

Lemma indexOf_None xs user : indexOf xs user = None <-> VStr user ∉ xs.
Proof.
  unfold indexOf. rewrite fmap_None, list_find_None, list.Forall_forall.
  split.
  - intros H Hin. apply (H _ Hin). apply strict_eq_str_Is_true. reflexivity.
  - intros H v Hv Hm. apply strict_eq_str_Is_true in Hm. subst v. exact (H Hv).
Qed.

Lemma indexOf_Some xs user idx :
  indexOf xs user = Some idx -> xs !! idx = Some (VStr user).
Proof.
  unfold indexOf. intros ([i v] & Hfind & ->)%fmap_Some.
  apply list_find_Some in Hfind as (Hi & Hm & _).
  apply strict_eq_str_Is_true in Hm. subst v. exact Hi.
Qed.

Lemma indexOf_push xs user :
  VStr user ∉ xs -> indexOf (xs ++ [VStr user]) user = Some (length xs).
Proof.
  intros Hnot. unfold indexOf.
  assert (Hfind : list_find (fun v => Is_true (strict_eq_str v user)) (xs ++ [VStr user])
                  = Some (length xs, VStr user)).
  { apply list_find_Some. split; [|split].
    - rewrite lookup_app_r by lia. rewrite Nat.sub_diag. reflexivity.
    - apply strict_eq_str_Is_true. reflexivity.
    - intros j v Hj Hlt Hm. apply strict_eq_str_Is_true in Hm. subst v.
      rewrite lookup_app_l in Hj by lia. apply Hnot.
      eapply list_elem_of_lookup_2, Hj. }
  rewrite Hfind. reflexivity.
Qed.

Lemma splice1_push {A} (xs : list A) v : splice1 (length xs) (xs ++ [v]) = xs.
Proof.
  unfold splice1. rewrite take_app_length, drop_app_ge by lia.
  replace (S (length xs) - length xs) with 1 by lia. simpl.
  apply app_nil_r.
Qed.

Lemma splice1_length {A} (xs : list A) i v :
  xs !! i = Some v -> S (length (splice1 i xs)) = length xs.
Proof.
  intros Hi. pose proof (take_drop_middle xs i v Hi) as E.
  apply (f_equal length) in E. rewrite length_app in E. simpl in E.
  unfold splice1. rewrite length_app. lia.
Qed.

Lemma splice1_Permutation {A} (xs : list A) i v :
  xs !! i = Some v -> Permutation (splice1 i xs ++ [v]) xs.
Proof.
  intros Hi. pose proof (take_drop_middle xs i v Hi) as E.
  unfold splice1. rewrite <- app_assoc.
  transitivity (take i xs ++ v :: drop (S i) xs); [|rewrite E; reflexivity].
  apply Permutation_app_head. rewrite Permutation_app_comm. reflexivity.
Qed.

Lemma splice1_NoDup {A} (xs : list A) i v :
  NoDup xs -> xs !! i = Some v -> NoDup (splice1 i xs) /\ v ∉ splice1 i xs.
Proof.
  intros Hnd Hi. rewrite <- (take_drop_middle xs i v Hi) in Hnd.
  apply list.NoDup_app in Hnd as (Ht & Hdisj & Hd).
  apply list.NoDup_cons in Hd as (Hv & Hd).
  unfold splice1. split.
  - apply list.NoDup_app. split; [exact Ht|]. split; [|exact Hd].
    intros x Hx Hx'. apply (Hdisj x Hx). right. exact Hx'.
  - intros [Hin|Hin]%elem_of_app; [|exact (Hv Hin)].
    apply (Hdisj v Hin). left.
Qed.

Lemma toggle_like_run user p xs n w :
  likedBy p = VArr xs -> likes p = VNum n ->
  toggle_like user p w = Done (toggled user xs n p) w.
Proof.
  intros Hxs Hn. unfold toggle_like, toggled, bind. rewrite Hxs, Hn. simpl.
  destruct (indexOf xs user); reflexivity.
Qed.

Lemma toggled_fields user xs n p :
  post_id (toggled user xs n p) = post_id p /\
  author (toggled user xs n p) = author p /\
  comments (toggled user xs n p) = comments p.
Proof. unfold toggled. destruct (indexOf xs user); simpl; auto. Qed.

(** Integers up to [2^53] in size are not rounded. *)
Lemma round_double_exact z :
  (- 2 ^ 53 <= z <= 2 ^ 53)%Z -> round_double z = z.
Proof.
  intros Hz. unfold round_double.
  destruct (Z.ltb_spec (Z.abs z) (2 ^ 53)) as [_|Hge]; [reflexivity|].
  change (2 ^ 53)%Z with 9007199254740992%Z in *.
  assert (Hcases : z = 9007199254740992%Z \/ z = (- 9007199254740992)%Z) by lia.
  destruct Hcases as [->| ->]; vm_compute; reflexivity.
Qed.

Lemma round_double_nonneg z : (0 <= z)%Z -> (0 <= round_double z)%Z.
Proof.
  intros Hz. unfold round_double.
  destruct (Z.ltb_spec (Z.abs z) (2 ^ 53)) as [_|Hge]; [exact Hz|].
  assert (Hlog : (53 <= Z.log2 (Z.abs z))%Z).
  { apply Z.log2_le_pow2; lia. }
  set (ulp := (2 ^ (Z.log2 (Z.abs z) - 52))%Z).
  assert (Hulp : (0 < ulp)%Z) by (apply Z.pow_pos_nonneg; lia).
  assert (Hq : (0 <= Z.abs z / ulp)%Z) by (apply Z.div_pos; lia).
  apply Z.mul_nonneg_nonneg; [lia|].
  apply Z.mul_nonneg_nonneg; [|lia].
  destruct (2 * (Z.abs z mod ulp) <? ulp)%Z; [exact Hq|].
  destruct (ulp <? 2 * (Z.abs z mod ulp))%Z; [lia|].
  destruct (Z.even (Z.abs z / ulp)); lia.
Qed.

(** The toggle keeps the counter equal to the number of entries, as long
    as that number is a double. *)
Lemma toggled_counted user xs p :
  (Z.of_nat (length xs) < 2 ^ 53)%Z ->
  likes_counted (toggled user xs (Z.of_nat (length xs)) p).
Proof.
  intros Hb. unfold toggled, likes_counted.
  destruct (indexOf xs user) as [idx|] eqn:Hidx; simpl.
  - apply indexOf_Some in Hidx. pose proof (splice1_length xs idx _ Hidx) as Hl.
    eexists. split; [reflexivity|]. f_equal.
    rewrite round_double_exact by lia.
    destruct (Z.ltb_spec (Z.of_nat (length xs) - 1) 0); lia.
  - eexists. split; [reflexivity|]. f_equal.
    rewrite round_double_exact by lia. rewrite length_app. simpl. lia.
Qed.

Lemma toggled_length user xs n p :
  exists xs', likedBy (toggled user xs n p) = VArr xs' /\ length xs' <= S (length xs).
Proof.
  unfold toggled. destruct (indexOf xs user) as [idx|] eqn:Hidx; simpl.
  - apply indexOf_Some in Hidx. pose proof (splice1_length xs idx _ Hidx) as Hl.
    eexists. split; [reflexivity | lia].
  - eexists. split; [reflexivity|]. rewrite length_app. simpl. lia.
Qed.

Lemma toggled_once user xs n p : NoDup xs -> liked_once (toggled user xs n p).
Proof.
  intros Hnd. unfold toggled, liked_once.
  destruct (indexOf xs user) as [idx|] eqn:Hidx; simpl.
  - apply indexOf_Some in Hidx. eexists. split; [reflexivity|].
    eapply splice1_NoDup; eassumption.
  - apply indexOf_None in Hidx. eexists. split; [reflexivity|].
    apply list.NoDup_app. split; [exact Hnd|]. split.
    + intros x Hx ->%list_elem_of_singleton. exact (Hidx Hx).
    + apply NoDup_singleton.
Qed.

(** The user's name occurs at most once among the entries. *)
Lemma listed_once_splice xs user idx :
  length (List.filter (fun v => strict_eq_str v user) xs) <= 1 ->
  xs !! idx = Some (VStr user) -> VStr user ∉ splice1 idx xs.
Proof.
  intros Hone Hi. pose proof (take_drop_middle xs idx _ Hi) as E.
  rewrite <- E, filter_app in Hone. cbn [List.filter strict_eq_str] in Hone.
  rewrite String.eqb_refl, length_app in Hone. cbn [length] in Hone.
  assert (Hnone : forall l, length (List.filter (fun v => strict_eq_str v user) l) = 0 ->
                            VStr user ∉ l).
  { intros l Hl Hin. apply list_elem_of_In in Hin.
    assert (Hf : In (VStr user) (List.filter (fun v => strict_eq_str v user) l)).
    { apply filter_In. split; [exact Hin|]. simpl. apply String.eqb_refl. }
    destruct (List.filter _ l); [contradiction | discriminate]. }
  unfold splice1. intros [Hin|Hin]%elem_of_app.
  - apply (Hnone (take idx xs)); [lia | exact Hin].
  - apply (Hnone (drop (S idx) xs)); [lia | exact Hin].
Qed.

(** Two toggles by the same user on a post whose counter is a
    non-negative integer below [2^53], at least 1 when the user is among
    the entries, and in whose [likedBy] the user occurs at most once. *)
Lemma toggled_twice user xs n p :
  likedBy p = VArr xs -> likes p = VNum n ->
  length (List.filter (fun v => strict_eq_str v user) xs) <= 1 ->
  (0 <= n < 2 ^ 53)%Z -> (VStr user ∈ xs -> 1 <= n)%Z ->
  let p1 := toggled user xs n p in
  exists xs1 n1 xs2,
    likedBy p1 = VArr xs1 /\ likes p1 = VNum n1 /\ (0 <= n1)%Z /\
    toggled user xs1 n1 p1 = set_likedBy (VArr xs2) p /\
    Permutation xs2 xs /\
    (VStr user ∈ xs1 <-> VStr user ∉ xs).
Proof.
  intros Hxs Hn Hone Hrange Hmember p1. subst p1. unfold toggled at 1 2 3 4.
  destruct (indexOf xs user) as [idx|] eqn:Hidx; simpl.
  - pose proof (indexOf_Some _ _ _ Hidx) as Hi.
    pose proof (splice1_length xs idx _ Hi) as Hl.
    pose proof (listed_once_splice xs user idx Hone Hi) as Hnot.
    assert (H1 : (1 <= n)%Z) by (apply Hmember; eapply list_elem_of_lookup_2, Hi).
    exists (splice1 idx xs), (n - 1)%Z, (splice1 idx xs ++ [VStr user]).
    split; [reflexivity|]. split.
    { f_equal. rewrite round_double_exact by lia.
      destruct (Z.ltb_spec (n - 1) 0); lia. }
    split; [lia|]. split.
    { unfold toggled. rewrite (proj2 (indexOf_None _ _) Hnot).
      rewrite round_double_exact by lia.
      destruct p; simpl in *. subst. unfold set_likes, set_likedBy. simpl.
      do 2 f_equal. lia. }
    split; [apply splice1_Permutation, Hi|].
    split; [intros H; contradiction|].
    intros H. exfalso. apply H. eapply list_elem_of_lookup_2, Hi.
  - pose proof (proj1 (indexOf_None _ _) Hidx) as Hnot.
    exists (xs ++ [VStr user]), (n + 1)%Z, xs.
    split; [reflexivity|]. split; [f_equal; apply round_double_exact; lia|].
    split; [lia|]. split.
    { unfold toggled. rewrite (indexOf_push _ _ Hnot), splice1_push.
      rewrite !(round_double_exact (n + 1 - 1)) by lia.
      destruct p; simpl in *. subst. unfold set_likes, set_likedBy. simpl.
      do 2 f_equal. destruct (Z.ltb_spec (n + 1 - 1) 0); lia. }
    split; [reflexivity|].
    split; [intros _; exact Hnot|].
    intros _. apply elem_of_app. right. left.
Qed.

Lemma find_post_insert id posts i p p' :
  find_post id posts = Some (i, p) -> post_id p' = post_id p ->
  find_post id (<[i := p']> posts) = Some (i, p').
Proof.
  intros (Hi & Hp & Hfirst)%find_post_Some Hid. apply find_post_Some.
  split; [|split].
  - apply list_lookup_insert_eq. eapply lookup_lt_Some, Hi.
  - rewrite Hid. exact Hp.
  - intros j q Hj Hlt. rewrite list_lookup_insert_ne in Hj by lia.
    eapply Hfirst; eassumption.
Qed.

Lemma find_post_canonical id posts i p :
  find_post id (map backfill_post posts) = Some (i, p) -> canonical_post p.
Proof.
  intros (Hi & _)%find_post_Some.
  pose proof (map_backfill_post_makes_canonical posts) as Hc.
  eapply (proj1 (list.Forall_forall _ _) Hc), list_elem_of_lookup_2, Hi.
Qed.

Lemma like_route_run sess user id posts i p xs n w :
  posts_file w = Text_json posts -> logged_in sess = Some user ->
  find_post id (map backfill_post posts) = Some (i, p) ->
  likedBy p = VArr xs -> likes p = VNum n ->
  like_route sess id w =
    Done (Redirect "/")
         (World (users_file w)
                (Text_json (<[i := toggled user xs n p]> (map backfill_post posts)))
                (writes w ++ [POSTS_FILE])).
Proof.
  intros Hf Hs Hfind Hxs Hn. unfold like_route.
  rewrite Hs, (load_normalise_posts posts w _ Hf), Hfind.
  unfold bind. rewrite (toggle_like_run user p xs n w Hxs Hn). reflexivity.
Qed.

(** C5, as amended: on a post in whose [likedBy] the user occurs at most
    once and whose [likes] is an integer with [0 <= likes < 2^53], at
    least 1 when the user is among the entries (in particular on a post
    of the data model, where [likes] is the number of entries of a
    duplicate-free [likedBy]), two consecutive likes by the same user on
    the same id both succeed; after the second the post has its original
    [likes] and a [likedBy] with the original members, every other field
    and every other post being as before; the counter is non-negative
    before, between and after; and the first like did flip the user's
    membership. *)
Theorem like_twice_restores (w : world) (posts : list post) (sess : option string)
    (user : string) (id : option Z) (i : nat) (p : post) (xs : list value) (n : Z) :
  posts_file w = Text_json posts ->
  logged_in sess = Some user ->
  find_post id (map backfill_post posts) = Some (i, p) ->
  likedBy p = VArr xs -> likes p = VNum n ->
  length (List.filter (fun v => strict_eq_str v user) xs) <= 1 ->
  (0 <= n < 2 ^ 53)%Z -> (VStr user ∈ xs -> 1 <= n)%Z ->
  let posts' := map backfill_post posts in
  exists p1 xs1 n1 xs2,
    let p2 := set_likedBy (VArr xs2) p in
    let w1 := World (users_file w) (Text_json (<[i := p1]> posts'))
                    (writes w ++ [POSTS_FILE]) in
    let w2 := World (users_file w) (Text_json (<[i := p2]> posts'))
                    (writes w ++ [POSTS_FILE; POSTS_FILE]) in
    like_route sess id w = Done (Redirect "/") w1 /\
    like_route sess id w1 = Done (Redirect "/") w2 /\
    likedBy p1 = VArr xs1 /\ likes p1 = VNum n1 /\
    (VStr user ∈ xs1 <-> VStr user ∉ xs) /\
    likes p2 = likes p /\
    Permutation xs2 xs /\ (forall v, v ∈ xs2 <-> v ∈ xs) /\
    (0 <= n)%Z /\ (0 <= n1)%Z.
Proof.
  intros Hf Hs Hfind Hxs Hn Hone Hrange Hmember posts'.
  destruct (toggled_twice user xs n p Hxs Hn Hone Hrange Hmember)
    as (xs1 & n1 & xs2 & Hxs1 & Hn1 & Hpos & Htwice & Hperm & Hflip).
  set (p1 := toggled user xs n p) in *.
  exists p1, xs1, n1, xs2. cbn zeta.
  assert (Hcanon : Forall canonical_post (<[i := p1]> posts')).
  { apply Forall_insert; [apply map_backfill_post_makes_canonical|].
    destruct (find_post_canonical _ _ _ _ Hfind) as (_ & _ & Hc).
    destruct (toggled_fields user xs n p) as (_ & _ & Hcs).
    fold p1 in Hcs. unfold canonical_post. rewrite Hxs1, Hn1, Hcs. auto. }
  split; [eapply like_route_run; eassumption|].
  split.
  { erewrite like_route_run; [| reflexivity | exact Hs | | exact Hxs1 | exact Hn1].
    - rewrite Htwice. cbn [users_file writes].
      rewrite (map_backfill_post_canonical _ Hcanon), list_insert_insert_eq.
      rewrite <- app_assoc. reflexivity.
    - rewrite (map_backfill_post_canonical _ Hcanon).
      apply find_post_insert with (p := p); [exact Hfind|].
      apply toggled_fields. }
  split; [exact Hxs1|]. split; [exact Hn1|]. split; [exact Hflip|].
  split; [reflexivity|]. split; [exact Hperm|].
  split; [intros v; rewrite Hperm; reflexivity|]. split; [lia | exact Hpos].
Qed.

Lemma like_twice_restores_witness :
  let w := World (Text_json []) (Text_json [other_post; liked_post]) [] in
  exists w1,
    like_route (Some "bob") (Some 11%Z) w = Done (Redirect "/") w1 /\
    exists xs2,
      like_route (Some "bob") (Some 11%Z) w1
        = Done (Redirect "/")
               (World (Text_json [])
                      (Text_json [other_post; set_likedBy (VArr xs2) liked_post])
                      [POSTS_FILE; POSTS_FILE]) /\
      Permutation xs2 [VStr "bob"; VStr "carol"].
Proof.
  intros w.
  destruct (like_twice_restores w [other_post; liked_post] (Some "bob") "bob"
              (Some 11%Z) 1%nat liked_post [VStr "bob"; VStr "carol"] 2%Z
              eq_refl eq_refl eq_refl eq_refl eq_refl
              ltac:(simpl; lia) ltac:(vm_compute; split; [discriminate | reflexivity])
              ltac:(intros _; lia))
    as (p1 & xs1 & n1 & xs2 & H1 & H2 & _ & _ & _ & _ & Hperm & _).
  eexists. split; [exact H1|]. exists xs2. split; [exact H2 | exact Hperm].
Defined.

(** C5, the claim as stated fails where the clamp of the handler acts and
    where the counter is too large for [++] to change it.  On a post with
    [likes = 0] whose [likedBy] holds the user (as the normaliser leaves a
    record that had a [likedBy] and no [likes]), the first like removes
    the user and clamps [-1] to [0], and the second ends at 1.  On a post
    with [likes = 2^53] the first like leaves the counter at [2^53] and
    the second ends one below. *)
Lemma like_twice_changes_likes :
  let clamped := Post (VNum 11) (VStr "D") (VStr "") (VStr "d.png") (VStr "alice")
                      (VNum 11) (VNum 0) (VArr [VStr "bob"]) (VArr []) in
  let huge := Post (VNum 11) (VStr "D") (VStr "") (VStr "d.png") (VStr "alice")
                   (VNum 11) (VNum (2 ^ 53)) (VArr []) (VArr []) in
  let twice (p : post) :=
    run [Arrival 1 (Some "bob") (Like (Some 11%Z));
         Arrival 2 (Some "bob") (Like (Some 11%Z))]
        (World (Text_json []) (Text_json [p]) []) in
  posts_file (twice clamped)
    = Text_json [set_likes (VNum 1) clamped] /\
  likes clamped <> VNum 1 /\
  posts_file (twice huge)
    = Text_json [set_likes (VNum (2 ^ 53 - 1)) huge] /\
  likes huge <> VNum (2 ^ 53 - 1).
Proof.
  cbv zeta. split; [vm_compute; reflexivity|]. split; [discriminate|].
  split; [vm_compute; reflexivity|]. vm_compute. discriminate.
Qed.

(** ** Reasoning about handlers: invariants through [bind] *)

Lemma triple_ret {A} (I : world -> Prop) (a : A) (Q : A -> Prop) :
  Q a -> triple I (ret a) Q.
Proof. intros HQ w Hw. simpl. auto. Qed.

Lemma triple_throw {A} (I : world -> Prop) e (Q : A -> Prop) :
  triple I (throw e) Q.
Proof. intros w Hw. exact Hw. Qed.

Lemma triple_bind {A B} (I : world -> Prop) (m : io A) (k : A -> io B)
    (Q : A -> Prop) (R : B -> Prop) :
  triple I m Q -> (forall a, Q a -> triple I (k a) R) -> triple I (bind m k) R.
Proof.
  intros Hm Hk w Hw. unfold bind. specialize (Hm w Hw).
  destruct (m w) as [a w'|e w']; [|exact Hm].
  destruct Hm as [Hw' Ha]. exact (Hk a Ha w' Hw').
Qed.

Lemma triple_bind_top {A B} (I : world -> Prop) (m : io A) (k : A -> io B)
    (R : B -> Prop) :
  triple I m top -> (forall a, triple I (k a) R) -> triple I (bind m k) R.
Proof. intros Hm Hk. eapply triple_bind; [exact Hm|]. intros a _. apply Hk. Qed.

Lemma triple_weaken {A} (I : world -> Prop) (m : io A) (Q R : A -> Prop) :
  triple I m Q -> (forall a, Q a -> R a) -> triple I m R.
Proof.
  intros Hm HQR w Hw. specialize (Hm w Hw).
  destruct (m w); [|exact Hm]. destruct Hm. auto.
Qed.

Lemma triple_final {A} (I : world -> Prop) (m : io A) (Q : A -> Prop) w :
  triple I m Q -> I w -> I (final_world (m w)).
Proof.
  intros Hm Hw. specialize (Hm w Hw). destruct (m w); simpl; tauto.
Qed.

(** A computation that leaves the store alone keeps every invariant. *)
Lemma triple_as_array (I : world -> Prop) v : triple I (as_array v) top.
Proof. destruct v; simpl; try apply triple_throw. apply triple_ret. exact Logic.I. Qed.

Lemma triple_as_number (I : world -> Prop) v : triple I (as_number v) top.
Proof. destruct v; simpl; try apply triple_throw. apply triple_ret. exact Logic.I. Qed.

Lemma triple_loadUsers_top (I : world -> Prop) : triple I loadUsers top.
Proof.
  intros w Hw. unfold loadUsers, read_collection.
  destruct (users_file w); simpl;
    first [exact Hw | split; [exact Hw | exact Logic.I]].
Qed.

Lemma triple_loadPosts_top (I : world -> Prop) : triple I loadPosts top.
Proof.
  intros w Hw. unfold loadPosts, read_collection.
  destruct (posts_file w); simpl;
    first [exact Hw | split; [exact Hw | exact Logic.I]].
Qed.

Lemma triple_normalisePosts_top (I : world -> Prop) posts :
  triple I (normalisePosts posts) top.
Proof. apply triple_ret. exact Logic.I. Qed.

Lemma triple_findIndex_id (I : world -> Prop) commentId cs :
  triple I (findIndex_id commentId cs) top.
Proof.
  induction cs as [|c rest IH]; simpl.
  - apply triple_ret. exact Logic.I.
  - destruct (get_prop c "id"); [|apply triple_throw].
    destruct (strict_eq_num v commentId); [apply triple_ret; exact Logic.I|].
    eapply triple_bind_top; [exact IH|]. intros r. apply triple_ret. exact Logic.I.
Qed.

Lemma triple_toggle_like_top (I : world -> Prop) user p :
  triple I (toggle_like user p) top.
Proof.
  unfold toggle_like.
  eapply triple_bind_top; [apply triple_as_array|]. intros xs.
  eapply triple_bind_top; [apply triple_as_number|]. intros n.
  destruct (indexOf xs user); apply triple_ret; exact Logic.I.
Qed.

(** One step of the symbolic run of a handler whose intermediate values
    carry no obligation. *)
Ltac triple_step :=
  match goal with
  | |- triple _ (bind _ _) _ => eapply triple_bind_top; [|intros]
  | |- triple _ (ret _) _ => apply triple_ret; exact Logic.I
  | |- triple _ (throw _) _ => apply triple_throw
  | |- triple _ (as_array _) _ => apply triple_as_array
  | |- triple _ (as_number _) _ => apply triple_as_number
  | |- triple _ loadUsers _ => apply triple_loadUsers_top
  | |- triple _ loadPosts _ => apply triple_loadPosts_top
  | |- triple _ (normalisePosts _) _ => apply triple_normalisePosts_top
  | |- triple _ (findIndex_id _ _) _ => apply triple_findIndex_id
  | |- triple _ (toggle_like _ _) _ => apply triple_toggle_like_top
  | |- triple _ (match ?x with _ => _ end) _ => destruct x
  end.

(** The pages that write nothing keep every invariant. *)
Lemma triple_readonly (I : world -> Prop) now sess r :
  is_readonly r = true -> triple I (route now sess r) top.
Proof.
  destruct r; try discriminate; intros _; cbn [route];
    unfold home_route, top_route, random_route, form_page; repeat triple_step.
Qed.

(** *** Invariants that do not depend on the users file *)

Section Users_writes.
Variable I : world -> Prop.
Hypothesis I_saveUsers :
  forall users w, I w ->
    I (World (Text_json users) (posts_file w) (writes w ++ [USERS_FILE])).

Lemma users_saveUsers users : triple I (saveUsers users) top.
Proof. intros w Hw. simpl. split; [apply I_saveUsers, Hw | exact Logic.I]. Qed.

Lemma users_normaliseUsers now users : triple I (normaliseUsers now users) top.
Proof.
  intros w Hw. rewrite normaliseUsers_run. split; [|exact Logic.I].
  destruct (existsb needs_backfill users); [apply I_saveUsers, Hw | exact Hw].
Qed.

Ltac users_step :=
  first [ apply users_saveUsers | apply users_normaliseUsers | triple_step ].

Lemma users_attach_current_user now sess :
  triple I (attach_current_user now sess) top.
Proof. unfold attach_current_user. repeat users_step. Qed.

Lemma users_requireAdmin now sess next :
  triple I next top -> triple I (requireAdmin now sess next) top.
Proof. intros Hnext. unfold requireAdmin. repeat users_step; exact Hnext. Qed.

Lemma users_register_route now body : triple I (register_route now body) top.
Proof. unfold register_route. repeat users_step. Qed.

Lemma users_login_route now body : triple I (login_route now body) top.
Proof. unfold login_route. repeat users_step. Qed.

Lemma users_follow_route now sess targetName :
  triple I (follow_route now sess targetName) top.
Proof.
  unfold follow_route, push_following, push_follower. repeat users_step.
Qed.

Lemma users_unfollow_route now sess targetName :
  triple I (unfollow_route now sess targetName) top.
Proof.
  unfold unfollow_route, drop_following, drop_follower. repeat users_step.
Qed.

Lemma users_admin_set_field now set name :
  triple I (admin_set_field now set name) top.
Proof. unfold admin_set_field. repeat users_step. Qed.

Lemma users_profile_route now sess name :
  triple I (route now sess (Profile name)) top.
Proof. cbn [route]. unfold profile_route. repeat users_step. Qed.
End Users_writes.

(** *** Invariants that do not depend on the posts file *)

Section Posts_writes.
Variable I : world -> Prop.
Hypothesis I_savePosts :
  forall posts w, I w ->
    I (World (users_file w) (Text_json posts) (writes w ++ [POSTS_FILE])).

Lemma posts_savePosts posts : triple I (savePosts posts) top.
Proof. intros w Hw. simpl. split; [apply I_savePosts, Hw | exact Logic.I]. Qed.

Ltac posts_step := first [ apply posts_savePosts | triple_step ].

Lemma posts_upload_route now sess t c f :
  triple I (upload_route now sess t c f) top.
Proof. unfold upload_route. repeat posts_step. Qed.

Lemma posts_like_route sess id : triple I (like_route sess id) top.
Proof. unfold like_route. repeat posts_step. Qed.

Lemma posts_delete_route sess id : triple I (delete_route sess id) top.
Proof. unfold delete_route. repeat posts_step. Qed.

Lemma posts_comment_route now sess id text :
  triple I (comment_route now sess id text) top.
Proof. unfold comment_route. repeat posts_step. Qed.

Lemma posts_delete_comment_route sess postId commentId :
  triple I (delete_comment_route sess postId commentId) top.
Proof. unfold delete_comment_route. repeat posts_step. Qed.
End Posts_writes.

(** ** The likes counter as an invariant of the posts file *)

Lemma posts_all_saveUsers P users w :
  posts_all P w ->
  posts_all P (World (Text_json users) (posts_file w) (writes w ++ [USERS_FILE])).
Proof. intros (posts & Hf & HP). exists posts. split; assumption. Qed.

Lemma posts_all_loadPosts P : triple (posts_all P) loadPosts (Forall P).
Proof.
  intros w Hw. unfold loadPosts. destruct Hw as (posts & Hf & HP).
  rewrite Hf. simpl. split; [|exact HP]. exists posts. split; assumption.
Qed.

Lemma posts_all_savePosts P posts :
  Forall P posts -> triple (posts_all P) (savePosts posts) top.
Proof.
  intros HP w _. simpl. split; [|exact Logic.I]. exists posts. split; [reflexivity|exact HP].
Qed.

Section Posts_invariant.
Variable P : post -> Prop.
Hypothesis P_backfill : forall p, P p -> P (backfill_post p).
Hypothesis P_toggled :
  forall user p xs n,
    P p -> likedBy p = VArr xs -> likes p = VNum n -> P (toggled user xs n p).
Hypothesis P_set_comments : forall p v, P p -> P (set_comments v p).
Hypothesis P_new_post : forall now name filename t c, P (new_post now name filename t c).

Lemma inv_normalisePosts raw :
  Forall P raw -> triple (posts_all P) (normalisePosts raw) (Forall P).
Proof.
  intros HP. apply triple_ret. apply Forall_map.
  eapply Forall_impl; [exact P_backfill | exact HP].
Qed.

Lemma inv_load_normalise {A} (k : list post -> io A) :
  (forall posts, Forall P posts -> triple (posts_all P) (k posts) top) ->
  triple (posts_all P) (let* raw := loadPosts in let* posts := normalisePosts raw in k posts) top.
Proof.
  intros Hk. eapply triple_bind; [apply posts_all_loadPosts|].
  intros raw Hraw. eapply triple_bind; [apply inv_normalisePosts, Hraw|].
  exact Hk.
Qed.

Lemma inv_toggle_like user p : P p -> triple (posts_all P) (toggle_like user p) P.
Proof.
  intros Hp w Hw. destruct (likedBy p) as [| | | | |xs|] eqn:Hxs;
    try (unfold toggle_like, bind; rewrite Hxs; exact Hw).
  destruct (likes p) as [| | |n| | |] eqn:Hn;
    try (unfold toggle_like, bind; rewrite Hxs, Hn; exact Hw).
  rewrite (toggle_like_run user p xs n w Hxs Hn). split; [exact Hw|].
  apply P_toggled; assumption.
Qed.

Lemma find_post_P id posts i p : Forall P posts -> find_post id posts = Some (i, p) -> P p.
Proof.
  intros HP (Hi & _)%find_post_Some.
  eapply (proj1 (list.Forall_forall _ _) HP), list_elem_of_lookup_2, Hi.
Qed.

Lemma remove_id_P id posts : Forall P posts -> Forall P (remove_id id posts).
Proof.
  intros HP. apply list.Forall_forall. intros q [Hq _]%elem_of_remove_id.
  exact (proj1 (list.Forall_forall _ _) HP q Hq).
Qed.

Ltac inv_step :=
  first [ apply posts_all_savePosts
        | apply (users_normaliseUsers (posts_all P) (posts_all_saveUsers P))
        | triple_step ].

Lemma inv_upload_route now sess t c f : triple (posts_all P) (upload_route now sess t c f) top.
Proof.
  unfold upload_route. destruct (logged_in sess) as [name|]; [|triple_step].
  destruct f as [filename|]; [|triple_step].
  apply inv_load_normalise. intros posts HP.
  eapply triple_bind_top; [|intros; triple_step].
  apply posts_all_savePosts, Forall_app. split; [exact HP|].
  constructor; [apply P_new_post | constructor].
Qed.

Lemma inv_like_route sess id : triple (posts_all P) (like_route sess id) top.
Proof.
  unfold like_route. destruct (logged_in sess) as [user|]; [|triple_step].
  apply inv_load_normalise. intros posts HP.
  destruct (find_post id posts) as [[i p]|] eqn:Hfind; [|triple_step].
  eapply triple_bind; [eapply inv_toggle_like, find_post_P; eassumption|].
  intros p' Hp'. eapply triple_bind_top; [|intros; triple_step].
  apply posts_all_savePosts, Forall_insert; assumption.
Qed.

Lemma inv_delete_route sess id : triple (posts_all P) (delete_route sess id) top.
Proof.
  unfold delete_route. destruct (logged_in sess) as [user|]; [|triple_step].
  apply inv_load_normalise. intros posts HP.
  destruct (find_post id posts) as [[i p]|]; [|triple_step].
  destruct (negb _); [triple_step|].
  eapply triple_bind_top; [|intros; triple_step].
  apply posts_all_savePosts, remove_id_P, HP.
Qed.

Lemma inv_comment_route now sess id text :
  triple (posts_all P) (comment_route now sess id text) top.
Proof.
  unfold comment_route. destruct (logged_in sess) as [user|]; [|triple_step].
  destruct (or_empty text) as [| | | |s| |]; try apply triple_throw.
  cbv zeta. destruct (String.eqb (trim s) ""); [triple_step|].
  apply inv_load_normalise. intros posts HP.
  destruct (find_post id posts) as [[i p]|] eqn:Hfind; [|triple_step].
  eapply triple_bind_top; [apply triple_as_array|]. intros cs.
  eapply triple_bind_top; [|intros; triple_step].
  apply posts_all_savePosts, Forall_insert; [exact HP|].
  apply P_set_comments. eapply find_post_P; eassumption.
Qed.

Lemma inv_delete_comment_route sess postId commentId :
  triple (posts_all P) (delete_comment_route sess postId commentId) top.
Proof.
  unfold delete_comment_route. destruct (logged_in sess) as [user|]; [|triple_step].
  apply inv_load_normalise. intros posts HP.
  destruct (find_post postId posts) as [[i p]|] eqn:Hfind; [|triple_step].
  eapply triple_bind_top; [apply triple_as_array|]. intros cs.
  eapply triple_bind_top; [apply triple_findIndex_id|]. intros [idx|]; [|triple_step].
  destruct (_ ≫= _) as [comment_author|]; [|triple_step].
  destruct (_ && _); [triple_step|].
  eapply triple_bind_top; [|intros; triple_step].
  apply posts_all_savePosts, Forall_insert; [exact HP|].
  apply P_set_comments. eapply find_post_P; eassumption.
Qed.

Lemma inv_admin_page_route now sess : triple (posts_all P) (admin_page_route now sess) top.
Proof.
  unfold admin_page_route.
  apply (users_requireAdmin (posts_all P) (posts_all_saveUsers P)).
  repeat inv_step.
Qed.

Lemma inv_admin_delete_route now sess id :
  triple (posts_all P) (admin_delete_route now sess id) top.
Proof.
  unfold admin_delete_route.
  apply (users_requireAdmin (posts_all P) (posts_all_saveUsers P)).
  apply inv_load_normalise. intros posts HP.
  eapply triple_bind_top; [|intros; triple_step].
  apply posts_all_savePosts, remove_id_P, HP.
Qed.

Lemma inv_route now sess r : triple (posts_all P) (route now sess r) top.
Proof.
  pose proof (posts_all_saveUsers P) as HI.
  destruct r; try (apply triple_readonly; reflexivity);
    try (apply users_profile_route, HI); simpl.
  - eapply triple_bind_top; [apply users_register_route, HI | intros; triple_step].
  - eapply triple_bind_top; [apply users_login_route, HI | intros; triple_step].
  - apply users_follow_route, HI.
  - apply users_unfollow_route, HI.
  - apply users_requireAdmin, users_admin_set_field; exact HI.
  - apply users_requireAdmin, users_admin_set_field; exact HI.
  - apply users_requireAdmin, users_admin_set_field; exact HI.
  - apply inv_upload_route.
  - apply inv_like_route.
  - apply inv_delete_route.
  - apply inv_comment_route.
  - apply inv_delete_comment_route.
  - apply inv_admin_page_route.
  - apply inv_admin_delete_route.
Qed.

Lemma inv_serve now sess r : triple (posts_all P) (serve now sess r) top.
Proof.
  unfold serve. eapply triple_bind_top.
  - apply users_attach_current_user, posts_all_saveUsers.
  - intros _. apply inv_route.
Qed.

Lemma inv_run arrivals w : posts_all P w -> posts_all P (run arrivals w).
Proof.
  revert w. induction arrivals as [|a rest IH]; intros w Hw; simpl; [exact Hw|].
  apply IH. eapply triple_final; [apply inv_serve | exact Hw].
Qed.
End Posts_invariant.

Lemma likes_counted_backfill p : likes_counted p -> likes_counted (backfill_post p).
Proof.
  intros (xs & Hxs & Hn). exists xs.
  destruct p as [i t c f a ca l lb cs]; simpl in *. subst.
  unfold backfill_post; cbn. destruct (isArray cs); cbn; auto.
Qed.

Lemma liked_once_backfill p : liked_once p -> liked_once (backfill_post p).
Proof.
  intros (xs & Hxs & Hnd). exists xs.
  destruct p as [i t c f a ca l lb cs]; simpl in *. subst.
  post_cases l (VArr xs) cs; auto.
Qed.

Lemma liked_once_toggled user p xs n :
  liked_once p -> likedBy p = VArr xs -> likes p = VNum n ->
  liked_once (toggled user xs n p).
Proof.
  intros (xs' & Hxs' & Hnd) Hxs _.
  assert (xs' = xs) as -> by congruence.
  apply toggled_once, Hnd.
Qed.

Lemma liked_once_set_comments p v : liked_once p -> liked_once (set_comments v p).
Proof. intros (xs & Hxs & Hnd). exists xs. auto. Qed.

Lemma liked_once_new_post now name filename t c :
  liked_once (new_post now name filename t c).
Proof. exists []. split; [reflexivity | apply NoDup_nil_2]. Qed.

(** What the normaliser makes of the two fields of the like state. *)
Lemma backfill_post_like_state p :
  likes (backfill_post p) = (if is_number (likes p) then likes p else VNum 0) /\
  likedBy (backfill_post p) = (if isArray (likedBy p) then likedBy p else VArr []) /\
  post_id (backfill_post p) = post_id p /\ author (backfill_post p) = author p.
Proof.
  destruct p as [i t c f a ca l lb cs]. post_cases l lb cs; auto.
Qed.

(** *** The counter while the arrays grow *)

Lemma counted_upto_counted b p : counted_upto b p -> likes_counted p.
Proof. intros (xs & Hxs & Hn & _). exists xs. auto. Qed.

Lemma counted_upto_mono b p : counted_upto b p -> counted_upto (S b) p.
Proof. intros (xs & Hxs & Hn & Hb). exists xs. auto. Qed.

Lemma counted_upto_backfill b p : counted_upto b p -> counted_upto b (backfill_post p).
Proof.
  intros (xs & Hxs & Hn & Hb). exists xs.
  destruct p as [i t c f a ca l lb cs]; simpl in *. subst.
  unfold backfill_post; cbn. destruct (isArray cs); cbn; auto.
Qed.

Lemma counted_upto_toggled b user p xs n :
  (Z.of_nat b < 2 ^ 53)%Z ->
  counted_upto b p -> likedBy p = VArr xs -> likes p = VNum n ->
  counted_upto (S b) (toggled user xs n p).
Proof.
  intros Hb (xs' & Hxs' & Hn' & Hle) Hxs Hn.
  assert (xs' = xs) as -> by congruence.
  assert (n = Z.of_nat (length xs)) as -> by congruence.
  destruct (toggled_counted user xs p ltac:(lia)) as (ys & Hys & Hlikes).
  destruct (toggled_length user xs (Z.of_nat (length xs)) p) as (ys' & Hys' & Hlen).
  assert (ys' = ys) as -> by congruence.
  exists ys. split; [exact Hys|]. split; [exact Hlikes | lia].
Qed.

Lemma counted_upto_set_comments b p v :
  counted_upto b p -> counted_upto b (set_comments v p).
Proof. intros (xs & Hxs & Hn & Hb). exists xs. auto. Qed.

Lemma counted_upto_new_post b now name filename t c :
  counted_upto b (new_post now name filename t c).
Proof. exists []. split; [reflexivity|]. split; [reflexivity | simpl; lia]. Qed.

(** The same for the collection as the normaliser hands it to a handler:
    a record that has both fields keeps them through the normaliser, and
    one that has neither gets the counter 0 and the empty array. *)
Lemma loaded_upto_iff b p xs n :
  likedBy p = VArr xs -> likes p = VNum n ->
  counted_upto b (backfill_post p) <-> counted_upto b p.
Proof.
  intros Hxs Hn. unfold counted_upto.
  destruct (backfill_post_like_state p) as (Hl & Hb & _).
  rewrite Hl, Hb, Hxs, Hn. reflexivity.
Qed.

Lemma loaded_upto_backfill b p :
  counted_upto b (backfill_post p) -> counted_upto b (backfill_post (backfill_post p)).
Proof.
  rewrite (backfill_post_canonical (backfill_post p)); [auto|].
  apply backfill_post_makes_canonical.
Qed.

Lemma loaded_upto_toggled b user p xs n :
  (Z.of_nat b < 2 ^ 53)%Z ->
  counted_upto b (backfill_post p) -> likedBy p = VArr xs -> likes p = VNum n ->
  counted_upto (S b) (backfill_post (toggled user xs n p)).
Proof.
  intros Hb Hc Hxs Hn. apply (loaded_upto_iff b p xs n Hxs Hn) in Hc.
  pose proof (counted_upto_toggled b user p xs n Hb Hc Hxs Hn) as Ht.
  pose proof Ht as (xs' & Hxs' & Hn' & _).
  apply (loaded_upto_iff _ _ xs' _ Hxs' Hn'). exact Ht.
Qed.

Lemma loaded_upto_set_comments b p v :
  counted_upto b (backfill_post p) -> counted_upto b (backfill_post (set_comments v p)).
Proof.
  unfold counted_upto.
  destruct (backfill_post_like_state p) as (Hl & Hb & _).
  destruct (backfill_post_like_state (set_comments v p)) as (Hl' & Hb' & _).
  rewrite Hl, Hb, Hl', Hb'. auto.
Qed.

Lemma loaded_upto_new_post b now name filename t c :
  counted_upto b (backfill_post (new_post now name filename t c)).
Proof. exists []. split; [reflexivity|]. split; [reflexivity | simpl; lia]. Qed.

(** A property of the posts that a request keeps, except that a like may
    take a post from the bound [b] to the bound [S b]. *)
Section Posts_growth.
Variable C : nat -> post -> Prop.
Hypothesis C_mono : forall b p, C b p -> C (S b) p.
Hypothesis C_backfill : forall b p, C b p -> C b (backfill_post p).
Hypothesis C_toggled :
  forall b user p xs n,
    (Z.of_nat b < 2 ^ 53)%Z ->
    C b p -> likedBy p = VArr xs -> likes p = VNum n -> C (S b) (toggled user xs n p).
Hypothesis C_set_comments : forall b p v, C b p -> C b (set_comments v p).
Hypothesis C_new_post : forall b now name filename t c, C b (new_post now name filename t c).

Lemma growth_mono b w : posts_all (C b) w -> posts_all (C (S b)) w.
Proof.
  intros (posts & Hf & Hall). exists posts. split; [exact Hf|].
  eapply list.Forall_impl; [exact Hall | apply C_mono].
Qed.

Lemma growth_like_route b sess id w :
  (Z.of_nat b < 2 ^ 53)%Z -> posts_all (C b) w ->
  posts_all (C (S b)) (final_world (like_route sess id w)).
Proof.
  intros Hb Hw. pose proof Hw as (posts & Hf & Hall).
  unfold like_route. destruct (logged_in sess) as [user|];
    [|apply growth_mono, Hw].
  rewrite (load_normalise_posts posts w _ Hf).
  destruct (find_post id (map backfill_post posts)) as [[i p]|] eqn:Hfind;
    [|apply growth_mono, Hw].
  pose proof (find_post_canonical _ _ _ _ Hfind) as (Hl & Hlb & _).
  assert (Hloaded : Forall (C b) (map backfill_post posts)).
  { apply Forall_map. eapply list.Forall_impl; [exact Hall | apply C_backfill]. }
  pose proof (proj1 (find_post_Some _ _ _ _) Hfind) as (Hi & _).
  assert (Hp : C b p).
  { eapply (proj1 (list.Forall_forall _ _) Hloaded), list_elem_of_lookup_2, Hi. }
  destruct (likes p) as [| | |n| | |] eqn:Hn; try discriminate.
  destruct (likedBy p) as [| | | | |xs|] eqn:Hxs; try discriminate.
  unfold bind. rewrite (toggle_like_run user p xs n w Hxs Hn). simpl.
  eexists. split; [reflexivity|]. apply Forall_insert.
  - eapply list.Forall_impl; [exact Hloaded | apply C_mono].
  - apply C_toggled; assumption.
Qed.

Lemma growth_route b now sess r w :
  (Z.of_nat b < 2 ^ 53)%Z -> posts_all (C b) w ->
  posts_all (C (S b)) (final_world (route now sess r w)).
Proof.
  intros Hb Hw.
  assert (Hkeep : triple (posts_all (C b)) (route now sess r) top ->
                  posts_all (C (S b)) (final_world (route now sess r w))).
  { intros Ht. apply growth_mono. eapply triple_final; [exact Ht | exact Hw]. }
  pose proof (posts_all_saveUsers (C b)) as HI.
  destruct r; try (apply Hkeep, triple_readonly; reflexivity);
    try (apply Hkeep, users_profile_route, HI);
    try (apply growth_like_route; assumption);
    apply Hkeep; cbn [route].
  - eapply triple_bind_top; [apply users_register_route, HI | intros; triple_step].
  - eapply triple_bind_top; [apply users_login_route, HI | intros; triple_step].
  - apply users_follow_route, HI.
  - apply users_unfollow_route, HI.
  - apply users_requireAdmin, users_admin_set_field; exact HI.
  - apply users_requireAdmin, users_admin_set_field; exact HI.
  - apply users_requireAdmin, users_admin_set_field; exact HI.
  - apply inv_upload_route; [apply C_backfill | apply C_new_post].
  - apply inv_delete_route, C_backfill.
  - apply inv_comment_route; [apply C_backfill | apply C_set_comments].
  - apply inv_delete_comment_route; [apply C_backfill | apply C_set_comments].
  - apply inv_admin_page_route.
  - apply inv_admin_delete_route, C_backfill.
Qed.

Lemma growth_serve b now sess r w :
  (Z.of_nat b < 2 ^ 53)%Z -> posts_all (C b) w ->
  posts_all (C (S b)) (final_world (serve now sess r w)).
Proof.
  intros Hb Hw. unfold serve, bind.
  pose proof (users_attach_current_user _ (posts_all_saveUsers (C b)) now sess w Hw)
    as Hmid.
  destruct (attach_current_user now sess w) as [[] w1|e w1]; simpl.
  - apply growth_route; [exact Hb | apply Hmid].
  - apply growth_mono, Hmid.
Qed.

Lemma growth_run arrivals b w :
  (Z.of_nat (b + length arrivals) <= 2 ^ 53)%Z -> posts_all (C b) w ->
  posts_all (C (b + length arrivals)) (run arrivals w).
Proof.
  revert b w. induction arrivals as [|a rest IH]; intros b w Hb Hw; simpl.
  - rewrite Nat.add_0_r. exact Hw.
  - simpl in Hb. replace (b + S (length rest)) with (S b + length rest) by lia.
    apply IH; [lia|]. apply growth_serve; [lia | exact Hw].
Qed.
End Posts_growth.

(** C1, as amended: the likes counter equals the number of entries of
    [likedBy] in every post of the posts file after the server has handled
    any sequence of requests (registrations, logins, follows, uploads, like
    toggles, comments, comment and post deletions, admin actions, the
    pages and the normalising loads they start with), given that it did in
    the file the server started from, as it does on a fresh installation,
    whose file holds no post, and that the arrays stay so short that their
    length is a double: no [likedBy] holds more than [b] entries at the
    start, where [b] and the number of requests add up to [2^53] at most.
    The same is true of the collection as the normaliser hands it to the
    handlers, which also covers a file with posts that have neither field
    yet.  The normaliser keeps the equation in a record in which it
    holds, and gives a record that has neither field the counter 0 and the
    empty [likedBy].  And if no [likedBy] held an entry twice, none does
    afterwards, so the count is that of a set. *)
Theorem likes_count_invariant (arrivals : list arrival) (w : world) (b : nat) :
  (Z.of_nat (b + length arrivals) <= 2 ^ 53)%Z ->
  (posts_all (counted_upto b) w ->
   exists posts,
     posts_file (run arrivals w) = Text_json posts /\
     forall p, p ∈ posts ->
       exists xs, likedBy p = VArr xs /\ likes p = VNum (Z.of_nat (length xs))) /\
  (posts_all (fun p => counted_upto b (backfill_post p)) w ->
   exists posts,
     posts_file (run arrivals w) = Text_json posts /\
     forall p, p ∈ map backfill_post posts ->
       exists xs, likedBy p = VArr xs /\ likes p = VNum (Z.of_nat (length xs))) /\
  (forall p xs,
     likedBy p = VArr xs -> likes p = VNum (Z.of_nat (length xs)) ->
     likedBy (backfill_post p) = VArr xs /\
     likes (backfill_post p) = VNum (Z.of_nat (length xs))) /\
  (forall p, is_number (likes p) = false -> isArray (likedBy p) = false ->
     likedBy (backfill_post p) = VArr [] /\ likes (backfill_post p) = VNum 0) /\
  (posts_all liked_once w ->
   exists posts,
     posts_file (run arrivals w) = Text_json posts /\
     forall p, p ∈ posts -> exists xs, likedBy p = VArr xs /\ NoDup xs).
Proof.
  intros Hb. split; [|split; [|split; [|split]]].
  - intros Hw.
    destruct (growth_run counted_upto counted_upto_mono counted_upto_backfill
                counted_upto_toggled counted_upto_set_comments counted_upto_new_post
                arrivals b w Hb Hw)
      as (posts & Hf & HP).
    exists posts. split; [exact Hf|]. intros p Hp.
    exact (counted_upto_counted _ p (proj1 (list.Forall_forall _ _) HP p Hp)).
  - intros Hw.
    destruct (growth_run (fun b p => counted_upto b (backfill_post p))
                (fun b p => counted_upto_mono b (backfill_post p))
                loaded_upto_backfill loaded_upto_toggled
                loaded_upto_set_comments loaded_upto_new_post
                arrivals b w Hb Hw)
      as (posts & Hf & HP).
    exists posts. split; [exact Hf|]. intros p Hp.
    change (map backfill_post posts) with (backfill_post <$> posts) in Hp.
    apply list_elem_of_fmap in Hp as (q & -> & Hq).
    exact (counted_upto_counted _ _ (proj1 (list.Forall_forall _ _) HP q Hq)).
  - intros p xs Hxs Hn. destruct (backfill_post_like_state p) as (Hl' & Hb' & _).
    rewrite Hl', Hb', Hxs, Hn. auto.
  - intros p Hl Hlb. destruct (backfill_post_like_state p) as (Hl' & Hb' & _).
    rewrite Hl', Hb', Hl, Hlb. auto.
  - intros Hw.
    destruct (inv_run liked_once liked_once_backfill liked_once_toggled
                liked_once_set_comments liked_once_new_post arrivals w Hw)
      as (posts & Hf & HP).
    exists posts. split; [exact Hf|]. intros p Hp.
    exact (proj1 (list.Forall_forall _ _) HP p Hp).
Qed.

Lemma likes_count_invariant_witness :
  exists posts,
    posts_file (run sample_session (started fresh_world)) = Text_json posts /\
    forall p, p ∈ posts ->
      exists xs, likedBy p = VArr xs /\ likes p = VNum (Z.of_nat (length xs)).
Proof.
  apply (likes_count_invariant sample_session (started fresh_world) 0);
    [vm_compute; discriminate|].
  exists []. split; [reflexivity | constructor].
Defined.

(** C1, the claim as stated fails for normalisation: the two fields are
    backfilled one by one, so a record that has a counter and no
    [likedBy] leaves the normaliser with its counter, 3, beside the empty
    array. *)
Lemma normalise_leaves_likes_uncounted :
  exists p,
    normalisePosts [legacy_post] (started fresh_world) = Done [p] (started fresh_world) /\
    likes p = VNum 3 /\ likedBy p = VArr [] /\
    ~ (exists xs, likedBy p = VArr xs /\ likes p = VNum (Z.of_nat (length xs))).
Proof.
  eexists. split; [reflexivity|]. split; [reflexivity|]. split; [reflexivity|].
  intros (xs & [= <-] & [=]).
Qed.

(** ** The follow relation as an invariant of the users file *)

Lemma name_of_insert users i X X' :
  users !! i = Some X -> name_of X' = name_of X ->
  user_names (<[i := X']> users) = user_names users.
Proof.
  revert i. induction users as [|u rest IH]; intros i Hi Hn; [reflexivity|].
  destruct i as [|i].
  - cbn in Hi. injection Hi as ->.
    change (<[0 := X']> (X :: rest)) with (X' :: rest).
    rewrite !user_names_cons, Hn. reflexivity.
  - cbn in Hi. change (<[S i := X']> (u :: rest)) with (u :: <[i := X']> rest).
    rewrite !user_names_cons, (IH i Hi Hn). reflexivity.
Qed.

Lemma name_of_username u v : username u = username v -> name_of u = name_of v.
Proof. unfold name_of. intros ->. reflexivity. Qed.

(** With unique usernames, what a side records about a user is what that
    user's record holds. *)
Lemma following_side_at users i X x b :
  NoDup (user_names users) -> users !! i = Some X -> username X = VStr x ->
  following_side users x b <-> follows X b.
Proof.
  intros Hnd Hi Hx. split.
  - intros (A & HA & Ha & Hf).
    assert (A = X) as -> by
      (eapply unique_name_elem; eauto using list_elem_of_lookup_2).
    exact Hf.
  - intros Hf. exists X. eauto using list_elem_of_lookup_2.
Qed.

Lemma followers_side_at users i X x a :
  NoDup (user_names users) -> users !! i = Some X -> username X = VStr x ->
  followers_side users a x <-> followed_by X a.
Proof.
  intros Hnd Hi Hx. split.
  - intros (B & HB & Hb & Hf).
    assert (B = X) as -> by
      (eapply unique_name_elem; eauto using list_elem_of_lookup_2).
    exact Hf.
  - intros Hf. exists X. eauto using list_elem_of_lookup_2.
Qed.

(** Replacing the record of [x] by another record of [x]. *)
Lemma sides_insert users i X X' x :
  NoDup (user_names users) -> users !! i = Some X ->
  username X = VStr x -> username X' = VStr x ->
  NoDup (user_names (<[i := X']> users)) /\
  (forall a b, following_side (<[i := X']> users) a b <->
               (a <> x /\ following_side users a b) \/ (a = x /\ follows X' b)) /\
  (forall a b, followers_side (<[i := X']> users) a b <->
               (b <> x /\ followers_side users a b) \/ (b = x /\ followed_by X' a)).
Proof.
  intros Hnd Hi Hx Hx'.
  assert (Hlen : i < length users) by (eapply lookup_lt_Some, Hi).
  assert (Hin : forall Y, Y ∈ <[i := X']> users <->
                  Y = X' \/ exists j, j <> i /\ users !! j = Some Y).
  { intros Y. rewrite list_elem_of_lookup. split.
    - intros [j [(-> & -> & _)|(Hne & Hj)]%list_lookup_insert_Some]; eauto.
    - intros [->|(j & Hne & Hj)].
      + exists i. apply list_lookup_insert_eq, Hlen.
      + exists j. rewrite list_lookup_insert_ne by congruence. exact Hj. }
  assert (Hother : forall j Y, j <> i -> users !! j = Some Y -> username Y <> VStr x).
  { intros j Y Hne Hj HY. apply Hne.
    eapply unique_name_lookup; eassumption. }
  split; [|split].
  - rewrite (name_of_insert users i X X' Hi); [exact Hnd|].
    apply name_of_username. congruence.
  - intros a b. split.
    + intros (A & [->|(j & Hne & Hj)]%Hin & Ha & Hf).
      * right. split; [congruence | exact Hf].
      * left. split.
        -- intros ->. exact (Hother j A Hne Hj Ha).
        -- exists A. eauto using list_elem_of_lookup_2.
    + intros [(Hne & A & [j Hj]%list_elem_of_lookup_1 & Ha & Hf)|(-> & Hf)].
      * exists A. split; [|auto]. apply Hin. right. exists j. split; [|exact Hj].
        intros ->. congruence.
      * exists X'. split; [apply Hin; auto | auto].
  - intros a b. split.
    + intros (B & [->|(j & Hne & Hj)]%Hin & Hb & Hf).
      * right. split; [congruence | exact Hf].
      * left. split.
        -- intros ->. exact (Hother j B Hne Hj Hb).
        -- exists B. eauto using list_elem_of_lookup_2.
    + intros [(Hne & B & [j Hj]%list_elem_of_lookup_1 & Hb & Hf)|(-> & Hf)].
      * exists B. split; [|auto]. apply Hin. right. exists j. split; [|exact Hj].
        intros ->. congruence.
      * exists X'. split; [apply Hin; auto | auto].
Qed.

(** An update of a record that keeps its name and its two arrays keeps the
    relation. *)
Lemma consistent_insert_same users i X X' x :
  users_consistent users -> users !! i = Some X ->
  username X = VStr x -> username X' = VStr x ->
  following X' = following X -> followers X' = followers X ->
  users_consistent (<[i := X']> users).
Proof.
  intros [Hnd Hsym] Hi Hx Hx' Hfg Hfr.
  destruct (sides_insert users i X X' x Hnd Hi Hx Hx') as (Hnd' & HF & HG).
  split; [exact Hnd'|]. intros a b. rewrite HF, HG.
  assert (HfX : forall b, follows X' b <-> following_side users x b).
  { intros b'. rewrite (following_side_at users i X x b' Hnd Hi Hx).
    unfold follows. rewrite Hfg. reflexivity. }
  assert (HgX : forall a, followed_by X' a <-> followers_side users a x).
  { intros a'. rewrite (followers_side_at users i X x a' Hnd Hi Hx).
    unfold followed_by. rewrite Hfr. reflexivity. }
  rewrite HfX, HgX.
  pose proof (Hsym a b) as Hab.
  destruct (decide (a = x)) as [Ha|Ha], (decide (b = x)) as [Hb|Hb]; subst;
    tauto.
Qed.

(** The two records touched by a follow or an unfollow. *)
Lemma sides_insert2 users i j me target me' target' m t :
  NoDup (user_names users) ->
  users !! i = Some me -> users !! j = Some target ->
  username me = VStr m -> username target = VStr t -> m <> t ->
  username me' = VStr m -> username target' = VStr t ->
  let users' := <[j := target']> (<[i := me']> users) in
  NoDup (user_names users') /\
  (forall a b, following_side users' a b <->
     (a = m /\ follows me' b) \/ (a = t /\ follows target' b) \/
     (a <> m /\ a <> t /\ following_side users a b)) /\
  (forall a b, followers_side users' a b <->
     (b = m /\ followed_by me' a) \/ (b = t /\ followed_by target' a) \/
     (b <> m /\ b <> t /\ followers_side users a b)).
Proof.
  intros Hnd Hi Hj Hm Ht Hne Hm' Ht' users'.
  destruct (sides_insert users i me me' m Hnd Hi Hm Hm') as (Hnd1 & HF1 & HG1).
  assert (Hij : i <> j) by (intros ->; congruence).
  assert (Hj1 : <[i := me']> users !! j = Some target)
    by (rewrite list_lookup_insert_ne by exact Hij; exact Hj).
  destruct (sides_insert _ j target target' t Hnd1 Hj1 Ht Ht') as (Hnd2 & HF2 & HG2).
  split; [exact Hnd2|]. split.
  - intros a b. unfold users'. rewrite HF2, HF1.
    destruct (decide (a = m)), (decide (a = t)); subst; tauto.
  - intros a b. unfold users'. rewrite HG2, HG1.
    destruct (decide (b = m)), (decide (b = t)); subst; tauto.
Qed.

Lemma includes_true xs s : includes xs s = true <-> VStr s ∈ xs.
Proof.
  unfold includes. rewrite existsb_exists. split.
  - intros (v & Hv & ->%strict_eq_str_true). apply list_elem_of_In, Hv.
  - intros Hin. exists (VStr s). split; [apply list_elem_of_In, Hin|].
    apply strict_eq_str_true. reflexivity.
Qed.

Lemma elem_of_filter_ne xs s v : v ∈ filter_ne xs s <-> v ∈ xs /\ v <> VStr s.
Proof.
  unfold filter_ne. rewrite !list_elem_of_In, filter_In, negb_true_iff.
  split; intros [Hin Hne]; (split; [exact Hin|]).
  - intros Heq. apply (proj2 (strict_eq_str_true v s)) in Heq. congruence.
  - apply not_true_is_false. intros Heq%strict_eq_str_true. contradiction.
Qed.

(** The general step: the edge from [m] to [t] is set to [E] on both
    sides, every other edge is kept. *)
Lemma consistent_insert2 users i j me target me' target' m t (E : Prop) :
  users_consistent users ->
  users !! i = Some me -> users !! j = Some target ->
  username me = VStr m -> username target = VStr t -> m <> t ->
  username me' = VStr m -> username target' = VStr t ->
  followers me' = followers me -> following target' = following target ->
  (forall b, follows me' b <-> (follows me b /\ b <> t) \/ (b = t /\ E)) ->
  (forall a, followed_by target' a <-> (followed_by target a /\ a <> m) \/ (a = m /\ E)) ->
  users_consistent (<[j := target']> (<[i := me']> users)).
Proof.
  intros [Hnd Hsym] Hi Hj Hm Ht Hne Hm' Ht' Hfr Hfg Hme Htarget.
  destruct (sides_insert2 users i j me target me' target' m t Hnd Hi Hj Hm Ht Hne Hm' Ht')
    as (Hnd' & HF & HG).
  split; [exact Hnd'|]. intros a b. rewrite HF, HG, Hme, Htarget.
  assert (Hfme : forall b, follows me b <-> following_side users m b)
    by (intros; symmetry; eapply following_side_at; eassumption).
  assert (Hftg : forall b, follows target' b <-> following_side users t b).
  { intros b'. rewrite (following_side_at users j target t b' Hnd Hj Ht).
    unfold follows. rewrite Hfg. reflexivity. }
  assert (Hgme : forall a, followed_by me' a <-> followers_side users a m).
  { intros a'. rewrite (followers_side_at users i me m a' Hnd Hi Hm).
    unfold followed_by. rewrite Hfr. reflexivity. }
  assert (Hgtg : forall a, followed_by target a <-> followers_side users a t)
    by (intros; symmetry; eapply followers_side_at; eassumption).
  rewrite Hfme, Hftg, Hgme, Hgtg.
  pose proof (Hsym a b) as Hab.
  destruct (decide (a = m)), (decide (a = t)), (decide (b = m)), (decide (b = t));
    subst; tauto.
Qed.

Lemma consistent_nil : users_consistent [].
Proof.
  split; [apply NoDup_nil_2|]. intros a b.
  split; intros (X & HX & _); apply elem_of_nil in HX; contradiction.
Qed.

Lemma consistent_register users name e p j a b :
  users_consistent users -> find_user name users = None ->
  users_consistent (users ++ [User (VStr name) e p j a b (VArr []) (VArr [])]).
Proof.
  intros [Hnd Hsym] Hfresh. pose proof (proj1 (find_user_None _ _) Hfresh) as Hnone.
  set (new := User (VStr name) e p j a b (VArr []) (VArr [])).
  assert (HF : forall x y, following_side (users ++ [new]) x y <-> following_side users x y).
  { intros x y. split.
    - intros (A & [HA| ->%list_elem_of_singleton]%elem_of_app & Ha & Hf).
      + exists A. auto.
      + unfold follows in Hf. simpl in Hf. apply elem_of_nil in Hf. contradiction.
    - intros (A & HA & Ha & Hf). exists A. split; [apply elem_of_app; auto | auto]. }
  assert (HG : forall x y, followers_side (users ++ [new]) x y <-> followers_side users x y).
  { intros x y. split.
    - intros (B & [HB| ->%list_elem_of_singleton]%elem_of_app & Hb & Hf).
      + exists B. auto.
      + unfold followed_by in Hf. simpl in Hf. apply elem_of_nil in Hf. contradiction.
    - intros (B & HB & Hb & Hf). exists B. split; [apply elem_of_app; auto | auto]. }
  split.
  - unfold user_names. rewrite omap_app. apply list.NoDup_app. split; [exact Hnd|].
    split; [|simpl; apply NoDup_singleton].
    intros s (u & Hu & Hs%name_of_Some)%list_elem_of_omap Hin.
    simpl in Hin. apply list_elem_of_singleton in Hin. subst s.
    exact (Hnone u Hu Hs).
  - intros x y. rewrite HF, HG. apply Hsym.
Qed.

Lemma backfill_user_sides now u c :
  (forall b, follows (fst (backfill_user now u c)) b <-> follows u b) /\
  (forall a, followed_by (fst (backfill_user now u c)) a <-> followed_by u a).
Proof.
  destruct u as [n e p j a b fr fg]. unfold follows, followed_by.
  backfill_cases j a b fr fg; split; intros x; try reflexivity;
    try (destruct fg; try discriminate; rewrite elem_of_nil; reflexivity);
    try (destruct fr; try discriminate; rewrite elem_of_nil; reflexivity).
Qed.

Lemma user_names_normalised now users :
  user_names (normalised_users now users) = user_names users.
Proof.
  unfold normalised_users. induction users as [|u rest IH]; [reflexivity|].
  cbn [map]. rewrite !user_names_cons, IH.
  rewrite (name_of_username (fst (backfill_user now u false)) u); [reflexivity|].
  apply backfill_user_identity.
Qed.

Lemma consistent_normalised now users :
  users_consistent users -> users_consistent (normalised_users now users).
Proof.
  intros [Hnd Hsym].
  assert (Hin : forall Y, Y ∈ normalised_users now users <->
                  exists X, Y = fst (backfill_user now X false) /\ X ∈ users).
  { intros Y. unfold normalised_users. change (map ?f users) with (f <$> users).
    apply list_elem_of_fmap. }
  split; [rewrite user_names_normalised; exact Hnd|].
  assert (HF : forall a b, following_side (normalised_users now users) a b
                           <-> following_side users a b).
  { intros a b. split.
    - intros (Y & (X & -> & HX)%Hin & Ha & Hf). exists X. split; [exact HX|].
      destruct (backfill_user_identity now X false) as (Hn & _).
      rewrite Hn in Ha. split; [exact Ha|].
      apply (proj1 (backfill_user_sides now X false)), Hf.
    - intros (X & HX & Ha & Hf). exists (fst (backfill_user now X false)).
      split; [apply Hin; eauto|].
      destruct (backfill_user_identity now X false) as (Hn & _).
      rewrite Hn. split; [exact Ha|].
      apply (proj1 (backfill_user_sides now X false)), Hf. }
  assert (HG : forall a b, followers_side (normalised_users now users) a b
                           <-> followers_side users a b).
  { intros a b. split.
    - intros (Y & (X & -> & HX)%Hin & Hb & Hf). exists X. split; [exact HX|].
      destruct (backfill_user_identity now X false) as (Hn & _).
      rewrite Hn in Hb. split; [exact Hb|].
      apply (proj2 (backfill_user_sides now X false)), Hf.
    - intros (X & HX & Hb & Hf). exists (fst (backfill_user now X false)).
      split; [apply Hin; eauto|].
      destruct (backfill_user_identity now X false) as (Hn & _).
      rewrite Hn. split; [exact Hb|].
      apply (proj2 (backfill_user_sides now X false)), Hf. }
  intros a b. rewrite HF, HG. apply Hsym.
Qed.

Lemma consistent_symmetric users : users_consistent users -> follow_symmetric users.
Proof.
  intros [Hnd Hsym] A B a b HA HB Ha Hb _.
  destruct (list_elem_of_lookup_1 _ _ HA) as [i Hi].
  destruct (list_elem_of_lookup_1 _ _ HB) as [j Hj].
  rewrite <- (followers_side_at users j B b a Hnd Hj Hb).
  rewrite <- (following_side_at users i A a b Hnd Hi Ha).
  symmetry. apply Hsym.
Qed.

Lemma users_inv_savePosts posts w :
  users_inv w ->
  users_inv (World (users_file w) (Text_json posts) (writes w ++ [POSTS_FILE])).
Proof. intros (users & Hf & Hc). exists users. split; assumption. Qed.

Lemma uinv_loadUsers : triple users_inv loadUsers users_consistent.
Proof.
  intros w Hw. unfold loadUsers. destruct Hw as (users & Hf & Hc).
  rewrite Hf. simpl. split; [|exact Hc]. exists users. split; assumption.
Qed.

Lemma uinv_saveUsers users :
  users_consistent users -> triple users_inv (saveUsers users) top.
Proof.
  intros Hc w _. simpl. split; [|exact Logic.I].
  exists users. split; [reflexivity | exact Hc].
Qed.

Lemma uinv_normaliseUsers now raw :
  users_consistent raw -> triple users_inv (normaliseUsers now raw) users_consistent.
Proof.
  intros Hc w Hw. rewrite normaliseUsers_run.
  pose proof (consistent_normalised now raw Hc) as Hc'.
  split; [|exact Hc'].
  destruct (existsb needs_backfill raw); [|exact Hw].
  exists (normalised_users now raw). split; [reflexivity | exact Hc'].
Qed.

Lemma uinv_load_normalise {A} now (k : list user -> io A) (R : A -> Prop) :
  (forall users, users_consistent users -> triple users_inv (k users) R) ->
  triple users_inv
    (let* raw := loadUsers in let* users := normaliseUsers now raw in k users) R.
Proof.
  intros Hk. eapply triple_bind; [apply uinv_loadUsers|].
  intros raw Hraw. eapply triple_bind; [apply uinv_normaliseUsers, Hraw|].
  exact Hk.
Qed.

Lemma uinv_attach_current_user now sess :
  triple users_inv (attach_current_user now sess) top.
Proof.
  unfold attach_current_user. destruct (logged_in sess); [|triple_step].
  apply uinv_load_normalise. intros users _. triple_step.
Qed.

Lemma uinv_requireAdmin now sess next :
  triple users_inv next top -> triple users_inv (requireAdmin now sess next) top.
Proof.
  intros Hnext. unfold requireAdmin. destruct (logged_in sess); [|triple_step].
  apply uinv_load_normalise. intros users _.
  destruct (find_user s users) as [[k user]|]; [|triple_step].
  destruct (truthy (isAdmin user)); [exact Hnext | triple_step].
Qed.

Lemma uinv_register_route now body : triple users_inv (register_route now body) top.
Proof.
  unfold register_route.
  destruct (_ || _); [triple_step|]. destruct (negb _); [triple_step|].
  apply uinv_load_normalise. intros users Hc.
  destruct (find_user _ users) eqn:Hfind; [triple_step|].
  eapply triple_bind_top; [|intros; triple_step].
  apply uinv_saveUsers, consistent_register; assumption.
Qed.

Lemma uinv_login_route now body : triple users_inv (login_route now body) top.
Proof.
  unfold login_route. apply uinv_load_normalise. intros users _.
  repeat triple_step.
Qed.

(** What the two pushes of a follow and the two filters of an unfollow do
    to the record they are applied to. *)
Lemma push_following_spec (I : world -> Prop) t me :
  triple I (push_following t me)
    (fun me' => username me' = username me /\ followers me' = followers me /\
                forall b, follows me' b <-> (follows me b /\ b <> t) \/ (b = t /\ True)).
Proof.
  unfold push_following. destruct (following me) as [| | | | |xs|] eqn:Hxs;
    try apply triple_throw.
  intros w Hw. simpl. split; [exact Hw|].
  destruct (includes xs t) eqn:Hinc.
  - split; [reflexivity|]. split; [reflexivity|]. intros b.
    apply includes_true in Hinc. unfold follows. rewrite Hxs.
    destruct (decide (b = t)) as [->|Hb]; tauto.
  - split; [reflexivity|]. split; [reflexivity|]. intros b.
    unfold follows. rewrite Hxs. simpl. rewrite elem_of_app, list_elem_of_singleton.
    assert (Hnot : VStr t ∉ xs).
    { intros Hin%includes_true. congruence. }
    destruct (decide (b = t)) as [->|Hb]; [tauto|].
    split; [intros [H|[= H]]; [tauto | contradiction] | tauto].
Qed.

Lemma push_follower_spec (I : world -> Prop) m target :
  triple I (push_follower m target)
    (fun target' => username target' = username target /\
                    following target' = following target /\
                    forall a, followed_by target' a <->
                              (followed_by target a /\ a <> m) \/ (a = m /\ True)).
Proof.
  unfold push_follower. destruct (followers target) as [| | | | |xs|] eqn:Hxs;
    try apply triple_throw.
  intros w Hw. simpl. split; [exact Hw|].
  destruct (includes xs m) eqn:Hinc.
  - split; [reflexivity|]. split; [reflexivity|]. intros a.
    apply includes_true in Hinc. unfold followed_by. rewrite Hxs.
    destruct (decide (a = m)) as [->|Ha]; tauto.
  - split; [reflexivity|]. split; [reflexivity|]. intros a.
    unfold followed_by. rewrite Hxs. simpl. rewrite elem_of_app, list_elem_of_singleton.
    assert (Hnot : VStr m ∉ xs).
    { intros Hin%includes_true. congruence. }
    destruct (decide (a = m)) as [->|Ha]; [tauto|].
    split; [intros [H|[= H]]; [tauto | contradiction] | tauto].
Qed.

Lemma drop_following_spec (I : world -> Prop) t me :
  triple I (drop_following t me)
    (fun me' => username me' = username me /\ followers me' = followers me /\
                forall b, follows me' b <-> (follows me b /\ b <> t) \/ (b = t /\ False)).
Proof.
  unfold drop_following. destruct (following me) as [| | | | |xs|] eqn:Hxs;
    try apply triple_throw.
  intros w Hw. simpl. split; [exact Hw|].
  split; [reflexivity|]. split; [reflexivity|]. intros b.
  unfold follows. rewrite Hxs. simpl. rewrite elem_of_filter_ne.
  split; [intros [H Hne]; left; split; [exact H | congruence] |].
  intros [[H Hne]|[_ []]]. split; [exact H | congruence].
Qed.

Lemma drop_follower_spec (I : world -> Prop) m target :
  triple I (drop_follower m target)
    (fun target' => username target' = username target /\
                    following target' = following target /\
                    forall a, followed_by target' a <->
                              (followed_by target a /\ a <> m) \/ (a = m /\ False)).
Proof.
  unfold drop_follower. destruct (followers target) as [| | | | |xs|] eqn:Hxs;
    try apply triple_throw.
  intros w Hw. simpl. split; [exact Hw|].
  split; [reflexivity|]. split; [reflexivity|]. intros a.
  unfold followed_by. rewrite Hxs. simpl. rewrite elem_of_filter_ne.
  split; [intros [H Hne]; left; split; [exact H | congruence] |].
  intros [[H Hne]|[_ []]]. split; [exact H | congruence].
Qed.

Lemma uinv_follow_route now sess targetName :
  triple users_inv (follow_route now sess targetName) top.
Proof.
  unfold follow_route. destruct (logged_in sess) as [meName|]; [|triple_step].
  destruct (String.eqb_spec targetName meName) as [|Hne]; [triple_step|].
  apply uinv_load_normalise. intros users Hc.
  destruct (find_user meName users) as [[i me]|] eqn:Hme; [|triple_step].
  destruct (find_user targetName users) as [[j target]|] eqn:Htg; [|triple_step].
  apply find_user_Some in Hme as (Hi & Hm & _).
  apply find_user_Some in Htg as (Hj & Ht & _).
  eapply triple_bind; [apply push_following_spec|]. intros me' (Hm' & Hfr & Hf).
  eapply triple_bind; [apply push_follower_spec|]. intros target' (Ht' & Hfg & Hg).
  eapply triple_bind_top; [|intros; triple_step].
  apply uinv_saveUsers.
  eapply (consistent_insert2 users i j me target me' target' meName targetName True);
    eauto; congruence.
Qed.

Lemma uinv_unfollow_route now sess targetName :
  triple users_inv (unfollow_route now sess targetName) top.
Proof.
  unfold unfollow_route. destruct (logged_in sess) as [meName|]; [|triple_step].
  destruct (String.eqb_spec targetName meName) as [|Hne]; [triple_step|].
  apply uinv_load_normalise. intros users Hc.
  destruct (find_user meName users) as [[i me]|] eqn:Hme; [|triple_step].
  destruct (find_user targetName users) as [[j target]|] eqn:Htg; [|triple_step].
  apply find_user_Some in Hme as (Hi & Hm & _).
  apply find_user_Some in Htg as (Hj & Ht & _).
  eapply triple_bind; [apply drop_following_spec|]. intros me' (Hm' & Hfr & Hf).
  eapply triple_bind; [apply drop_follower_spec|]. intros target' (Ht' & Hfg & Hg).
  eapply triple_bind_top; [|intros; triple_step].
  apply uinv_saveUsers.
  eapply (consistent_insert2 users i j me target me' target' meName targetName False);
    eauto; congruence.
Qed.

Lemma uinv_admin_set_field now set name :
  (forall u, username (set u) = username u /\ following (set u) = following u /\
             followers (set u) = followers u) ->
  triple users_inv (admin_set_field now set name) top.
Proof.
  intros Hset. unfold admin_set_field. apply uinv_load_normalise. intros users Hc.
  destruct (find_user name users) as [[i user]|] eqn:Hfind; [|triple_step].
  apply find_user_Some in Hfind as (Hi & Hn & _).
  eapply triple_bind_top; [|intros; triple_step].
  apply uinv_saveUsers. destruct (Hset user) as (Hu & Hfg & Hfr).
  eapply consistent_insert_same; eauto. congruence.
Qed.

Lemma uinv_route now sess r : triple users_inv (route now sess r) top.
Proof.
  pose proof users_inv_savePosts as HI.
  destruct r; try (apply triple_readonly; reflexivity); simpl.
  - eapply triple_bind_top; [apply uinv_register_route | intros; triple_step].
  - eapply triple_bind_top; [apply uinv_login_route | intros; triple_step].
  - apply uinv_follow_route.
  - apply uinv_unfollow_route.
  - apply uinv_requireAdmin, uinv_admin_set_field. intros u. auto.
  - apply uinv_requireAdmin, uinv_admin_set_field. intros u. auto.
  - apply uinv_requireAdmin, uinv_admin_set_field. intros u. auto.
  - apply posts_upload_route, HI.
  - apply posts_like_route, HI.
  - apply posts_delete_route, HI.
  - apply posts_comment_route, HI.
  - apply posts_delete_comment_route, HI.
  - apply uinv_requireAdmin. apply uinv_load_normalise. intros users _.
    repeat triple_step.
  - apply uinv_requireAdmin.
    eapply triple_bind_top; [triple_step|]. intros raw.
    eapply triple_bind_top; [triple_step|]. intros posts.
    eapply triple_bind_top; [apply posts_savePosts, HI | intros; triple_step].
  - unfold profile_route. eapply triple_bind_top; [|intros; triple_step].
    apply uinv_load_normalise. intros users _. repeat triple_step.
Qed.

Lemma uinv_serve now sess r : triple users_inv (serve now sess r) top.
Proof.
  unfold serve. eapply triple_bind_top; [apply uinv_attach_current_user|].
  intros _. apply uinv_route.
Qed.

Lemma uinv_run arrivals w : users_inv w -> users_inv (run arrivals w).
Proof.
  revert w. induction arrivals as [|a rest IH]; intros w Hw; simpl; [exact Hw|].
  apply IH. eapply triple_final; [apply uinv_serve | exact Hw].
Qed.

(** C2: when usernames are unique and the two sides of the follow relation
    agree in the users file (as on a fresh installation, where the file
    holds no user), they do so again after the server has handled any
    sequence of requests (registrations, logins, follows, unfollows, bans,
    unbans, promotions, the normalising loads and every post route): for
    any two users [A] and [B] of the collection with different names, [A]
    is in [B]'s followers exactly when [B] is in [A]'s following. *)
Theorem follow_symmetry_invariant (arrivals : list arrival) (w : world) :
  users_inv w ->
  exists users,
    users_file (run arrivals w) = Text_json users /\
    NoDup (user_names users) /\
    forall A B a b,
      A ∈ users -> B ∈ users -> username A = VStr a -> username B = VStr b ->
      a <> b -> (followed_by B a <-> follows A b).
Proof.
  intros Hw. destruct (uinv_run arrivals w Hw) as (users & Hf & Hc).
  exists users. split; [exact Hf|]. split; [apply Hc|].
  apply consistent_symmetric, Hc.
Qed.

Lemma follow_symmetry_invariant_witness :
  exists users,
    users_file (run sample_session (started fresh_world)) = Text_json users /\
    NoDup (user_names users) /\
    forall A B a b,
      A ∈ users -> B ∈ users -> username A = VStr a -> username B = VStr b ->
      a <> b -> (followed_by B a <-> follows A b).
Proof.
  apply (follow_symmetry_invariant sample_session (started fresh_world)).
  exists []. split; [reflexivity | apply consistent_nil].
Defined.

(** * Further properties *)

(** ** Sorting *)

Lemma insert_sorted_Permutation {A} (cmp : A -> A -> option Z) x l :
  Permutation (insert_sorted cmp x l) (x :: l).
Proof.
  induction l as [|y rest IH]; simpl; [reflexivity|].
  destruct (sorts_after cmp x y); [|reflexivity].
  rewrite IH. apply perm_swap.
Qed.

Lemma sort_by_Permutation {A} (cmp : A -> A -> option Z) l :
  Permutation (sort_by cmp l) l.
Proof.
  induction l as [|x rest IH]; simpl; [reflexivity|].
  rewrite insert_sorted_Permutation, IH. reflexivity.
Qed.

(** Two comparators that agree on the elements of the array sort it alike. *)
Lemma insert_sorted_ext {A} (cmp cmp' : A -> A -> option Z) x l :
  (forall y, y ∈ l -> sorts_after cmp x y = sorts_after cmp' x y) ->
  insert_sorted cmp x l = insert_sorted cmp' x l.
Proof.
  induction l as [|y rest IH]; intros H; simpl; [reflexivity|].
  rewrite (H y) by left. rewrite IH; [reflexivity|].
  intros z Hz. apply H. right. exact Hz.
Qed.

Lemma sort_by_ext {A} (cmp cmp' : A -> A -> option Z) l :
  (forall x y, x ∈ l -> y ∈ l -> sorts_after cmp x y = sorts_after cmp' x y) ->
  sort_by cmp l = sort_by cmp' l.
Proof.
  induction l as [|x rest IH]; intros H; simpl; [reflexivity|].
  rewrite IH by (intros; apply H; right; assumption).
  apply insert_sorted_ext. intros y Hy. apply H; [left|].
  right. rewrite <- (sort_by_Permutation cmp' rest). exact Hy.
Qed.

Section Sort_order.
Context {A : Type} (cmp : A -> A -> option Z).
Hypothesis precede_trans :
  forall x y z, may_precede cmp x y -> may_precede cmp y z -> may_precede cmp x z.
Hypothesis precede_total :
  forall x y, may_precede cmp x y \/ may_precede cmp y x.

Lemma insert_sorted_sorted x l :
  StronglySorted (may_precede cmp) l ->
  StronglySorted (may_precede cmp) (insert_sorted cmp x l).
Proof.
  induction 1 as [|y rest Hrest IH Hy]; simpl.
  - repeat constructor.
  - destruct (sorts_after cmp x y) eqn:Hxy.
    + constructor; [exact IH|].
      rewrite insert_sorted_Permutation. constructor; [|exact Hy].
      destruct (precede_total x y) as [H|H];
        [unfold may_precede in H; congruence | exact H].
    + constructor; [constructor; assumption|].
      constructor; [exact Hxy|].
      eapply Forall_impl; [|exact Hy]. intros z Hz.
      eapply precede_trans; eassumption.
Qed.

Lemma sort_by_sorted l : StronglySorted (may_precede cmp) (sort_by cmp l).
Proof.
  induction l as [|x rest IH]; simpl; [constructor|].
  apply insert_sorted_sorted, IH.
Qed.
End Sort_order.

(** Stability: the elements of a class of mutually unordered elements keep
    their order. *)
Lemma insert_sorted_stable {A} (cmp : A -> A -> option Z) (P : A -> bool) x l :
  (forall y, P x = true -> P y = true -> sorts_after cmp x y = false) ->
  List.filter P (insert_sorted cmp x l) = List.filter P (x :: l).
Proof.
  intros HP. induction l as [|y rest IH]; [reflexivity|].
  cbn [insert_sorted]. destruct (sorts_after cmp x y) eqn:Hxy; [|reflexivity].
  cbn [List.filter] in *. rewrite IH.
  destruct (P x) eqn:Hx, (P y) eqn:Hy; try reflexivity.
  rewrite (HP y eq_refl Hy) in Hxy. discriminate.
Qed.

Lemma sort_by_stable {A} (cmp : A -> A -> option Z) (P : A -> bool) l :
  (forall x y, P x = true -> P y = true -> sorts_after cmp x y = false) ->
  List.filter P (sort_by cmp l) = List.filter P l.
Proof.
  intros HP. induction l as [|x rest IH]; [reflexivity|].
  cbn [sort_by foldr]. fold (sort_by cmp rest).
  rewrite insert_sorted_stable by (intros; apply HP; assumption).
  cbn [List.filter]. rewrite IH. reflexivity.
Qed.

Section Sort_unique.
Context {A : Type} (cmp : A -> A -> option Z).
Hypothesis precede_trans :
  forall x y z, may_precede cmp x y -> may_precede cmp y z -> may_precede cmp x z.
Hypothesis precede_total :
  forall x y, may_precede cmp x y \/ may_precede cmp y x.

Lemma precede_refl x : may_precede cmp x x.
Proof. destruct (precede_total x x); assumption. Qed.

Lemma tied_spec x y :
  tied cmp x y = true <-> may_precede cmp x y /\ may_precede cmp y x.
Proof.
  unfold tied, may_precede. rewrite andb_true_iff, !negb_true_iff. reflexivity.
Qed.

Lemma sort_by_keeps_ties z l :
  List.filter (tied cmp z) (sort_by cmp l) = List.filter (tied cmp z) l.
Proof.
  apply sort_by_stable. intros x y [_ Hx]%tied_spec [Hy _]%tied_spec.
  eapply precede_trans; eassumption.
Qed.

(** Two sorted arrangements of the same elements that keep the order of
    tied elements alike are the same array. *)
Lemma sorted_stable_unique l1 l2 :
  StronglySorted (may_precede cmp) l1 -> StronglySorted (may_precede cmp) l2 ->
  Permutation l1 l2 ->
  (forall z, List.filter (tied cmp z) l1 = List.filter (tied cmp z) l2) ->
  l1 = l2.
Proof.
  revert l2. induction l1 as [|x1 l1 IH]; intros l2 Hs1 Hs2 Hperm Htie.
  - apply Permutation_nil in Hperm. congruence.
  - destruct l2 as [|x2 l2].
    { symmetry in Hperm. apply Permutation_nil in Hperm. discriminate. }
    apply StronglySorted_inv in Hs1 as [Hs1 Hmin1].
    apply StronglySorted_inv in Hs2 as [Hs2 Hmin2].
    assert (H12 : may_precede cmp x1 x2).
    { assert (Hin : In x2 (x1 :: l1)).
      { eapply Permutation_in; [symmetry; exact Hperm | left; reflexivity]. }
      destruct Hin as [->|Hin]; [apply precede_refl|].
      exact (proj1 (List.Forall_forall _ _) Hmin1 x2 Hin). }
    assert (H21 : may_precede cmp x2 x1).
    { assert (Hin : In x1 (x2 :: l2)).
      { eapply Permutation_in; [exact Hperm | left; reflexivity]. }
      destruct Hin as [->|Hin]; [apply precede_refl|].
      exact (proj1 (List.Forall_forall _ _) Hmin2 x1 Hin). }
    assert (Heq : x1 = x2).
    { pose proof (Htie x1) as H. cbn [List.filter] in H.
      rewrite (proj2 (tied_spec x1 x1)) in H by (split; apply precede_refl).
      rewrite (proj2 (tied_spec x1 x2)) in H by (split; assumption).
      congruence. }
    subst x2. f_equal. apply IH; try assumption.
    + eapply Permutation_cons_inv, Hperm.
    + intros z. pose proof (Htie z) as H. cbn [List.filter] in H.
      destruct (tied cmp z x1); congruence.
Qed.

(** The array [sort_by] returns is the only sorted arrangement that keeps
    tied elements in their order. *)
Lemma sort_by_unique l l' :
  Permutation l' l -> StronglySorted (may_precede cmp) l' ->
  (forall z, List.filter (tied cmp z) l' = List.filter (tied cmp z) l) ->
  l' = sort_by cmp l.
Proof.
  intros Hperm Hs Htie. apply sorted_stable_unique.
  - exact Hs.
  - apply sort_by_sorted; assumption.
  - rewrite Hperm, sort_by_Permutation. reflexivity.
  - intros z. rewrite Htie, sort_by_keeps_ties. reflexivity.
Qed.
End Sort_unique.

(** ** The feeds *)

Lemma by_created_precede a b :
  may_precede by_created a b <-> (created b <= created a)%Z.
Proof.
  unfold may_precede, sorts_after, by_created. rewrite Z.ltb_ge. lia.
Qed.

Lemma by_likes_precede a b :
  may_precede by_likes_then_created a b <->
  (like_count b < like_count a)%Z \/
  (like_count b = like_count a /\ (created b <= created a)%Z).
Proof.
  unfold may_precede, sorts_after, by_likes_then_created.
  destruct (Z.eqb_spec (like_count b) (like_count a)); simpl;
    rewrite Z.ltb_ge; lia.
Qed.

Lemma by_created_trans x y z :
  may_precede by_created x y -> may_precede by_created y z ->
  may_precede by_created x z.
Proof. rewrite !by_created_precede. lia. Qed.

Lemma by_created_total x y :
  may_precede by_created x y \/ may_precede by_created y x.
Proof. rewrite !by_created_precede. lia. Qed.

Lemma by_likes_trans x y z :
  may_precede by_likes_then_created x y -> may_precede by_likes_then_created y z ->
  may_precede by_likes_then_created x z.
Proof. rewrite !by_likes_precede. lia. Qed.

Lemma by_likes_total x y :
  may_precede by_likes_then_created x y \/ may_precede by_likes_then_created y x.
Proof. rewrite !by_likes_precede. lia. Qed.

Lemma newest_first_by_created a b :
  timestamped a -> timestamped b -> newest_first a b = by_created a b.
Proof.
  intros [n Hn] [m Hm]. unfold newest_first, by_created, created.
  rewrite Hn, Hm. reflexivity.
Qed.

Lemma most_liked_by_likes a b :
  canonical_post a -> canonical_post b -> timestamped a -> timestamped b ->
  most_liked a b = by_likes_then_created a b.
Proof.
  intros (Ha & _) (Hb & _) [n Hn] [m Hm].
  unfold most_liked, by_likes_then_created, like_count, created, or_zero.
  destruct (likes a) as [| | |la| | |]; try discriminate.
  destruct (likes b) as [| | |lb| | |]; try discriminate.
  rewrite Hn, Hm. simpl.
  destruct (Z.eqb_spec la 0), (Z.eqb_spec lb 0); subst; reflexivity.
Qed.

Lemma backfill_post_timestamped p : timestamped p -> timestamped (backfill_post p).
Proof.
  intros [n Hn]. exists n. destruct p as [i t c f a ca l lb cs]; simpl in *.
  subst. post_cases l lb cs; reflexivity.
Qed.

Lemma StronglySorted_iff {A} (R R' : A -> A -> Prop) l :
  (forall a b, R a b <-> R' a b) ->
  StronglySorted R l -> StronglySorted R' l.
Proof.
  intros HR. induction 1 as [|x rest Hrest IH Hx]; constructor; [exact IH|].
  eapply Forall_impl; [|exact Hx]. intros y. apply HR.
Qed.

Lemma tied_by_created z p : tied by_created z p = same_created (created z) p.
Proof.
  unfold tied, sorts_after, by_created, same_created.
  destruct (Z.ltb_spec 0 (created p - created z)),
    (Z.ltb_spec 0 (created z - created p)), (Z.eqb_spec (created p) (created z));
    simpl; try reflexivity; lia.
Qed.

Lemma tied_by_likes z p :
  tied by_likes_then_created z p = same_rank (like_count z) (created z) p.
Proof.
  unfold tied, sorts_after, by_likes_then_created, same_rank.
  destruct (Z.eqb_spec (like_count p) (like_count z)) as [->|Hne].
  - rewrite Z.eqb_refl. simpl.
    destruct (Z.ltb_spec 0 (created p - created z)),
      (Z.ltb_spec 0 (created z - created p)), (Z.eqb_spec (created p) (created z));
      simpl; try reflexivity; lia.
  - destruct (Z.eqb_spec (like_count z) (like_count p)); [congruence|]. simpl.
    destruct (Z.ltb_spec 0 (like_count p - like_count z)),
      (Z.ltb_spec 0 (like_count z - like_count p)); simpl; try reflexivity; lia.
Qed.

Lemma feed_route_run cmp cmp' q raw w :
  posts_file w = Text_json raw ->
  (forall a b, a ∈ map backfill_post raw -> b ∈ map backfill_post raw ->
               cmp a b = cmp' a b) ->
  (let* raw := loadPosts in
   let* posts := normalisePosts raw in
   ret (feed_page (sort_by cmp posts) q)) w
  = Done (feed_page (sort_by cmp' (map backfill_post raw)) q) w.
Proof.
  intros Hf Hcmp. rewrite (load_normalise_posts raw w _ Hf). unfold ret.
  rewrite (sort_by_ext cmp cmp'); [reflexivity|].
  intros x y Hx Hy. unfold sorts_after. rewrite Hcmp by assumption. reflexivity.
Qed.

Lemma elem_of_backfilled raw p :
  Forall timestamped raw -> p ∈ map backfill_post raw ->
  canonical_post p /\ timestamped p.
Proof.
  intros Hts Hp. change (map backfill_post raw) with (backfill_post <$> raw) in Hp.
  apply list_elem_of_fmap in Hp as (q & -> & Hq).
  split; [apply backfill_post_makes_canonical|].
  apply backfill_post_timestamped.
  exact (proj1 (list.Forall_forall _ _) Hts q Hq).
Qed.

(** X1: when every post has a numeric [createdAt], the home feed writes
    nothing and pages through the normalised posts arranged newest first,
    posts of the same instant in file order; this arrangement is the only
    one with these two properties, whatever sorting algorithm produces
    it. *)
Theorem home_feed_newest_first (q : option Z) (raw : list post) (w : world) :
  posts_file w = Text_json raw ->
  Forall timestamped raw ->
  let posts := map backfill_post raw in
  exists sorted,
    home_route q w = Done (feed_page sorted q) w /\
    Permutation sorted posts /\
    StronglySorted newer_or_same sorted /\
    (forall t, List.filter (same_created t) sorted = List.filter (same_created t) posts) /\
    (forall l',
       Permutation l' posts -> StronglySorted newer_or_same l' ->
       (forall t, List.filter (same_created t) l' = List.filter (same_created t) posts) ->
       l' = sorted).
Proof.
  intros Hf Hts posts.
  assert (Hstable : forall t, List.filter (same_created t) (sort_by by_created posts)
                              = List.filter (same_created t) posts).
  { intros t. apply sort_by_stable. intros x y Hx Hy.
    unfold same_created in Hx, Hy. apply Z.eqb_eq in Hx, Hy.
    apply by_created_precede. lia. }
  exists (sort_by by_created posts). split; [|split; [|split; [|split]]].
  - unfold home_route. apply feed_route_run; [exact Hf|].
    intros a b Ha Hb. apply newest_first_by_created.
    + apply (elem_of_backfilled raw a Hts Ha).
    + apply (elem_of_backfilled raw b Hts Hb).
  - apply sort_by_Permutation.
  - eapply StronglySorted_iff; [apply by_created_precede|].
    apply sort_by_sorted; [apply by_created_trans | apply by_created_total].
  - exact Hstable.
  - intros l' Hperm Hsorted Hties.
    apply sort_by_unique; [apply by_created_trans | apply by_created_total | exact Hperm | |].
    + eapply StronglySorted_iff; [|exact Hsorted].
      intros a b. symmetry. apply by_created_precede.
    + intros z. rewrite !(filter_ext _ _ (tied_by_created z)). apply Hties.
Qed.

Lemma home_feed_newest_first_witness :
  let w := World (Text_json []) (Text_json sample_feed) [] in
  home_route (Some 1%Z) w
    = Done (Page_view [liked_post; other_post; twin_a; twin_b] 1 1) w.
Proof.
  intros w.
  assert (Hts : Forall timestamped sample_feed).
  { repeat constructor; eexists; reflexivity. }
  destruct (home_feed_newest_first (Some 1%Z) sample_feed w eq_refl Hts)
    as (sorted & Hrun & _ & _ & _ & Huniq).
  rewrite Hrun. f_equal.
  rewrite <- (Huniq (sort_by by_created (map backfill_post sample_feed))).
  - reflexivity.
  - apply sort_by_Permutation.
  - eapply StronglySorted_iff; [apply by_created_precede|].
    apply sort_by_sorted; [apply by_created_trans | apply by_created_total].
  - intros t. apply sort_by_stable. intros x y Hx Hy.
    unfold same_created in Hx, Hy. apply Z.eqb_eq in Hx, Hy.
    apply by_created_precede. lia.
Defined.

(** X2: when every post has a numeric [createdAt], the top feed writes
    nothing and pages through the normalised posts arranged by falling
    [likes], by falling [createdAt] among equally liked posts, and in file
    order among posts equal in both; this arrangement is the only one with
    these properties. *)
Theorem top_feed_most_liked_first (q : option Z) (raw : list post) (w : world) :
  posts_file w = Text_json raw ->
  Forall timestamped raw ->
  let posts := map backfill_post raw in
  exists sorted,
    top_route q w = Done (feed_page sorted q) w /\
    Permutation sorted posts /\
    StronglySorted more_liked_or_newer sorted /\
    (forall l t, List.filter (same_rank l t) sorted = List.filter (same_rank l t) posts) /\
    (forall l',
       Permutation l' posts -> StronglySorted more_liked_or_newer l' ->
       (forall l t, List.filter (same_rank l t) l' = List.filter (same_rank l t) posts) ->
       l' = sorted).
Proof.
  intros Hf Hts posts.
  assert (Hstable : forall l t,
            List.filter (same_rank l t) (sort_by by_likes_then_created posts)
            = List.filter (same_rank l t) posts).
  { intros l t. apply sort_by_stable. intros x y Hx Hy.
    unfold same_rank in Hx, Hy. apply andb_true_iff in Hx as [Hx1 Hx2].
    apply andb_true_iff in Hy as [Hy1 Hy2].
    apply Z.eqb_eq in Hx1, Hx2, Hy1, Hy2.
    apply by_likes_precede. lia. }
  exists (sort_by by_likes_then_created posts). split; [|split; [|split; [|split]]].
  - unfold top_route. apply feed_route_run; [exact Hf|].
    intros a b Ha Hb.
    destruct (elem_of_backfilled raw a Hts Ha), (elem_of_backfilled raw b Hts Hb).
    apply most_liked_by_likes; assumption.
  - apply sort_by_Permutation.
  - eapply StronglySorted_iff; [apply by_likes_precede|].
    apply sort_by_sorted; [apply by_likes_trans | apply by_likes_total].
  - exact Hstable.
  - intros l' Hperm Hsorted Hties.
    apply sort_by_unique; [apply by_likes_trans | apply by_likes_total | exact Hperm | |].
    + eapply StronglySorted_iff; [|exact Hsorted].
      intros a b. symmetry. apply by_likes_precede.
    + intros z. rewrite !(filter_ext _ _ (tied_by_likes z)). apply Hties.
Qed.

Lemma top_feed_most_liked_first_witness :
  let w := World (Text_json []) (Text_json sample_feed) [] in
  exists sorted,
    top_route None w = Done (feed_page sorted None) w /\
    Permutation sorted sample_feed /\
    StronglySorted more_liked_or_newer sorted.
Proof.
  intros w.
  assert (Hts : Forall timestamped sample_feed).
  { repeat constructor; eexists; reflexivity. }
  destruct (top_feed_most_liked_first None sample_feed w eq_refl Hts)
    as (sorted & Hrun & Hperm & Hsorted & _).
  exists sorted. split; [exact Hrun|]. split; [exact Hperm | exact Hsorted].
Defined.

(** ** The pages of a feed, taken together *)

Lemma concat_chunks {A} (s : nat) (l : list A) (n : nat) :
  concat (map (fun k => take s (drop (k * s) l)) (seq 0 n)) = take (n * s) l.
Proof.
  induction n as [|n IH]; [reflexivity|].
  rewrite seq_S, map_app, concat_app, IH. cbn [map concat].
  rewrite app_nil_r, take_take_drop. f_equal. lia.
Qed.

Lemma paginate_nth_page (S : Z) (posts : list post) (k : nat) :
  (0 < S)%Z ->
  (Z.of_nat k < totalPages (paginate S posts None))%Z ->
  page (paginate S posts (Some (Z.of_nat (Datatypes.S k)))) = Z.of_nat (Datatypes.S k) /\
  pagePosts (paginate S posts (Some (Z.of_nat (Datatypes.S k))))
    = take (Z.to_nat S) (drop (k * Z.to_nat S) posts).
Proof.
  intros HS Hk. rewrite !paginate_fields in *. cbn [page pagePosts totalPages] in *.
  set (tp := Z.max 1 (ceil_div (Z.of_nat (length posts)) S)) in *.
  assert (Hpg : Z.min (Z.max 1 (default 1%Z (Some (Z.of_nat (Datatypes.S k))))) tp
                = Z.of_nat (Datatypes.S k)) by (simpl; lia).
  rewrite Hpg. split; [reflexivity|]. unfold slice. f_equal; [f_equal; lia|].
  f_equal. nia.
Qed.

(** X3: for a page size [S > 0] the pages [1 .. totalPages] of an array,
    one after the other, are the array: every post is on exactly one page,
    in order; every page but the last holds exactly [S] posts and the last
    holds at most [S]. *)
Theorem pages_cover_the_collection (S : Z) (posts : list post) :
  (0 < S)%Z ->
  let last := Z.to_nat (totalPages (paginate S posts None)) in
  concat (pages_upto S posts last) = posts /\
  (forall k pg, pages_upto S posts last !! k = Some pg ->
     (Z.of_nat (length pg) <= S)%Z /\
     (Datatypes.S k < last -> Z.of_nat (length pg) = S)).
Proof.
  intros HS last.
  assert (Hpages : pages_upto S posts last
                   = map (fun k => take (Z.to_nat S) (drop (k * Z.to_nat S) posts))
                         (seq 0 last)).
  { unfold pages_upto. apply map_ext_in. intros k Hk%in_seq.
    apply paginate_nth_page; [exact HS|]. unfold last in Hk. lia. }
  assert (Hlast : (Z.of_nat (length posts) <= Z.of_nat last * S)%Z).
  { unfold last. rewrite paginate_fields. cbn [totalPages].
    pose proof (ceil_div_bounds (Z.of_nat (length posts)) S HS). nia. }
  assert (Hfull : forall k, Datatypes.S k < last ->
            (Z.of_nat (Datatypes.S k) * S <= Z.of_nat (length posts))%Z).
  { unfold last. rewrite paginate_fields. cbn [totalPages].
    pose proof (ceil_div_bounds (Z.of_nat (length posts)) S HS).
    intros k Hk. nia. }
  split.
  - rewrite Hpages, concat_chunks. apply take_ge. nia.
  - intros k pg. rewrite Hpages.
    change (map ?f (seq 0 last)) with (f <$> seq 0 last).
    rewrite list_lookup_fmap. intros Hk.
    destruct (seq 0 last !! k) as [k'|] eqn:Hseq; [|discriminate].
    apply lookup_seq in Hseq as [-> Hlt]. simpl in Hk. injection Hk as <-.
    rewrite length_take, length_drop. split; [lia|].
    intros Hnl. specialize (Hfull k Hnl). nia.
Qed.

Lemma pages_cover_the_collection_witness :
  concat (pages_upto POSTS_PER_PAGE
            [twin_a; liked_post; other_post; twin_b; twin_a; twin_b; other_post] 2)
  = [twin_a; liked_post; other_post; twin_b; twin_a; twin_b; other_post].
Proof.
  apply (pages_cover_the_collection POSTS_PER_PAGE
           [twin_a; liked_post; other_post; twin_b; twin_a; twin_b; other_post]).
  reflexivity.
Defined.

(** ** Following and unfollowing, step by step *)

Lemma backfill_user_arrays now u c :
  exists xs ys,
    followers (fst (backfill_user now u c)) = VArr xs /\
    following (fst (backfill_user now u c)) = VArr ys.
Proof.
  destruct u as [n e p j a b fr fg].
  backfill_cases j a b fr fg;
    try (destruct fr; try discriminate); try (destruct fg; try discriminate);
    eauto.
Qed.

Lemma normalised_users_arrays now users u :
  u ∈ normalised_users now users ->
  exists xs ys, followers u = VArr xs /\ following u = VArr ys.
Proof.
  unfold normalised_users. change (map ?f users) with (f <$> users).
  intros (v & -> & _)%list_elem_of_fmap. apply backfill_user_arrays.
Qed.

Lemma found_user_arrays now users name i u :
  find_user name (normalised_users now users) = Some (i, u) ->
  exists xs ys, followers u = VArr xs /\ following u = VArr ys.
Proof.
  intros (Hi & _)%find_user_Some.
  eapply normalised_users_arrays, list_elem_of_lookup_2, Hi.
Qed.

(** The outcome of a follow between two users of the collection. *)
Lemma follow_route_run now sess m t raw w i j me target xs ys :
  users_file w = Text_json raw -> logged_in sess = Some m -> m <> t ->
  find_user m (normalised_users now raw) = Some (i, me) ->
  find_user t (normalised_users now raw) = Some (j, target) ->
  following me = VArr xs -> followers target = VArr ys ->
  follow_route now sess t w =
    Done (Redirect ("/user/" ++ t)%string)
         (World (Text_json
                   (<[j := if includes ys m then target
                           else set_followers (VArr (ys ++ [VStr m])) target]>
                      (<[i := if includes xs t then me
                              else set_following (VArr (xs ++ [VStr t])) me]>
                         (normalised_users now raw))))
                (posts_file w)
                (writes (after_normalise now raw w) ++ [USERS_FILE])).
Proof.
  intros Hf Hs Hne Hme Htg Hxs Hys. unfold follow_route. rewrite Hs.
  destruct (String.eqb_spec t m) as [->|_]; [contradiction|].
  rewrite (load_normalise_users now raw w _ Hf), Hme, Htg.
  unfold push_following, push_follower, bind. rewrite Hxs, Hys. simpl.
  rewrite after_normalise_posts_file. reflexivity.
Qed.

Lemma unfollow_route_run now sess m t raw w i j me target xs ys :
  users_file w = Text_json raw -> logged_in sess = Some m -> m <> t ->
  find_user m (normalised_users now raw) = Some (i, me) ->
  find_user t (normalised_users now raw) = Some (j, target) ->
  following me = VArr xs -> followers target = VArr ys ->
  unfollow_route now sess t w =
    Done (Redirect ("/user/" ++ t)%string)
         (World (Text_json
                   (<[j := set_followers (VArr (filter_ne ys m)) target]>
                      (<[i := set_following (VArr (filter_ne xs t)) me]>
                         (normalised_users now raw))))
                (posts_file w)
                (writes (after_normalise now raw w) ++ [USERS_FILE])).
Proof.
  intros Hf Hs Hne Hme Htg Hxs Hys. unfold unfollow_route. rewrite Hs.
  destruct (String.eqb_spec t m) as [->|_]; [contradiction|].
  rewrite (load_normalise_users now raw w _ Hf), Hme, Htg.
  unfold drop_following, drop_follower, bind. rewrite Hxs, Hys. simpl.
  rewrite after_normalise_posts_file. reflexivity.
Qed.

Lemma set_following_same u xs : following u = VArr xs -> set_following (VArr xs) u = u.
Proof. destruct u; simpl. intros ->. reflexivity. Qed.

Lemma set_followers_same u xs : followers u = VArr xs -> set_followers (VArr xs) u = u.
Proof. destruct u; simpl. intros ->. reflexivity. Qed.

Lemma filter_ne_absent xs s : VStr s ∉ xs -> filter_ne xs s = xs.
Proof.
  intros Hnot. unfold filter_ne. induction xs as [|v rest IH]; [reflexivity|].
  simpl. destruct (strict_eq_str v s) eqn:Hv.
  - apply strict_eq_str_true in Hv. subst v. exfalso. apply Hnot. left.
  - simpl. f_equal. apply IH. intros Hin. apply Hnot. right. exact Hin.
Qed.

Lemma filter_ne_push xs s : VStr s ∉ xs -> filter_ne (xs ++ [VStr s]) s = xs.
Proof.
  intros Hnot. unfold filter_ne. rewrite filter_app. simpl.
  rewrite String.eqb_refl. simpl.
  rewrite app_nil_r. apply filter_ne_absent, Hnot.
Qed.

Lemma includes_false xs s : includes xs s = false <-> VStr s ∉ xs.
Proof.
  rewrite <- includes_true. destruct (includes xs s); split; congruence.
Qed.

(** X4: a follow between two different users of the collection saves the
    collection with the target's name in the follower's [following] and
    the follower's name in the target's [followers]; an entry already
    there is not added again, entries are only ever appended, and no other
    field and no other record is changed. *)
Theorem follow_adds_both_sides (now : Z) (sess : option string) (m t : string)
    (raw : list user) (w : world) (i j : nat) (me target : user) :
  users_file w = Text_json raw -> logged_in sess = Some m -> m <> t ->
  find_user m (normalised_users now raw) = Some (i, me) ->
  find_user t (normalised_users now raw) = Some (j, target) ->
  exists xs ys xs' ys',
    following me = VArr xs /\ followers target = VArr ys /\
    follow_route now sess t w =
      Done (Redirect ("/user/" ++ t)%string)
           (World (Text_json (<[j := set_followers (VArr ys') target]>
                                (<[i := set_following (VArr xs') me]>
                                   (normalised_users now raw))))
                  (posts_file w)
                  (writes (after_normalise now raw w) ++ [USERS_FILE])) /\
    VStr t ∈ xs' /\ VStr m ∈ ys' /\
    (xs' = xs \/ ((VStr t ∉ xs) /\ xs' = xs ++ [VStr t])) /\
    (ys' = ys \/ ((VStr m ∉ ys) /\ ys' = ys ++ [VStr m])) /\
    (NoDup xs -> NoDup xs') /\ (NoDup ys -> NoDup ys').
Proof.
  intros Hf Hs Hne Hme Htg.
  destruct (found_user_arrays _ _ _ _ _ Hme) as (xs0 & xs & _ & Hxs).
  destruct (found_user_arrays _ _ _ _ _ Htg) as (ys & ys0 & Hys & _).
  exists xs, ys,
    (if includes xs t then xs else xs ++ [VStr t]),
    (if includes ys m then ys else ys ++ [VStr m]).
  split; [exact Hxs|]. split; [exact Hys|]. split.
  { rewrite (follow_route_run now sess m t raw w i j me target xs ys) by assumption.
    assert (E1 : (if includes xs t then me
                  else set_following (VArr (xs ++ [VStr t])) me)
                 = set_following (VArr (if includes xs t then xs else xs ++ [VStr t])) me)
      by (destruct (includes xs t);
            [symmetry; apply set_following_same, Hxs | reflexivity]).
    assert (E2 : (if includes ys m then target
                  else set_followers (VArr (ys ++ [VStr m])) target)
                 = set_followers (VArr (if includes ys m then ys else ys ++ [VStr m])) target)
      by (destruct (includes ys m);
            [symmetry; apply set_followers_same, Hys | reflexivity]).
    rewrite E1, E2. reflexivity. }
  assert (Hpush : forall zs s,
    let zs' := if includes zs s then zs else zs ++ [VStr s] in
    VStr s ∈ zs' /\ (zs' = zs \/ ((VStr s ∉ zs) /\ zs' = zs ++ [VStr s])) /\
    (NoDup zs -> NoDup zs')).
  { intros zs s. simpl. destruct (includes zs s) eqn:Hinc.
    - apply includes_true in Hinc. auto.
    - apply includes_false in Hinc. split; [apply elem_of_app; right; left|].
      split; [auto|]. intros Hnd. apply list.NoDup_app. split; [exact Hnd|].
      split; [|apply NoDup_singleton].
      intros x Hx ->%list_elem_of_singleton. exact (Hinc Hx). }
  destruct (Hpush xs t) as (H1 & H2 & H3). destruct (Hpush ys m) as (H4 & H5 & H6).
  auto 10.
Qed.

Lemma follow_adds_both_sides_witness :
  let w := World (Text_json [alice; bob_banned]) (Text_json []) [] in
  follow_route 5 (Some "bob") "alice" w
  = Done (Redirect "/user/alice")
         (World (Text_json [set_followers (VArr [VStr "bob"]) alice;
                            set_following (VArr [VStr "alice"]) bob_banned])
                (Text_json []) [USERS_FILE]).
Proof.
  intros w.
  destruct (follow_adds_both_sides 5 (Some "bob") "bob" "alice" [alice; bob_banned] w
              1 0 bob_banned alice eq_refl eq_refl ltac:(discriminate) eq_refl eq_refl)
    as (xs & ys & xs' & ys' & Hxs & Hys & Hrun & Hinx & Hiny & Hx & Hy & _).
  injection Hxs as <-. injection Hys as <-. rewrite Hrun.
  destruct Hx as [->|[_ ->]]; [apply elem_of_nil in Hinx; contradiction|].
  destruct Hy as [->|[_ ->]]; [apply elem_of_nil in Hiny; contradiction|].
  reflexivity.
Defined.

Lemma find_user_intro name users i u :
  users !! i = Some u -> username u = VStr name ->
  (forall j v, users !! j = Some v -> j < i -> username v <> VStr name) ->
  find_user name users = Some (i, u).
Proof.
  intros Hi Hu Hleast. unfold find_user. apply list_find_Some.
  split; [exact Hi|]. split; [apply strict_eq_str_Is_true, Hu|].
  intros j v Hj Hlt Hv%strict_eq_str_Is_true. exact (Hleast j v Hj Hlt Hv).
Qed.

(** Replacing a record by one of the same name does not move what [find]
    finds. *)
Lemma find_user_insert name users i u u' k v :
  users !! i = Some u -> username u' = username u ->
  find_user name users = Some (k, v) ->
  find_user name (<[i := u']> users) = Some (k, if decide (k = i) then u' else v).
Proof.
  intros Hi Hu (Hk & Hv & Hleast)%find_user_Some. apply find_user_intro.
  - destruct (decide (k = i)) as [->|Hne].
    + apply list_lookup_insert_eq. eapply lookup_lt_Some, Hi.
    + rewrite list_lookup_insert_ne by congruence. exact Hk.
  - destruct (decide (k = i)) as [->|Hne]; [|exact Hv].
    rewrite Hu. congruence.
  - intros j y Hj Hlt. destruct (decide (j = i)) as [->|Hne].
    + rewrite list_lookup_insert_eq in Hj by (eapply lookup_lt_Some, Hi).
      injection Hj as <-. rewrite Hu. eapply Hleast; eassumption.
    + rewrite list_lookup_insert_ne in Hj by congruence.
      eapply Hleast; eassumption.
Qed.

Lemma canonical_set_following u xs :
  canonical_user u -> canonical_user (set_following (VArr xs) u).
Proof. unfold canonical_user. simpl. tauto. Qed.

Lemma canonical_set_followers u xs :
  canonical_user u -> canonical_user (set_followers (VArr xs) u).
Proof. unfold canonical_user. simpl. tauto. Qed.

Lemma canonical_lookup users i u :
  Forall canonical_user users -> users !! i = Some u -> canonical_user u.
Proof.
  intros Hc Hi. eapply (proj1 (list.Forall_forall _ _) Hc), list_elem_of_lookup_2, Hi.
Qed.

(** The two records a follow or an unfollow has replaced, found again. *)
Lemma find_after_update m t users i j me target me' target' :
  m <> t ->
  find_user m users = Some (i, me) -> find_user t users = Some (j, target) ->
  username me' = username me -> username target' = username target ->
  let users' := <[j := target']> (<[i := me']> users) in
  i <> j /\
  find_user m users' = Some (i, me') /\ find_user t users' = Some (j, target') /\
  users' !! i = Some me' /\ users' !! j = Some target'.
Proof.
  intros Hne Hme Htg Hm' Ht' users'.
  pose proof (find_user_Some _ _ _ _ Hme) as (Hi & Hm & _).
  pose proof (find_user_Some _ _ _ _ Htg) as (Hj & Ht & _).
  assert (Hij : i <> j) by (intros ->; congruence).
  assert (Hj1 : <[i := me']> users !! j = Some target)
    by (rewrite list_lookup_insert_ne by exact Hij; exact Hj).
  pose proof (find_user_insert m users i me me' i me Hi Hm' Hme) as Hme1.
  pose proof (find_user_insert t users i me me' j target Hi Hm' Htg) as Htg1.
  rewrite decide_True in Hme1 by reflexivity.
  rewrite decide_False in Htg1 by congruence.
  pose proof (find_user_insert m _ j target target' i me' Hj1 Ht' Hme1) as Hme2.
  pose proof (find_user_insert t _ j target target' j target Hj1 Ht' Htg1) as Htg2.
  rewrite decide_False in Hme2 by congruence.
  rewrite decide_True in Htg2 by reflexivity.
  split; [exact Hij|]. split; [exact Hme2|]. split; [exact Htg2|].
  apply find_user_Some in Hme2 as (H1 & _). apply find_user_Some in Htg2 as (H2 & _).
  split; assumption.
Qed.

(** X5: on a collection in canonical shape, following the same user a
    second time saves the collection the first follow saved: a follow is
    idempotent on the records, while each of the two performs a write. *)
Theorem follow_twice_is_once (now now' : Z) (sess : option string) (m t : string)
    (users : list user) (w : world) (i j : nat) (me target : user) :
  users_file w = Text_json users -> Forall canonical_user users ->
  logged_in sess = Some m -> m <> t ->
  find_user m users = Some (i, me) -> find_user t users = Some (j, target) ->
  exists users',
    let w1 := World (Text_json users') (posts_file w) (writes w ++ [USERS_FILE]) in
    let w2 := World (Text_json users') (posts_file w)
                    (writes w ++ [USERS_FILE; USERS_FILE]) in
    follow_route now sess t w = Done (Redirect ("/user/" ++ t)%string) w1 /\
    follow_route now' sess t w1 = Done (Redirect ("/user/" ++ t)%string) w2 /\
    length users' = length users.
Proof.
  intros Hf Hc Hs Hne Hme Htg.
  pose proof (normalised_users_canonical now users Hc) as Hn.
  pose proof (after_normalise_canonical now users w Hc) as Hw.
  rewrite <- Hn in Hme, Htg.
  destruct (found_user_arrays _ _ _ _ _ Hme) as (xs0 & xs & _ & Hxs).
  destruct (found_user_arrays _ _ _ _ _ Htg) as (ys & ys0 & Hys & _).
  pose proof (follow_route_run now sess m t users w i j me target xs ys
                Hf Hs Hne Hme Htg Hxs Hys) as Hrun1.
  rewrite Hn, Hw in Hrun1. rewrite Hn in Hme, Htg.
  set (me' := if includes xs t then me
              else set_following (VArr (xs ++ [VStr t])) me) in *.
  set (target' := if includes ys m then target
                  else set_followers (VArr (ys ++ [VStr m])) target) in *.
  set (users' := <[j := target']> (<[i := me']> users)) in *.
  assert (Hm' : username me' = username me)
    by (unfold me'; destruct (includes xs t); reflexivity).
  assert (Ht' : username target' = username target)
    by (unfold target'; destruct (includes ys m); reflexivity).
  destruct (find_after_update m t users i j me target me' target' Hne Hme Htg Hm' Ht')
    as (Hij & Hme' & Htg' & Hi' & Hj').
  fold users' in Hme', Htg', Hi', Hj'.
  assert (Hc' : Forall canonical_user users').
  { pose proof (find_user_Some _ _ _ _ Hme) as (Hi & _).
    pose proof (find_user_Some _ _ _ _ Htg) as (Hj & _).
    unfold users'. apply Forall_insert; [apply Forall_insert; [exact Hc|]|].
    - unfold me'. destruct (includes xs t);
        [|apply canonical_set_following]; eapply canonical_lookup; eassumption.
    - unfold target'. destruct (includes ys m);
        [|apply canonical_set_followers]; eapply canonical_lookup; eassumption. }
  assert (Hxs' : exists xs', following me' = VArr xs' /\ includes xs' t = true).
  { unfold me'. destruct (includes xs t) eqn:Hinc; [eauto|].
    eexists. split; [reflexivity|]. apply includes_true, elem_of_app. right. left. }
  assert (Hys' : exists ys', followers target' = VArr ys' /\ includes ys' m = true).
  { unfold target'. destruct (includes ys m) eqn:Hinc; [eauto|].
    eexists. split; [reflexivity|]. apply includes_true, elem_of_app. right. left. }
  destruct Hxs' as (xs' & Hxs' & Hin1). destruct Hys' as (ys' & Hys' & Hin2).
  exists users'. split; [exact Hrun1|]. split.
  - pose proof (normalised_users_canonical now' users' Hc') as Hn'.
    rewrite <- Hn' in Hme', Htg'.
    rewrite (follow_route_run now' sess m t users'
               (World (Text_json users') (posts_file w) (writes w ++ [USERS_FILE]))
               i j me' target' xs' ys' eq_refl Hs Hne Hme' Htg' Hxs' Hys').
    rewrite Hn', Hin1, Hin2, (after_normalise_canonical now' users' _ Hc').
    cbn [posts_file writes].
    rewrite (list_insert_id users' i me' Hi'), (list_insert_id users' j target' Hj').
    rewrite <- app_assoc. reflexivity.
  - unfold users'. rewrite !length_insert. reflexivity.
Qed.

Lemma follow_twice_is_once_witness :
  let w := World (Text_json [alice; bob_banned]) (Text_json []) [] in
  exists users',
    follow_route 5 (Some "bob") "alice" w
      = Done (Redirect "/user/alice")
             (World (Text_json users') (Text_json []) [USERS_FILE]) /\
    follow_route 6 (Some "bob") "alice"
        (World (Text_json users') (Text_json []) [USERS_FILE])
      = Done (Redirect "/user/alice")
             (World (Text_json users') (Text_json []) [USERS_FILE; USERS_FILE]).
Proof.
  intros w.
  assert (Hc : Forall canonical_user [alice; bob_banned]).
  { repeat constructor. }
  destruct (follow_twice_is_once 5 6 (Some "bob") "bob" "alice" [alice; bob_banned] w
              1 0 bob_banned alice eq_refl Hc eq_refl ltac:(discriminate)
              eq_refl eq_refl)
    as (users' & H1 & H2 & _).
  exists users'. split; [exact H1 | exact H2].
Defined.

Lemma filter_ne_sublist xs s : sublist (filter_ne xs s) xs.
Proof.
  unfold filter_ne. induction xs as [|v rest IH]; simpl; [constructor|].
  destruct (negb (strict_eq_str v s)); [apply sublist_skip | apply sublist_cons];
    exact IH.
Qed.

(** X6: an unfollow between two different users of the collection saves
    the collection with every occurrence of the target's name filtered out
    of the follower's [following] and every occurrence of the follower's
    name filtered out of the target's [followers]; the other entries keep
    their order, and no other field and no other record is changed. *)
Theorem unfollow_removes_both_sides (now : Z) (sess : option string) (m t : string)
    (raw : list user) (w : world) (i j : nat) (me target : user) :
  users_file w = Text_json raw -> logged_in sess = Some m -> m <> t ->
  find_user m (normalised_users now raw) = Some (i, me) ->
  find_user t (normalised_users now raw) = Some (j, target) ->
  exists xs ys,
    following me = VArr xs /\ followers target = VArr ys /\
    unfollow_route now sess t w =
      Done (Redirect ("/user/" ++ t)%string)
           (World (Text_json (<[j := set_followers (VArr (filter_ne ys m)) target]>
                                (<[i := set_following (VArr (filter_ne xs t)) me]>
                                   (normalised_users now raw))))
                  (posts_file w)
                  (writes (after_normalise now raw w) ++ [USERS_FILE])) /\
    (forall v, v ∈ filter_ne xs t <-> v ∈ xs /\ v <> VStr t) /\
    (forall v, v ∈ filter_ne ys m <-> v ∈ ys /\ v <> VStr m) /\
    sublist (filter_ne xs t) xs /\ sublist (filter_ne ys m) ys.
Proof.
  intros Hf Hs Hne Hme Htg.
  destruct (found_user_arrays _ _ _ _ _ Hme) as (xs0 & xs & _ & Hxs).
  destruct (found_user_arrays _ _ _ _ _ Htg) as (ys & ys0 & Hys & _).
  exists xs, ys. split; [exact Hxs|]. split; [exact Hys|].
  split; [apply unfollow_route_run; assumption|].
  split; [intros v; apply elem_of_filter_ne|].
  split; [intros v; apply elem_of_filter_ne|].
  split; apply filter_ne_sublist.
Qed.

Lemma unfollow_removes_both_sides_witness :
  let bob := set_following (VArr [VStr "carol"; VStr "alice"]) bob_banned in
  let ali := set_followers (VArr [VStr "bob"]) alice in
  let w := World (Text_json [ali; bob]) (Text_json []) [] in
  unfollow_route 5 (Some "bob") "alice" w
  = Done (Redirect "/user/alice")
         (World (Text_json [alice; set_following (VArr [VStr "carol"]) bob_banned])
                (Text_json []) [USERS_FILE]).
Proof.
  intros bob ali w.
  destruct (unfollow_removes_both_sides 5 (Some "bob") "bob" "alice" [ali; bob] w
              1 0 bob ali eq_refl eq_refl ltac:(discriminate) eq_refl eq_refl)
    as (xs & ys & Hxs & Hys & Hrun & _).
  injection Hxs as <-. injection Hys as <-. exact Hrun.
Defined.

(** X7: on a collection in canonical shape in which the follower does not
    follow the target on either side, a follow and then an unfollow save,
    in the end, the collection as it was. *)
Theorem follow_then_unfollow_restores (now now' : Z) (sess : option string)
    (m t : string) (users : list user) (w : world) (i j : nat) (me target : user) :
  users_file w = Text_json users -> Forall canonical_user users ->
  logged_in sess = Some m -> m <> t ->
  find_user m users = Some (i, me) -> find_user t users = Some (j, target) ->
  ~ follows me t -> ~ followed_by target m ->
  exists users',
    let w1 := World (Text_json users') (posts_file w) (writes w ++ [USERS_FILE]) in
    let w2 := World (Text_json users) (posts_file w)
                    (writes w ++ [USERS_FILE; USERS_FILE]) in
    follow_route now sess t w = Done (Redirect ("/user/" ++ t)%string) w1 /\
    unfollow_route now' sess t w1 = Done (Redirect ("/user/" ++ t)%string) w2.
Proof.
  intros Hf Hc Hs Hne Hme Htg Hnf Hnb.
  pose proof (normalised_users_canonical now users Hc) as Hn.
  pose proof (after_normalise_canonical now users w Hc) as Hw.
  rewrite <- Hn in Hme, Htg.
  destruct (found_user_arrays _ _ _ _ _ Hme) as (xs0 & xs & _ & Hxs).
  destruct (found_user_arrays _ _ _ _ _ Htg) as (ys & ys0 & Hys & _).
  pose proof (follow_route_run now sess m t users w i j me target xs ys
                Hf Hs Hne Hme Htg Hxs Hys) as Hrun1.
  rewrite Hn, Hw in Hrun1. rewrite Hn in Hme, Htg.
  unfold follows in Hnf. unfold followed_by in Hnb. rewrite Hxs in Hnf. rewrite Hys in Hnb.
  rewrite (proj2 (includes_false xs t) Hnf), (proj2 (includes_false ys m) Hnb) in Hrun1.
  set (me' := set_following (VArr (xs ++ [VStr t])) me) in *.
  set (target' := set_followers (VArr (ys ++ [VStr m])) target) in *.
  set (users' := <[j := target']> (<[i := me']> users)) in *.
  destruct (find_after_update m t users i j me target me' target' Hne Hme Htg
              eq_refl eq_refl) as (Hij & Hme' & Htg' & Hi' & Hj').
  fold users' in Hme', Htg', Hi', Hj'.
  pose proof (find_user_Some _ _ _ _ Hme) as (Hi & _).
  pose proof (find_user_Some _ _ _ _ Htg) as (Hj & _).
  assert (Hc' : Forall canonical_user users').
  { unfold users'. apply Forall_insert; [apply Forall_insert; [exact Hc|]|].
    - apply canonical_set_following. eapply canonical_lookup; eassumption.
    - apply canonical_set_followers. eapply canonical_lookup; eassumption. }
  exists users'. split; [exact Hrun1|].
  pose proof (normalised_users_canonical now' users' Hc') as Hn'.
  rewrite <- Hn' in Hme', Htg'.
  rewrite (unfollow_route_run now' sess m t users'
             (World (Text_json users') (posts_file w) (writes w ++ [USERS_FILE]))
             i j me' target' (xs ++ [VStr t]) (ys ++ [VStr m])
             eq_refl Hs Hne Hme' Htg' eq_refl eq_refl).
  rewrite Hn', (after_normalise_canonical now' users' _ Hc').
  rewrite (filter_ne_push xs t Hnf), (filter_ne_push ys m Hnb).
  cbn [posts_file writes].
  assert (E1 : set_following (VArr xs) me' = me)
    by (transitivity (set_following (VArr xs) me);
          [reflexivity | apply set_following_same, Hxs]).
  assert (E2 : set_followers (VArr ys) target' = target)
    by (transitivity (set_followers (VArr ys) target);
          [reflexivity | apply set_followers_same, Hys]).
  rewrite E1, E2. unfold users'.
  rewrite (list_insert_insert_ne _ i j me target') by exact Hij.
  rewrite list_insert_insert_eq, list_insert_insert_eq.
  rewrite (list_insert_id users i me Hi), (list_insert_id users j target Hj).
  rewrite <- app_assoc. reflexivity.
Qed.

Lemma follow_then_unfollow_restores_witness :
  let w := World (Text_json [alice; bob_banned]) (Text_json []) [] in
  exists users',
    follow_route 5 (Some "bob") "alice" w
      = Done (Redirect "/user/alice")
             (World (Text_json users') (Text_json []) [USERS_FILE]) /\
    unfollow_route 6 (Some "bob") "alice"
        (World (Text_json users') (Text_json []) [USERS_FILE])
      = Done (Redirect "/user/alice")
             (World (Text_json [alice; bob_banned]) (Text_json [])
                    [USERS_FILE; USERS_FILE]).
Proof.
  intros w.
  assert (Hc : Forall canonical_user [alice; bob_banned]).
  { repeat constructor. }
  destruct (follow_then_unfollow_restores 5 6 (Some "bob") "bob" "alice"
              [alice; bob_banned] w 1 0 bob_banned alice eq_refl Hc eq_refl
              ltac:(discriminate) eq_refl eq_refl)
    as (users' & H1 & H2).
  - unfold follows. simpl. apply not_elem_of_nil.
  - unfold followed_by. simpl. apply not_elem_of_nil.
  - exists users'. split; [exact H1 | exact H2].
Defined.

(** X8: a follow or an unfollow of oneself answers with the redirect to
    the profile and neither reads nor writes a file; one whose follower or
    target is not in the collection answers with the redirect to the home
    page and leaves the store as the normalising load leaves it. *)
Theorem follow_self_or_unknown_changes_nothing (now : Z) (sess : option string)
    (m t : string) (raw : list user) (w : world) :
  logged_in sess = Some m ->
  (follow_route now sess m w = Done (Redirect ("/user/" ++ m)%string) w /\
   unfollow_route now sess m w = Done (Redirect ("/user/" ++ m)%string) w) /\
  (users_file w = Text_json raw -> m <> t ->
   find_user m (normalised_users now raw) = None \/
   find_user t (normalised_users now raw) = None ->
   follow_route now sess t w = Done (Redirect "/") (after_normalise now raw w) /\
   unfollow_route now sess t w = Done (Redirect "/") (after_normalise now raw w)).
Proof.
  intros Hs. split.
  - unfold follow_route, unfollow_route. rewrite Hs, String.eqb_refl. split; reflexivity.
  - intros Hf Hne Hnone. unfold follow_route, unfollow_route. rewrite Hs.
    destruct (String.eqb_spec t m) as [->|_]; [contradiction|].
    rewrite !(load_normalise_users now raw w _ Hf).
    destruct Hnone as [-> | Hnone]; [split; reflexivity|].
    rewrite Hnone. destruct (find_user m _) as [[? ?]|]; split; reflexivity.
Qed.

Lemma follow_self_or_unknown_changes_nothing_witness :
  follow_route 5 (Some "bob") "bob" fresh_world = Done (Redirect "/user/bob") fresh_world /\
  follow_route 5 (Some "bob") "zoe" (World (Text_json [alice; bob_banned]) Absent [])
    = Done (Redirect "/") (World (Text_json [alice; bob_banned]) Absent []).
Proof.
  split.
  - apply (follow_self_or_unknown_changes_nothing 5 (Some "bob") "bob" "bob" []
             fresh_world eq_refl).
  - apply (follow_self_or_unknown_changes_nothing 5 (Some "bob") "bob" "zoe"
             [alice; bob_banned] (World (Text_json [alice; bob_banned]) Absent [])
             eq_refl); [reflexivity | discriminate | right; reflexivity].
Defined.

(** ** Accounts: registering, logging in, banning, promoting *)

Lemma length_normalised_users now users :
  length (normalised_users now users) = length users.
Proof. unfold normalised_users. apply length_map. Qed.

Lemma login_route_run now body raw w :
  users_file w = Text_json raw ->
  login_route now body w =
    match list_find (fun u => Is_true (credentials_match body u))
            (normalised_users now raw) with
    | None => Done (Reply invalid_credentials None) (after_normalise now raw w)
    | Some (_, user) =>
        if truthy (banned user)
        then Done (Reply account_banned None) (after_normalise now raw w)
        else Done (Reply (Redirect "/") (Some (login_username body)))
                  (after_normalise now raw w)
    end.
Proof.
  intros Hf. unfold login_route. rewrite (load_normalise_users now raw w _ Hf).
  destruct (list_find _ _) as [[i u]|]; [|reflexivity].
  destruct (truthy (banned u)); reflexivity.
Qed.

Lemma register_route_run now body name pw raw w :
  users_file w = Text_json raw ->
  reg_username body = Some name -> name <> "" ->
  reg_password body = Some pw -> reg_password2 body = Some pw -> pw <> "" ->
  register_route now body w =
    match find_user name (normalised_users now raw) with
    | Some _ => Done (Reply duplicate_username None) (after_normalise now raw w)
    | None =>
        Done (Reply (Redirect "/") (Some (Some name)))
             (World (Text_json (normalised_users now raw ++
                       [new_user now body (bool_decide (length raw = 0))]))
                    (posts_file w)
                    (writes (after_normalise now raw w) ++ [USERS_FILE]))
    end.
Proof.
  intros Hf Hname Hne Hpw Hpw2 Hpwne.
  unfold register_route. rewrite Hname, Hpw, Hpw2. simpl.
  apply String.eqb_neq in Hne, Hpwne. rewrite Hne, Hpwne. simpl.
  rewrite bool_decide_eq_true_2 by reflexivity. simpl.
  rewrite (load_normalise_users now raw w _ Hf).
  destruct (find_user name (normalised_users now raw)); [reflexivity|].
  unfold bind, saveUsers, ret. simpl.
  rewrite after_normalise_posts_file, length_normalised_users. reflexivity.
Qed.

(** The first record with a name is the first record with that name and
    its password. *)
Lemma find_credentials_of_found name pw users i u :
  find_user name users = Some (i, u) -> passwordPlain u = VStr pw ->
  list_find (fun u => Is_true (credentials_match (Login_form (Some name) (Some pw)) u))
    users = Some (i, u).
Proof.
  intros (Hi & Hu & Hleast)%find_user_Some Hpw. apply list_find_Some.
  split; [exact Hi|]. split.
  - apply Is_true_true, credentials_match_strings. split; assumption.
  - intros j v Hj Hlt [Hv _]%Is_true_true%credentials_match_strings.
    exact (Hleast j v Hj Hlt Hv).
Qed.

Lemma find_credentials_wrong_password name pw users :
  (forall u, u ∈ users -> username u = VStr name -> passwordPlain u <> VStr pw) ->
  list_find (fun u => Is_true (credentials_match (Login_form (Some name) (Some pw)) u))
    users = None.
Proof.
  intros H. apply list_find_None, list.Forall_forall.
  intros u Hu [Hn Hp]%Is_true_true%credentials_match_strings.
  exact (H u Hu Hn Hp).
Qed.

Lemma find_user_app_new name users u :
  find_user name users = None -> username u = VStr name ->
  find_user name (users ++ [u]) = Some (length users, u).
Proof.
  intros Hnone Hu. apply find_user_intro.
  - rewrite lookup_app_r by lia. rewrite Nat.sub_diag. reflexivity.
  - exact Hu.
  - intros j v Hj Hlt. rewrite lookup_app_l in Hj by exact Hlt.
    apply (proj1 (find_user_None name users) Hnone).
    eapply list_elem_of_lookup_2, Hj.
Qed.

Lemma find_user_backfilled now name users i u :
  find_user name users = Some (i, u) ->
  find_user name (normalised_users now users) = Some (i, fst (backfill_user now u false)).
Proof. intros H. rewrite find_user_normalised, H. reflexivity. Qed.

Lemma find_user_backfilled_None now name users :
  find_user name users = None ->
  find_user name (normalised_users now users) = None.
Proof. intros H. rewrite find_user_normalised, H. reflexivity. Qed.

(** X9: after a successful registration the new user can log in: a login
    with the registered name and password is accepted, and one with the
    registered name and any other password is answered "invalid". *)
Theorem register_then_login (now now' : Z) (body : register_form) (name pw pw' : string)
    (raw : list user) (w : world) :
  users_file w = Text_json raw ->
  reg_username body = Some name -> name <> "" ->
  reg_password body = Some pw -> reg_password2 body = Some pw -> pw <> "" ->
  (forall u, u ∈ raw -> username u <> VStr name) ->
  pw' <> pw ->
  exists w1 w2,
    register_route now body w = Done (Reply (Redirect "/") (Some (Some name))) w1 /\
    login_route now' (Login_form (Some name) (Some pw)) w1
      = Done (Reply (Redirect "/") (Some (Some name))) w2 /\
    login_route now' (Login_form (Some name) (Some pw')) w1
      = Done (Reply invalid_credentials None) w2.
Proof.
  intros Hf Hname Hne Hpw Hpw2 Hpwne Hfresh Hother.
  pose proof (proj2 (find_user_None name raw) Hfresh) as Hnone.
  pose proof (find_user_backfilled_None now name raw Hnone) as Hnone1.
  set (new := new_user now body (bool_decide (length raw = 0))).
  set (users1 := normalised_users now raw ++ [new]).
  set (w1 := World (Text_json users1) (posts_file w)
                   (writes (after_normalise now raw w) ++ [USERS_FILE])).
  assert (Hnew : username new = VStr name /\ passwordPlain new = VStr pw /\
                 banned new = VBool false).
  { unfold new, new_user. rewrite Hname, Hpw. simpl.
    apply String.eqb_neq in Hne, Hpwne. rewrite Hne, Hpwne. auto. }
  destruct Hnew as (Hnn & Hnp & Hnb).
  pose proof (find_user_app_new name _ new Hnone1 Hnn) as Hfound.
  fold users1 in Hfound.
  pose proof (find_user_backfilled now' name users1 _ _ Hfound) as Hfound'.
  destruct (backfill_user_identity now' new false) as (Hbn & Hbp & _).
  exists w1, (after_normalise now' users1 w1). split; [|split].
  - rewrite (register_route_run now body name pw raw w) by assumption.
    rewrite Hnone1. reflexivity.
  - rewrite (login_route_run now' _ users1 w1 eq_refl).
    rewrite (find_credentials_of_found name pw _ _ _ Hfound') by congruence.
    destruct (truthy (banned (fst (backfill_user now' new false)))) eqn:Hb;
      [|reflexivity].
    apply backfill_user_banned in Hb. congruence.
  - rewrite (login_route_run now' _ users1 w1 eq_refl).
    rewrite find_credentials_wrong_password; [reflexivity|].
    intros u Hu Hun Hup.
    destruct (list_elem_of_lookup_1 _ _ Hu) as [k Hk].
    apply find_user_Some in Hfound' as (Hk' & _ & Hleast).
    assert (Hunique : forall j v, normalised_users now' users1 !! j = Some v ->
                        username v = VStr name -> j = length (normalised_users now raw)).
    { intros j v Hj Hv.
      destruct (Nat.lt_trichotomy j (length (normalised_users now raw)))
        as [Hlt|[Heq|Hgt]]; [|exact Heq|].
      - exfalso. exact (Hleast j v Hj Hlt Hv).
      - exfalso. apply lookup_lt_Some in Hj.
        rewrite length_normalised_users in Hj.
        unfold users1 in Hj. rewrite length_app in Hj. simpl in Hj. lia. }
    rewrite (Hunique k u Hk Hun) in Hk. rewrite Hk' in Hk. injection Hk as <-.
    congruence.
Qed.

Lemma register_then_login_witness :
  let body := Register_form (Some "carol") None (Some "s3cret") (Some "s3cret") in
  let w := World (Text_json [alice; bob_banned]) (Text_json []) [] in
  exists w1 w2,
    register_route 50 body w = Done (Reply (Redirect "/") (Some (Some "carol"))) w1 /\
    login_route 60 (Login_form (Some "carol") (Some "s3cret")) w1
      = Done (Reply (Redirect "/") (Some (Some "carol"))) w2 /\
    login_route 60 (Login_form (Some "carol") (Some "guess")) w1
      = Done (Reply invalid_credentials None) w2.
Proof.
  intros body w.
  apply (register_then_login 50 60 body "carol" "s3cret" "guess" [alice; bob_banned] w);
    try reflexivity; try discriminate.
  intros u [->|[->|H]%elem_of_cons]%elem_of_cons;
    [discriminate | discriminate | apply elem_of_nil in H; contradiction].
Defined.

Lemma requireAdmin_run now sess a raw w (next : io response) :
  users_file w = Text_json raw -> logged_in sess = Some a ->
  requireAdmin now sess next w =
    match find_user a (normalised_users now raw) with
    | Some (_, user) =>
        if truthy (isAdmin user) then next (after_normalise now raw w)
        else Done (Send 403 "Admins only.") (after_normalise now raw w)
    | None => Done (Send 403 "Admins only.") (after_normalise now raw w)
    end.
Proof.
  intros Hf Hs. unfold requireAdmin. rewrite Hs.
  rewrite (load_normalise_users now raw w _ Hf).
  destruct (find_user a _) as [[k u]|]; [|reflexivity].
  destruct (truthy (isAdmin u)); reflexivity.
Qed.

Lemma admin_set_field_run now set name raw w :
  users_file w = Text_json raw ->
  admin_set_field now set name w =
    match find_user name (normalised_users now raw) with
    | Some (i, user) =>
        Done (Redirect "/admin")
             (World (Text_json (<[i := set user]> (normalised_users now raw)))
                    (posts_file w)
                    (writes (after_normalise now raw w) ++ [USERS_FILE]))
    | None => Done (Redirect "/admin") (after_normalise now raw w)
    end.
Proof.
  intros Hf. unfold admin_set_field. rewrite (load_normalise_users now raw w _ Hf).
  destruct (find_user name _) as [[i u]|]; [|reflexivity].
  unfold bind, saveUsers, ret. rewrite after_normalise_posts_file. reflexivity.
Qed.

(** An admin route on a collection in canonical shape: the guard lets the
    admin through without a write, and the handler replaces the record
    found. *)
Lemma admin_update_run now sess a k adm set name i u users w :
  users_file w = Text_json users -> Forall canonical_user users ->
  logged_in sess = Some a ->
  find_user a users = Some (k, adm) -> truthy (isAdmin adm) = true ->
  find_user name users = Some (i, u) ->
  requireAdmin now sess (admin_set_field now set name) w =
    Done (Redirect "/admin")
         (World (Text_json (<[i := set u]> users)) (posts_file w)
                (writes w ++ [USERS_FILE])).
Proof.
  intros Hf Hc Hs Ha Hadm Hu.
  rewrite (requireAdmin_run now sess a users w _ Hf Hs).
  rewrite (normalised_users_canonical now users Hc), Ha, Hadm.
  rewrite (after_normalise_canonical now users w Hc).
  rewrite (admin_set_field_run now set name users w Hf).
  rewrite (normalised_users_canonical now users Hc), Hu.
  rewrite (after_normalise_canonical now users w Hc). reflexivity.
Qed.

Lemma canonical_set_banned u b : canonical_user u -> canonical_user (set_banned (VBool b) u).
Proof. unfold canonical_user. simpl. tauto. Qed.

Lemma canonical_set_isAdmin u b : canonical_user u -> canonical_user (set_isAdmin (VBool b) u).
Proof. unfold canonical_user. simpl. tauto. Qed.

Lemma login_canonical_run now name pw users i u w :
  users_file w = Text_json users -> Forall canonical_user users ->
  find_user name users = Some (i, u) -> passwordPlain u = VStr pw ->
  login_route now (Login_form (Some name) (Some pw)) w =
    Done (if truthy (banned u) then Reply account_banned None
          else Reply (Redirect "/") (Some (Some name))) w.
Proof.
  intros Hf Hc Hu Hpw. rewrite (login_route_run now _ users w Hf).
  rewrite (normalised_users_canonical now users Hc).
  rewrite (find_credentials_of_found name pw users i u Hu Hpw).
  rewrite (after_normalise_canonical now users w Hc).
  destruct (truthy (banned u)); reflexivity.
Qed.

Lemma find_user_insert_same name users i u u' :
  find_user name users = Some (i, u) -> username u' = username u ->
  find_user name (<[i := u']> users) = Some (i, u').
Proof.
  intros Hu He. pose proof (find_user_Some _ _ _ _ Hu) as (Hi & _).
  pose proof (find_user_insert name users i u u' i u Hi He Hu) as H.
  destruct (decide (i = i)); [exact H | congruence].
Qed.

(** X10: on a collection in canonical shape, after an admin has banned a
    user, a login with that user's name and password is answered "banned";
    after the admin has lifted the ban, the same login is accepted.  Each
    of the two admin actions changes the [banned] field of that record and
    nothing else. *)
Theorem ban_blocks_login_until_unban (now1 now2 now3 now4 : Z) (sess : option string)
    (a b pw : string) (k i : nat) (adm u : user) (users : list user) (w : world) :
  users_file w = Text_json users -> Forall canonical_user users ->
  logged_in sess = Some a ->
  find_user a users = Some (k, adm) -> truthy (isAdmin adm) = true ->
  find_user b users = Some (i, u) -> passwordPlain u = VStr pw ->
  let banned_users := <[i := set_banned (VBool true) u]> users in
  let unbanned_users := <[i := set_banned (VBool false) u]> users in
  let w1 := World (Text_json banned_users) (posts_file w) (writes w ++ [USERS_FILE]) in
  let w2 := World (Text_json unbanned_users) (posts_file w)
                  (writes w ++ [USERS_FILE; USERS_FILE]) in
  ban_route now1 sess b w = Done (Redirect "/admin") w1 /\
  login_route now2 (Login_form (Some b) (Some pw)) w1
    = Done (Reply account_banned None) w1 /\
  unban_route now3 sess b w1 = Done (Redirect "/admin") w2 /\
  login_route now4 (Login_form (Some b) (Some pw)) w2
    = Done (Reply (Redirect "/") (Some (Some b))) w2.
Proof.
  intros Hf Hc Hs Ha Hadm Hu Hpw banned_users unbanned_users w1 w2.
  pose proof (find_user_Some _ _ _ _ Hu) as (Hi & _).
  assert (Hc1 : Forall canonical_user banned_users).
  { apply Forall_insert; [exact Hc|]. apply canonical_set_banned.
    exact (canonical_lookup users i u Hc Hi). }
  assert (Hc2 : Forall canonical_user unbanned_users).
  { apply Forall_insert; [exact Hc|]. apply canonical_set_banned.
    exact (canonical_lookup users i u Hc Hi). }
  pose proof (find_user_insert_same b users i u (set_banned (VBool true) u)
                Hu eq_refl) as Hu1.
  fold banned_users in Hu1.
  pose proof (find_user_insert a users i u (set_banned (VBool true) u) k adm
                Hi eq_refl Ha) as Ha1.
  fold banned_users in Ha1.
  assert (Hadm1 : truthy (isAdmin (if decide (k = i)
                                   then set_banned (VBool true) u else adm)) = true).
  { destruct (decide (k = i)) as [->|_]; [|exact Hadm].
    pose proof (find_user_Some _ _ _ _ Ha) as (Hk & _).
    assert (adm = u) as -> by congruence. exact Hadm. }
  pose proof (find_user_insert_same b users i u (set_banned (VBool false) u)
                Hu eq_refl) as Hu2.
  fold unbanned_users in Hu2.
  split; [|split; [|split]].
  - unfold ban_route. eapply admin_update_run; eassumption.
  - rewrite (login_canonical_run now2 b pw banned_users i _ w1 eq_refl Hc1 Hu1 Hpw).
    reflexivity.
  - unfold unban_route.
    rewrite (admin_update_run now3 sess a k _ (set_banned (VBool false)) b i _
               banned_users w1 eq_refl Hc1 Hs Ha1 Hadm1 Hu1).
    unfold w2, unbanned_users, banned_users. cbn [posts_file writes].
    rewrite list_insert_insert_eq. unfold w1. cbn [posts_file writes].
    rewrite <- app_assoc. reflexivity.
  - rewrite (login_canonical_run now4 b pw unbanned_users i _ w2 eq_refl Hc2 Hu2 Hpw).
    reflexivity.
Qed.

Lemma ban_blocks_login_until_unban_witness :
  let carol := User (VStr "carol") (VStr "") (VStr "pw3") (VNum 3) (VBool false)
                    (VBool false) (VArr []) (VArr []) in
  let w := World (Text_json [alice; carol]) (Text_json []) [] in
  let w1 := World (Text_json [alice; set_banned (VBool true) carol]) (Text_json [])
                  [USERS_FILE] in
  ban_route 1 (Some "alice") "carol" w = Done (Redirect "/admin") w1 /\
  login_route 2 (Login_form (Some "carol") (Some "pw3")) w1
    = Done (Reply account_banned None) w1.
Proof.
  intros carol w w1.
  assert (Hc : Forall canonical_user [alice; carol]) by (repeat constructor).
  pose proof (ban_blocks_login_until_unban 1 2 3 4 (Some "alice") "alice" "carol" "pw3"
                0 1 alice carol [alice; carol] w eq_refl Hc eq_refl eq_refl eq_refl
                eq_refl eq_refl) as (H1 & H2 & _).
  split; [exact H1 | exact H2].
Defined.

(** X11: the five admin routes answer a logged-in user who is not an admin
    (or whose record is not in the collection) with 403 "Admins only." and
    leave the store as the normalising load of the guard leaves it: the
    handler behind the guard is not run. *)
Theorem admin_routes_guarded (now : Z) (sess : option string) (a : string)
    (raw : list user) (w : world) (r : request) :
  users_file w = Text_json raw -> logged_in sess = Some a ->
  (forall k u, find_user a (normalised_users now raw) = Some (k, u) ->
               truthy (isAdmin u) = false) ->
  match r with
  | Ban _ | Unban _ | Make_admin _ | Admin_page | Admin_delete_post _ =>
      route now sess r w = Done (Send 403 "Admins only.") (after_normalise now raw w)
  | _ => True
  end.
Proof.
  intros Hf Hs Hnot.
  assert (Hguard : forall next,
            requireAdmin now sess next w
            = Done (Send 403 "Admins only.") (after_normalise now raw w)).
  { intros next. rewrite (requireAdmin_run now sess a raw w next Hf Hs).
    destruct (find_user a _) as [[k u]|] eqn:Hfind; [|reflexivity].
    rewrite (Hnot k u eq_refl). reflexivity. }
  destruct r; try exact Logic.I; simpl;
    unfold ban_route, unban_route, make_admin_route, admin_page_route,
      admin_delete_route; apply Hguard.
Qed.

Lemma admin_routes_guarded_witness :
  let w := World (Text_json [alice; bob_banned]) (Text_json [twin_a]) [] in
  route 9 (Some "bob") (Make_admin "bob") w = Done (Send 403 "Admins only.") w /\
  route 9 (Some "bob") (Admin_delete_post (Some 7%Z)) w
    = Done (Send 403 "Admins only.") w.
Proof.
  intros w. split.
  - apply (admin_routes_guarded 9 (Some "bob") "bob" [alice; bob_banned] w
             (Make_admin "bob") eq_refl eq_refl).
    intros k u [= <- <-]. reflexivity.
  - apply (admin_routes_guarded 9 (Some "bob") "bob" [alice; bob_banned] w
             (Admin_delete_post (Some 7%Z)) eq_refl eq_refl).
    intros k u [= <- <-]. reflexivity.
Defined.

(** X12: on a collection in canonical shape, once an admin has promoted a
    user, that user passes the admin guard: the admin page is rendered for
    their session, with the collections as stored.  The promotion changes
    the [isAdmin] field of that record and nothing else. *)
Theorem make_admin_grants_access (now now' : Z) (sess : option string)
    (a b : string) (k i : nat) (adm u : user) (users : list user)
    (posts : list post) (w : world) :
  users_file w = Text_json users -> Forall canonical_user users ->
  posts_file w = Text_json posts ->
  logged_in sess = Some a -> b <> "" ->
  find_user a users = Some (k, adm) -> truthy (isAdmin adm) = true ->
  find_user b users = Some (i, u) ->
  let users' := <[i := set_isAdmin (VBool true) u]> users in
  let w1 := World (Text_json users') (posts_file w) (writes w ++ [USERS_FILE]) in
  make_admin_route now sess b w = Done (Redirect "/admin") w1 /\
  admin_page_route now' (Some b) w1
    = Done (Render_admin users' (map backfill_post posts)) w1.
Proof.
  intros Hf Hc Hp Hs Hb Ha Hadm Hu users' w1.
  pose proof (find_user_Some _ _ _ _ Hu) as (Hi & _).
  assert (Hc1 : Forall canonical_user users').
  { apply Forall_insert; [exact Hc|]. apply canonical_set_isAdmin.
    exact (canonical_lookup users i u Hc Hi). }
  pose proof (find_user_insert_same b users i u (set_isAdmin (VBool true) u)
                Hu eq_refl) as Hu1.
  fold users' in Hu1.
  split; [unfold make_admin_route; eapply admin_update_run; eassumption|].
  assert (Hsb : logged_in (Some b) = Some b).
  { simpl. apply String.eqb_neq in Hb. rewrite Hb. reflexivity. }
  unfold admin_page_route.
  rewrite (requireAdmin_run now' (Some b) b users' w1 _ eq_refl Hsb).
  rewrite (normalised_users_canonical now' users' Hc1), Hu1.
  rewrite (after_normalise_canonical now' users' w1 Hc1). cbn [truthy isAdmin set_isAdmin].
  rewrite (load_normalise_users now' users' w1 _ eq_refl).
  rewrite (normalised_users_canonical now' users' Hc1).
  rewrite (after_normalise_canonical now' users' w1 Hc1).
  assert (Hp1 : posts_file w1 = Text_json posts) by exact Hp.
  rewrite (load_normalise_posts posts w1 _ Hp1). reflexivity.
Qed.

Lemma make_admin_grants_access_witness :
  let carol := User (VStr "carol") (VStr "") (VStr "pw3") (VNum 3) (VBool false)
                    (VBool false) (VArr []) (VArr []) in
  let w := World (Text_json [alice; carol]) (Text_json []) [] in
  let w1 := World (Text_json [alice; set_isAdmin (VBool true) carol]) (Text_json [])
                  [USERS_FILE] in
  make_admin_route 1 (Some "alice") "carol" w = Done (Redirect "/admin") w1 /\
  admin_page_route 2 (Some "carol") w1
    = Done (Render_admin [alice; set_isAdmin (VBool true) carol] []) w1.
Proof.
  intros carol w w1.
  assert (Hc : Forall canonical_user [alice; carol]) by (repeat constructor).
  apply (make_admin_grants_access 1 2 (Some "alice") "alice" "carol" 0 1 alice carol
           [alice; carol] [] w eq_refl Hc eq_refl eq_refl ltac:(discriminate)
           eq_refl eq_refl eq_refl).
Defined.

(** ** The history of the users file *)

Section Users_history.
Variable users0 : list user.

Lemma hist_savePosts posts w :
  users_hold (users_evolve users0) w ->
  users_hold (users_evolve users0)
    (World (users_file w) (Text_json posts) (writes w ++ [POSTS_FILE])).
Proof. intros (users & Hf & He). exists users. split; assumption. Qed.

Lemma hist_loadUsers :
  triple (users_hold (users_evolve users0)) loadUsers (users_evolve users0).
Proof.
  intros w Hw. unfold loadUsers. destruct Hw as (users & Hf & He).
  rewrite Hf. simpl. split; [|exact He]. exists users. split; assumption.
Qed.

Lemma hist_saveUsers users :
  users_evolve users0 users ->
  triple (users_hold (users_evolve users0)) (saveUsers users) top.
Proof.
  intros He w _. simpl. split; [|exact Logic.I].
  exists users. split; [reflexivity | exact He].
Qed.

Lemma hist_normaliseUsers now raw :
  users_evolve users0 raw ->
  triple (users_hold (users_evolve users0)) (normaliseUsers now raw)
         (users_evolve users0).
Proof.
  intros He w Hw. rewrite normaliseUsers_run.
  pose proof (evolve_normalised users0 now raw He) as He'.
  split; [|exact He'].
  destruct (existsb needs_backfill raw); [|exact Hw].
  exists (normalised_users now raw). split; [reflexivity | exact He'].
Qed.

Lemma hist_load_normalise {A} now (k : list user -> io A) (R : A -> Prop) :
  (forall users, users_evolve users0 users ->
                 triple (users_hold (users_evolve users0)) (k users) R) ->
  triple (users_hold (users_evolve users0))
    (let* raw := loadUsers in let* users := normaliseUsers now raw in k users) R.
Proof.
  intros Hk. eapply triple_bind; [apply hist_loadUsers|].
  intros raw Hraw. eapply triple_bind; [apply hist_normaliseUsers, Hraw|].
  exact Hk.
Qed.

Lemma hist_attach_current_user now sess :
  triple (users_hold (users_evolve users0)) (attach_current_user now sess) top.
Proof.
  unfold attach_current_user. destruct (logged_in sess); [|triple_step].
  apply hist_load_normalise. intros users _. triple_step.
Qed.

Lemma hist_requireAdmin now sess next :
  triple (users_hold (users_evolve users0)) next top ->
  triple (users_hold (users_evolve users0)) (requireAdmin now sess next) top.
Proof.
  intros Hnext. unfold requireAdmin. destruct (logged_in sess); [|triple_step].
  apply hist_load_normalise. intros users _.
  destruct (find_user s users) as [[k user]|]; [|triple_step].
  destruct (truthy (isAdmin user)); [exact Hnext | triple_step].
Qed.

Lemma hist_register_route now body :
  triple (users_hold (users_evolve users0)) (register_route now body) top.
Proof.
  unfold register_route.
  destruct (field_blank (reg_username body)) eqn:Hblank; cbn [orb]; [triple_step|].
  destruct (_ || _); [triple_step|]. destruct (negb _); [triple_step|].
  apply hist_load_normalise. intros users He.
  destruct (find_user _ users) eqn:Hfind; [triple_step|].
  eapply triple_bind_top; [|intros; triple_step].
  apply hist_saveUsers, evolve_registered; assumption.
Qed.

Lemma hist_login_route now body :
  triple (users_hold (users_evolve users0)) (login_route now body) top.
Proof.
  unfold login_route. apply hist_load_normalise. intros users _.
  repeat triple_step.
Qed.

(** The two inserts of a follow or an unfollow, one after the other. *)
Lemma evolve_updated2 users i j me target me' target' :
  users_evolve users0 users -> i <> j ->
  users !! i = Some me -> users !! j = Some target ->
  (me' = me \/ user_update me me') ->
  (target' = target \/ user_update target target') ->
  users_evolve users0 (<[j := target']> (<[i := me']> users)).
Proof.
  intros He Hij Hi Hj Hme Htg.
  assert (He1 : users_evolve users0 (<[i := me']> users)).
  { destruct Hme as [->|Hme]; [rewrite list_insert_id by exact Hi; exact He|].
    eapply evolve_updated; eassumption. }
  assert (Hj1 : <[i := me']> users !! j = Some target).
  { rewrite list_lookup_insert_ne by exact Hij. exact Hj. }
  destruct Htg as [->|Htg]; [rewrite list_insert_id by exact Hj1; exact He1|].
  eapply evolve_updated; eassumption.
Qed.

Lemma hist_follow_route now sess targetName :
  triple (users_hold (users_evolve users0)) (follow_route now sess targetName) top.
Proof.
  unfold follow_route. destruct (logged_in sess) as [meName|]; [|triple_step].
  destruct (String.eqb_spec targetName meName) as [|Hne]; [triple_step|].
  apply hist_load_normalise. intros users He.
  destruct (find_user meName users) as [[i me]|] eqn:Hme; [|triple_step].
  destruct (find_user targetName users) as [[j target]|] eqn:Htg; [|triple_step].
  apply find_user_Some in Hme as (Hi & Hm & _).
  apply find_user_Some in Htg as (Hj & Ht & _).
  assert (Hij : i <> j) by (intros ->; congruence).
  unfold push_following, push_follower.
  destruct (following me) as [| | | | |xs|] eqn:Hxs;
    try (intros w Hw; simpl; exact Hw).
  destruct (followers target) as [| | | | |ys|] eqn:Hys;
    try (intros w Hw; simpl; exact Hw).
  simpl. intros w Hw. simpl. split; [|exact Logic.I].
  eexists. split; [reflexivity|].
  apply (evolve_updated2 users i j me target); try assumption.
  - destruct (includes xs targetName) eqn:Hinc; [left; reflexivity|right].
    eapply update_follow; eassumption.
  - destruct (includes ys meName) eqn:Hinc; [left; reflexivity|right].
    eapply update_followed; eassumption.
Qed.

Lemma hist_unfollow_route now sess targetName :
  triple (users_hold (users_evolve users0)) (unfollow_route now sess targetName) top.
Proof.
  unfold unfollow_route. destruct (logged_in sess) as [meName|]; [|triple_step].
  destruct (String.eqb_spec targetName meName) as [|Hne]; [triple_step|].
  apply hist_load_normalise. intros users He.
  destruct (find_user meName users) as [[i me]|] eqn:Hme; [|triple_step].
  destruct (find_user targetName users) as [[j target]|] eqn:Htg; [|triple_step].
  apply find_user_Some in Hme as (Hi & Hm & _).
  apply find_user_Some in Htg as (Hj & Ht & _).
  assert (Hij : i <> j) by (intros ->; congruence).
  unfold drop_following, drop_follower.
  destruct (following me) as [| | | | |xs|] eqn:Hxs;
    try (intros w Hw; simpl; exact Hw).
  destruct (followers target) as [| | | | |ys|] eqn:Hys;
    try (intros w Hw; simpl; exact Hw).
  simpl. intros w Hw. simpl. split; [|exact Logic.I].
  eexists. split; [reflexivity|].
  apply (evolve_updated2 users i j me target); try assumption.
  - right. apply update_unfollow, Hxs.
  - right. apply update_unfollowed, Hys.
Qed.

Lemma hist_admin_set_field now set name :
  (forall u, user_update u (set u)) ->
  triple (users_hold (users_evolve users0)) (admin_set_field now set name) top.
Proof.
  intros Hset. unfold admin_set_field. apply hist_load_normalise. intros users He.
  destruct (find_user name users) as [[i user]|] eqn:Hfind; [|triple_step].
  apply find_user_Some in Hfind as (Hi & _).
  eapply triple_bind_top; [|intros; triple_step].
  apply hist_saveUsers. eapply evolve_updated; [exact He | exact Hi | apply Hset].
Qed.

Lemma hist_route now sess r :
  triple (users_hold (users_evolve users0)) (route now sess r) top.
Proof.
  pose proof hist_savePosts as HI.
  destruct r; try (apply triple_readonly; reflexivity); simpl.
  - eapply triple_bind_top; [apply hist_register_route | intros; triple_step].
  - eapply triple_bind_top; [apply hist_login_route | intros; triple_step].
  - apply hist_follow_route.
  - apply hist_unfollow_route.
  - apply hist_requireAdmin, hist_admin_set_field. intros u. apply update_banned.
  - apply hist_requireAdmin, hist_admin_set_field. intros u. apply update_banned.
  - apply hist_requireAdmin, hist_admin_set_field. intros u. apply update_promoted.
  - apply posts_upload_route, HI.
  - apply posts_like_route, HI.
  - apply posts_delete_route, HI.
  - apply posts_comment_route, HI.
  - apply posts_delete_comment_route, HI.
  - apply hist_requireAdmin. apply hist_load_normalise. intros users _.
    repeat triple_step.
  - apply hist_requireAdmin.
    eapply triple_bind_top; [triple_step|]. intros raw.
    eapply triple_bind_top; [triple_step|]. intros posts.
    eapply triple_bind_top; [apply posts_savePosts, HI | intros; triple_step].
  - unfold profile_route. eapply triple_bind_top; [|intros; triple_step].
    apply hist_load_normalise. intros users _. repeat triple_step.
Qed.

Lemma hist_serve now sess r :
  triple (users_hold (users_evolve users0)) (serve now sess r) top.
Proof.
  unfold serve. eapply triple_bind_top; [apply hist_attach_current_user|].
  intros _. apply hist_route.
Qed.

Lemma hist_run arrivals w :
  users_hold (users_evolve users0) w ->
  users_hold (users_evolve users0) (run arrivals w).
Proof.
  revert w. induction arrivals as [|a rest IH]; intros w Hw; simpl; [exact Hw|].
  apply IH. eapply triple_final; [apply hist_serve | exact Hw].
Qed.
End Users_history.

(** Whatever the server is asked, the users file goes through writes of
    the handlers only. *)
Lemma users_history arrivals w users :
  users_file w = Text_json users ->
  exists users',
    users_file (run arrivals w) = Text_json users' /\ users_evolve users users'.
Proof.
  intros Hf. apply (hist_run users arrivals w).
  exists users. split; [exact Hf | apply evolve_start].
Qed.

Lemma same_account_refl u : same_account u u.
Proof. unfold same_account. tauto. Qed.

Lemma same_account_trans u v x :
  same_account u v -> same_account v x -> same_account u x.
Proof.
  intros (Hn & He & Hp & Hj & Ha) (Hn' & He' & Hp' & Hj' & Ha').
  unfold same_account. repeat split; try congruence.
  - intros Ht. rewrite Hj', (Hj Ht); [reflexivity|]. rewrite (Hj Ht). exact Ht.
  - auto.
Qed.

Lemma same_account_backfill now u c : same_account u (fst (backfill_user now u c)).
Proof.
  destruct u as [n e p j a b fr fg]. unfold same_account.
  backfill_cases j a b fr fg; repeat split; auto; try congruence;
    simpl in *; intros; try congruence; subst; simpl in *; congruence.
Qed.

Lemma same_account_update u u' : user_update u u' -> same_account u u'.
Proof.
  intros H. destruct H; unfold same_account; simpl; tauto.
Qed.

(** The accounts a collection holds, position by position, are those of an
    earlier one. *)
Lemma evolve_same_accounts users0 users :
  users_evolve users0 users ->
  length users0 <= length users /\
  forall i u, users0 !! i = Some u ->
    exists u', users !! i = Some u' /\ same_account u u'.
Proof.
  induction 1 as [|now users He [IHl IH]|now body users He [IHl IH] Hb Hfind
                  |users i u u' He [IHl IH] Hi Hup].
  - split; [lia|]. intros i u Hi. exists u. split; [exact Hi | apply same_account_refl].
  - rewrite length_normalised_users. split; [exact IHl|].
    intros i u Hi. destruct (IH i u Hi) as (v & Hv & Hsame).
    exists (fst (backfill_user now v false)). split.
    + unfold normalised_users. change (map ?f users) with (f <$> users).
      rewrite list_lookup_fmap, Hv. reflexivity.
    + eapply same_account_trans; [exact Hsame | apply same_account_backfill].
  - rewrite length_app. split; [lia|].
    intros i u Hi. destruct (IH i u Hi) as (v & Hv & Hsame).
    exists v. split; [|exact Hsame]. apply lookup_app_l_Some, Hv.
  - rewrite length_insert. split; [exact IHl|].
    intros k v Hk. destruct (IH k v Hk) as (x & Hx & Hsame).
    destruct (decide (k = i)) as [->|Hne].
    + exists u'. split; [apply list_lookup_insert_eq; eapply lookup_lt_Some, Hi|].
      assert (x = u) as -> by congruence.
      eapply same_account_trans; [exact Hsame | apply same_account_update, Hup].
    + exists x. split; [|exact Hsame].
      rewrite list_lookup_insert_ne by congruence. exact Hx.
Qed.

(** X13: accounts are permanent.  Whatever requests the server handles,
    every record of the users file stays at its position with the username,
    the e-mail address and the password it had; a join date that was set
    stays the same and an admin stays an admin.  Records are only added at
    the end. *)
Theorem accounts_are_permanent (arrivals : list arrival) (w : world) (users : list user) :
  users_file w = Text_json users ->
  exists users',
    users_file (run arrivals w) = Text_json users' /\
    length users <= length users' /\
    forall i u, users !! i = Some u ->
      exists u', users' !! i = Some u' /\
        username u' = username u /\ email u' = email u /\
        passwordPlain u' = passwordPlain u /\
        (truthy (joinedAt u) = true -> joinedAt u' = joinedAt u) /\
        (isAdmin u = VBool true -> isAdmin u' = VBool true).
Proof.
  intros Hf. destruct (users_history arrivals w users Hf) as (users' & Hf' & He).
  exists users'. split; [exact Hf'|]. exact (evolve_same_accounts users users' He).
Qed.

Lemma accounts_are_permanent_witness :
  exists users',
    users_file (run sample_session (World (Text_json [alice; bob_banned]) (Text_json []) []))
      = Text_json users' /\
    length [alice; bob_banned] <= length users' /\
    forall i u, [alice; bob_banned] !! i = Some u ->
      exists u', users' !! i = Some u' /\
        username u' = username u /\ email u' = email u /\
        passwordPlain u' = passwordPlain u /\
        (truthy (joinedAt u) = true -> joinedAt u' = joinedAt u) /\
        (isAdmin u = VBool true -> isAdmin u' = VBool true).
Proof.
  apply (accounts_are_permanent sample_session
           (World (Text_json [alice; bob_banned]) (Text_json []) [])
           [alice; bob_banned]).
  reflexivity.
Defined.

Lemma tidy_backfill now u c : tidy_user u -> tidy_user (fst (backfill_user now u c)).
Proof.
  intros Ht name Hn.
  destruct (backfill_user_identity now u c) as (Hu & _).
  rewrite Hu in Hn. destruct (Ht name Hn) as [Hfg Hfr].
  destruct u as [n e p j a b fr fg]. simpl in *.
  backfill_cases j a b fr fg; split; intros xs Hxs; simpl in *;
    first [ apply Hfg; assumption | apply Hfr; assumption
          | injection Hxs as <-; split; [apply NoDup_nil_2 | apply not_elem_of_nil] ].
Qed.

Lemma tidy_update u u' : tidy_user u -> user_update u u' -> tidy_user u'.
Proof.
  intros Ht Hup. destruct Hup as [me m t xs Hm Hne Hxs Hinc
                                  |target m t ys Htn Hne Hys Hinc
                                  |me t xs Hxs|target m ys Hys|u b|u];
    intros name Hn; simpl in Hn; destruct (Ht name Hn) as [Hfg Hfr];
    try (split; [exact Hfg | exact Hfr]).
  - split; [|exact Hfr]. intros zs [= <-]. destruct (Hfg xs Hxs) as [Hnd Hnot].
    assert (Hfresh : VStr t ∉ xs) by (intros Hin%includes_true; congruence).
    assert (name = m) as -> by congruence.
    split.
    + apply list.NoDup_app. split; [exact Hnd|]. split; [|apply NoDup_singleton].
      intros x Hx ->%list_elem_of_singleton. contradiction.
    + rewrite elem_of_app, list_elem_of_singleton. intros [H|[= H]]; [|congruence].
      contradiction.
  - split; [exact Hfg|]. intros zs [= <-]. destruct (Hfr ys Hys) as [Hnd Hnot].
    assert (Hfresh : VStr m ∉ ys) by (intros Hin%includes_true; congruence).
    assert (name = t) as -> by congruence.
    split.
    + apply list.NoDup_app. split; [exact Hnd|]. split; [|apply NoDup_singleton].
      intros x Hx ->%list_elem_of_singleton. contradiction.
    + rewrite elem_of_app, list_elem_of_singleton. intros [H|[= H]]; [|congruence].
      contradiction.
  - split; [|exact Hfr]. intros zs [= <-]. destruct (Hfg xs Hxs) as [Hnd Hnot].
    split; [eapply sublist_NoDup; [exact Hnd | apply filter_ne_sublist]|].
    intros [H _]%elem_of_filter_ne. contradiction.
  - split; [exact Hfg|]. intros zs [= <-]. destruct (Hfr ys Hys) as [Hnd Hnot].
    split; [eapply sublist_NoDup; [exact Hnd | apply filter_ne_sublist]|].
    intros [H _]%elem_of_filter_ne. contradiction.
Qed.

Lemma evolve_tidy users0 users :
  users_evolve users0 users -> Forall tidy_user users0 -> Forall tidy_user users.
Proof.
  induction 1 as [|now users He IH|now body users He IH Hb Hfind
                  |users i u u' He IH Hi Hup]; intros H0.
  - exact H0.
  - unfold normalised_users. change (map ?f users) with (f <$> users).
    apply Forall_fmap. eapply list.Forall_impl; [exact (IH H0)|].
    intros u Hu. apply tidy_backfill, Hu.
  - apply Forall_app. split; [exact (IH H0)|]. constructor; [|constructor].
    intros name _. split; intros xs [= <-];
      (split; [apply NoDup_nil_2 | apply not_elem_of_nil]).
  - apply Forall_insert; [exact (IH H0)|].
    eapply tidy_update; [|exact Hup].
    eapply (proj1 (list.Forall_forall _ _) (IH H0)), list_elem_of_lookup_2, Hi.
Qed.

(** X14: nobody follows themself and nobody is listed twice.  If in every
    record of the users file neither [following] nor [followers] holds the
    record's own username or the same name twice (as in an empty file),
    this is so again after any sequence of requests. *)
Theorem follow_lists_stay_tidy (arrivals : list arrival) (w : world) (users : list user) :
  users_file w = Text_json users ->
  (forall u, u ∈ users -> tidy_user u) ->
  exists users',
    users_file (run arrivals w) = Text_json users' /\
    forall u name, u ∈ users' -> username u = VStr name ->
      (forall xs, following u = VArr xs -> NoDup xs /\ VStr name ∉ xs) /\
      (forall ys, followers u = VArr ys -> NoDup ys /\ VStr name ∉ ys).
Proof.
  intros Hf Ht. destruct (users_history arrivals w users Hf) as (users' & Hf' & He).
  exists users'. split; [exact Hf'|].
  pose proof (evolve_tidy users users' He (proj2 (list.Forall_forall _ _) Ht)) as Ht'.
  intros u name Hu. exact (proj1 (list.Forall_forall _ _) Ht' u Hu name).
Qed.

Lemma follow_lists_stay_tidy_witness :
  exists users',
    users_file (run sample_session (started fresh_world)) = Text_json users' /\
    forall u name, u ∈ users' -> username u = VStr name ->
      (forall xs, following u = VArr xs -> NoDup xs /\ VStr name ∉ xs) /\
      (forall ys, followers u = VArr ys -> NoDup ys /\ VStr name ∉ ys).
Proof.
  apply (follow_lists_stay_tidy sample_session (started fresh_world) []).
  - reflexivity.
  - intros u Hu. apply elem_of_nil in Hu. contradiction.
Defined.

(** ** The history of the posts file *)

Lemma logged_in_Some sess name :
  logged_in sess = Some name -> sess = Some name /\ name <> "".
Proof.
  destruct sess as [s|]; simpl; [|discriminate].
  destruct (String.eqb_spec s "") as [|Hne]; [discriminate|].
  intros [= <-]. split; [reflexivity | exact Hne].
Qed.

Section Posts_history.
Variable posts0 : list post.

Lemma phist_saveUsers users w :
  posts_hold (posts_evolve posts0) w ->
  posts_hold (posts_evolve posts0)
    (World (Text_json users) (posts_file w) (writes w ++ [USERS_FILE])).
Proof. intros (posts & Hf & He). exists posts. split; assumption. Qed.

Lemma phist_loadPosts :
  triple (posts_hold (posts_evolve posts0)) loadPosts (posts_evolve posts0).
Proof.
  intros w Hw. unfold loadPosts. destruct Hw as (posts & Hf & He).
  rewrite Hf. simpl. split; [|exact He]. exists posts. split; assumption.
Qed.

Lemma phist_savePosts posts :
  posts_evolve posts0 posts ->
  triple (posts_hold (posts_evolve posts0)) (savePosts posts) top.
Proof.
  intros He w _. simpl. split; [|exact Logic.I].
  exists posts. split; [reflexivity | exact He].
Qed.

Lemma phist_load_normalise {A} (k : list post -> io A) :
  (forall posts, posts_evolve posts0 posts ->
                 triple (posts_hold (posts_evolve posts0)) (k posts) top) ->
  triple (posts_hold (posts_evolve posts0))
    (let* raw := loadPosts in let* posts := normalisePosts raw in k posts) top.
Proof.
  intros Hk. eapply triple_bind; [apply phist_loadPosts|].
  intros raw Hraw. eapply triple_bind.
  - apply triple_ret. exact (pevolve_normalised posts0 raw Hraw).
  - exact Hk.
Qed.

Lemma phist_upload_route now sess t c f :
  triple (posts_hold (posts_evolve posts0)) (upload_route now sess t c f) top.
Proof.
  unfold upload_route. destruct (logged_in sess) as [name|] eqn:Hs; [|triple_step].
  apply logged_in_Some in Hs as [_ Hname].
  destruct f as [filename|]; [|triple_step].
  apply phist_load_normalise. intros posts He.
  eapply triple_bind_top; [|intros; triple_step].
  apply phist_savePosts, pevolve_uploaded; assumption.
Qed.

Lemma phist_like_route sess id :
  triple (posts_hold (posts_evolve posts0)) (like_route sess id) top.
Proof.
  unfold like_route. destruct (logged_in sess) as [user|] eqn:Hs; [|triple_step].
  apply logged_in_Some in Hs as [_ Huser].
  apply phist_load_normalise. intros posts He.
  destruct (find_post id posts) as [[i p]|] eqn:Hfind; [|triple_step].
  apply find_post_Some in Hfind as (Hi & _).
  destruct (likedBy p) as [| | | | |xs|] eqn:Hxs;
    try (intros w Hw; unfold bind, toggle_like, bind; rewrite Hxs; exact Hw).
  destruct (likes p) as [| | |n| | |] eqn:Hn;
    try (intros w Hw; unfold bind, toggle_like, bind; rewrite Hxs, Hn; exact Hw).
  apply (triple_bind _ _ _ (fun p' => p' = toggled user xs n p)).
  - intros w Hw. rewrite (toggle_like_run user p xs n w Hxs Hn).
    split; [exact Hw | reflexivity].
  - intros p' ->. eapply triple_bind_top; [|intros; triple_step].
    apply phist_savePosts. eapply pevolve_updated; [exact He | exact Hi|].
    apply update_liked; assumption.
Qed.

Lemma phist_delete_route sess id :
  triple (posts_hold (posts_evolve posts0)) (delete_route sess id) top.
Proof.
  unfold delete_route. destruct (logged_in sess) as [user|]; [|triple_step].
  apply phist_load_normalise. intros posts He.
  destruct (find_post id posts) as [[i p]|]; [|triple_step].
  destruct (negb _); [triple_step|].
  eapply triple_bind_top; [|intros; triple_step].
  apply phist_savePosts, pevolve_removed, He.
Qed.

Lemma phist_comment_route now sess id text :
  triple (posts_hold (posts_evolve posts0)) (comment_route now sess id text) top.
Proof.
  unfold comment_route. destruct (logged_in sess) as [user|] eqn:Hs; [|triple_step].
  apply logged_in_Some in Hs as [_ Huser].
  destruct (or_empty text) as [| | | |s| |]; try apply triple_throw.
  cbv zeta. destruct (String.eqb_spec (trim s) "") as [|Htext]; [triple_step|].
  apply phist_load_normalise. intros posts He.
  destruct (find_post id posts) as [[i p]|] eqn:Hfind; [|triple_step].
  apply find_post_Some in Hfind as (Hi & _).
  destruct (comments p) as [| | | | |cs|] eqn:Hcs;
    try (intros w Hw; simpl; exact Hw).
  apply (triple_bind _ _ _ (fun cs' => cs' = cs)); [apply triple_ret; reflexivity|].
  intros cs' ->. intros w Hw. simpl. split; [|exact Logic.I].
  eexists. split; [reflexivity|].
  eapply pevolve_updated; [exact He | exact Hi|].
  apply (update_commented p now user s cs); assumption.
Qed.

Lemma phist_delete_comment_route sess postId commentId :
  triple (posts_hold (posts_evolve posts0))
         (delete_comment_route sess postId commentId) top.
Proof.
  unfold delete_comment_route. destruct (logged_in sess) as [user|]; [|triple_step].
  apply phist_load_normalise. intros posts He.
  destruct (find_post postId posts) as [[i p]|] eqn:Hfind; [|triple_step].
  apply find_post_Some in Hfind as (Hi & _).
  destruct (comments p) as [| | | | |cs|] eqn:Hcs;
    try (intros w Hw; simpl; exact Hw).
  apply (triple_bind _ _ _ (fun cs' => cs' = cs)); [apply triple_ret; reflexivity|].
  intros cs' ->.
  eapply triple_bind_top; [apply triple_findIndex_id|]. intros [idx|]; [|triple_step].
  destruct (_ ≫= _) as [comment_author|]; [|triple_step].
  destruct (_ && _); [triple_step|].
  eapply triple_bind_top; [|intros; triple_step].
  apply phist_savePosts. eapply pevolve_updated; [exact He | exact Hi|].
  apply update_uncommented, Hcs.
Qed.

Lemma phist_route now sess r :
  triple (posts_hold (posts_evolve posts0)) (route now sess r) top.
Proof.
  pose proof phist_saveUsers as HI.
  destruct r; try (apply triple_readonly; reflexivity);
    try (apply users_profile_route, HI); simpl.
  - eapply triple_bind_top; [apply users_register_route, HI | intros; triple_step].
  - eapply triple_bind_top; [apply users_login_route, HI | intros; triple_step].
  - apply users_follow_route, HI.
  - apply users_unfollow_route, HI.
  - apply users_requireAdmin, users_admin_set_field; exact HI.
  - apply users_requireAdmin, users_admin_set_field; exact HI.
  - apply users_requireAdmin, users_admin_set_field; exact HI.
  - apply phist_upload_route.
  - apply phist_like_route.
  - apply phist_delete_route.
  - apply phist_comment_route.
  - apply phist_delete_comment_route.
  - unfold admin_page_route. apply (users_requireAdmin _ HI).
    eapply triple_bind_top; [apply triple_loadUsers_top|]. intros raw.
    eapply triple_bind_top; [apply (users_normaliseUsers _ HI)|]. intros users.
    repeat triple_step.
  - unfold admin_delete_route. apply (users_requireAdmin _ HI).
    apply phist_load_normalise. intros posts He.
    eapply triple_bind_top; [|intros; triple_step].
    apply phist_savePosts, pevolve_removed, He.
Qed.

Lemma phist_serve now sess r :
  triple (posts_hold (posts_evolve posts0)) (serve now sess r) top.
Proof.
  unfold serve. eapply triple_bind_top.
  - apply users_attach_current_user, phist_saveUsers.
  - intros _. apply phist_route.
Qed.

Lemma phist_run arrivals w :
  posts_hold (posts_evolve posts0) w ->
  posts_hold (posts_evolve posts0) (run arrivals w).
Proof.
  revert w. induction arrivals as [|a rest IH]; intros w Hw; simpl; [exact Hw|].
  apply IH. eapply triple_final; [apply phist_serve | exact Hw].
Qed.
End Posts_history.

(** Whatever the server is asked, the posts file goes through changes of
    the handlers only. *)
Lemma posts_history arrivals w posts :
  posts_file w = Text_json posts ->
  exists posts',
    posts_file (run arrivals w) = Text_json posts' /\ posts_evolve posts posts'.
Proof.
  intros Hf. apply (phist_run posts arrivals w).
  exists posts. split; [exact Hf | apply pevolve_start].
Qed.

Lemma content_of_backfill p : content_of (backfill_post p) = content_of p.
Proof. destruct p as [i t c f a ca l lb cs]. post_cases l lb cs; reflexivity. Qed.

Lemma content_of_update p p' : post_update p p' -> content_of p' = content_of p.
Proof.
  intros H. destruct H as [p name xs n _ _ _| |]; [|reflexivity|reflexivity].
  unfold toggled. destruct (indexOf xs name); reflexivity.
Qed.

Lemma truthy_VStr s : s <> "" -> truthy (VStr s) = true.
Proof. intros Hs. simpl. apply String.eqb_neq in Hs. rewrite Hs. reflexivity. Qed.

Lemma uploaded_new_post now name filename t c :
  name <> "" -> uploaded (content_of (new_post now name filename t c)).
Proof.
  intros Hname. unfold uploaded, content_of, new_post. cbn [content_id
    content_title content_image content_author content_createdAt post_id title
    imageFilename author createdAt].
  split; [exists now; split; reflexivity|].
  split; [|split; [eexists; reflexivity | apply truthy_VStr, Hname]].
  apply truthy_VStr. destruct t as [s|]; simpl; [|discriminate].
  destruct (String.eqb_spec s ""); [discriminate | assumption].
Qed.

Lemma remove_id_sublist id posts : sublist (remove_id id posts) posts.
Proof.
  unfold remove_id. induction posts as [|p rest IH]; simpl; [constructor|].
  destruct (negb _); [apply sublist_skip | apply sublist_cons]; exact IH.
Qed.

Lemma evolve_content posts0 posts :
  posts_evolve posts0 posts ->
  exists ups,
    Forall uploaded ups /\
    sublist (map content_of posts) (map content_of posts0 ++ ups).
Proof.
  induction 1 as [|posts He (ups & Hup & Hsub)
                  |now name filename t c posts He (ups & Hup & Hsub) Hname
                  |id posts He (ups & Hup & Hsub)
                  |posts i p p' He (ups & Hup & Hsub) Hi Hupd].
  - exists []. split; [constructor|]. rewrite app_nil_r. reflexivity.
  - exists ups. split; [exact Hup|].
    rewrite map_map. erewrite map_ext; [exact Hsub|].
    intros p. apply content_of_backfill.
  - exists (ups ++ [content_of (new_post now name filename t c)]).
    split; [apply Forall_app; split; [exact Hup|]; constructor;
            [apply uploaded_new_post, Hname | constructor]|].
    rewrite map_app, app_assoc. apply sublist_app; [exact Hsub | reflexivity].
  - exists ups. split; [exact Hup|].
    etransitivity; [|exact Hsub].
    change (map content_of ?l) with (content_of <$> l).
    apply fmap_sublist, remove_id_sublist.
  - exists ups. split; [exact Hup|].
    change (map content_of ?l) with (content_of <$> l) in *.
    rewrite list_fmap_insert, (content_of_update p p' Hupd).
    rewrite list_insert_id; [exact Hsub|].
    rewrite list_lookup_fmap, Hi. reflexivity.
Qed.

(** X15: posts are never edited or reordered.  Whatever requests the
    server handles, the identifier, title, caption, image, author and
    creation time of the posts of the file, taken in order, are those of
    the posts it held at the start, with some left out, followed by those
    of uploads; and every upload has a numeric identifier equal to its
    creation time, a truthy title, a string as image name and a truthy
    author. *)
Theorem posts_keep_their_content (arrivals : list arrival) (w : world)
    (posts : list post) :
  posts_file w = Text_json posts ->
  exists posts' ups,
    posts_file (run arrivals w) = Text_json posts' /\
    sublist (map content_of posts') (map content_of posts ++ ups) /\
    forall c, c ∈ ups ->
      (exists n, content_id c = VNum n /\ content_createdAt c = VNum n) /\
      truthy (content_title c) = true /\
      (exists f, content_image c = VStr f) /\
      truthy (content_author c) = true.
Proof.
  intros Hf. destruct (posts_history arrivals w posts Hf) as (posts' & Hf' & He).
  destruct (evolve_content posts posts' He) as (ups & Hup & Hsub).
  exists posts', ups. split; [exact Hf'|]. split; [exact Hsub|].
  intros c Hc. exact (proj1 (list.Forall_forall _ _) Hup c Hc).
Qed.

Lemma posts_keep_their_content_witness :
  exists posts' ups,
    posts_file (run sample_session
                  (World (Text_json []) (Text_json [twin_a; other_post]) []))
      = Text_json posts' /\
    sublist (map content_of posts') (map content_of [twin_a; other_post] ++ ups) /\
    forall c, c ∈ ups ->
      (exists n, content_id c = VNum n /\ content_createdAt c = VNum n) /\
      truthy (content_title c) = true /\
      (exists f, content_image c = VStr f) /\
      truthy (content_author c) = true.
Proof.
  apply (posts_keep_their_content sample_session
           (World (Text_json []) (Text_json [twin_a; other_post]) [])
           [twin_a; other_post]).
  reflexivity.
Defined.

(** ** Trimmed text and the shape of a post *)

Section Strip.
Variable w2 : ascii -> ascii -> bool.
Variable w3 : ascii -> ascii -> ascii -> bool.

(** What is stripped is a prefix, and what is left starts clean. *)
Lemma strip_spec n :
  forall l, length l <= n ->
    (exists sp, l = sp ++ strip w2 w3 l) /\ starts_clean w2 w3 (strip w2 w3 l).
Proof.
  induction n as [|n IH]; intros l Hl.
  { destruct l; [|simpl in Hl; lia]. split; [exists []; reflexivity | exact Logic.I]. }
  destruct l as [|a r1]; [split; [exists []; reflexivity | exact Logic.I]|].
  cbn [strip]. destruct (is_space a) eqn:Ha.
  { destruct (IH r1 ltac:(simpl in Hl; lia)) as [(sp & E) Hc].
    split; [exists (a :: sp); simpl; congruence | exact Hc]. }
  destruct r1 as [|b r2].
  { split; [exists []; reflexivity | simpl; auto]. }
  destruct (w2 a b) eqn:Hab.
  { destruct (IH r2 ltac:(simpl in Hl; lia)) as [(sp & E) Hc].
    split; [exists (a :: b :: sp); simpl; congruence | exact Hc]. }
  destruct r2 as [|c r3].
  { split; [exists []; reflexivity | simpl; auto]. }
  destruct (w3 a b c) eqn:Habc.
  { destruct (IH r3 ltac:(simpl in Hl; lia)) as [(sp & E) Hc].
    split; [exists (a :: b :: c :: sp); simpl; congruence | exact Hc]. }
  split; [exists []; reflexivity | simpl; auto].
Qed.

Lemma strip_clean l : starts_clean w2 w3 l -> strip w2 w3 l = l.
Proof.
  destruct l as [|a [|b [|c r3]]]; cbn [strip starts_clean].
  - reflexivity.
  - intros [-> _]. reflexivity.
  - intros [-> [-> _]]. reflexivity.
  - intros [-> [-> ->]]. reflexivity.
Qed.

Lemma starts_clean_prefix r t : starts_clean w2 w3 (r ++ t) -> starts_clean w2 w3 r.
Proof.
  destruct r as [|a [|b [|c r3]]]; cbn [app starts_clean]; tauto.
Qed.
End Strip.

Lemma trim_idempotent s : trim (trim s) = trim s.
Proof.
  unfold trim. rewrite list_ascii_of_string_of_list_ascii.
  set (l1 := trim_start (list_ascii_of_string s)).
  assert (Hc1 : starts_clean is_space2 is_space3 l1).
  { apply (strip_spec _ _ _ _ (le_n _)). }
  set (back2 := fun a b => is_space2 b a).
  set (back3 := fun a b c => is_space3 c b a).
  destruct (strip_spec back2 back3 _ (rev l1) (le_n _)) as [(sp & E) Hc2].
  change (strip back2 back3 (rev l1)) with (trim_end_rev (rev l1)) in *.
  set (l2 := trim_end_rev (rev l1)) in *.
  assert (E1 : l1 = rev l2 ++ rev sp).
  { rewrite <- rev_app_distr, <- E, rev_involutive. reflexivity. }
  assert (Hfront : trim_start (rev l2) = rev l2).
  { apply strip_clean. apply (starts_clean_prefix _ _ _ (rev sp)).
    rewrite <- E1. exact Hc1. }
  rewrite Hfront, rev_involutive.
  unfold trim_end_rev at 1. fold back2 back3.
  rewrite (strip_clean back2 back3 l2 Hc2). reflexivity.
Qed.

Lemma Forall_splice1 {A} (P : A -> Prop) i xs : Forall P xs -> Forall P (splice1 i xs).
Proof.
  intros H. unfold splice1. apply Forall_app.
  split; [apply Forall_take, H | apply Forall_drop, H].
Qed.

Lemma well_formed_canonical p : well_formed_post p -> canonical_post p.
Proof.
  intros (_ & (n & Hn & _) & (xs & Hxs & _) & (cs & Hcs & _)).
  unfold canonical_post. rewrite Hn, Hxs, Hcs. auto.
Qed.

Lemma well_formed_update p p' :
  well_formed_post p -> post_update p p' -> well_formed_post p'.
Proof.
  intros (Hc & (n0 & Hn0 & Hpos) & (xs0 & Hxs0 & Hall) & (cs0 & Hcs0 & Hgood)) Hup.
  unfold well_formed_post. rewrite (content_of_update p p' Hup).
  split; [exact Hc|].
  destruct Hup as [p name xs n Hname Hxs Hn|p now name text cs Hname Htext Hcs
                   |p idx cs Hcs].
  - assert (xs0 = xs) as -> by congruence. assert (n0 = n) as -> by congruence.
    unfold toggled. destruct (indexOf xs name); cbn.
    + split; [eexists; split; [reflexivity|];
              destruct (Z.ltb_spec (round_double (n - 1)) 0); lia|].
      split; [eexists; split; [reflexivity | apply Forall_splice1, Hall]|].
      exists cs0. split; assumption.
    + split; [eexists; split; [reflexivity | apply round_double_nonneg; lia]|].
      split; [|exists cs0; split; assumption].
      eexists. split; [reflexivity|]. apply Forall_app. split; [exact Hall|].
      constructor; [apply truthy_VStr, Hname | constructor].
  - assert (cs0 = cs) as -> by congruence. cbn.
    split; [exists n0; split; assumption|].
    split; [exists xs0; split; assumption|].
    eexists. split; [reflexivity|]. apply Forall_app. split; [exact Hgood|].
    constructor; [|constructor].
    exists now, (VStr name), (trim text).
    split; [reflexivity|]. split; [apply truthy_VStr, Hname|].
    split; [exact Htext | apply trim_idempotent].
  - assert (cs0 = cs) as -> by congruence. cbn.
    split; [exists n0; split; assumption|].
    split; [exists xs0; split; assumption|].
    eexists. split; [reflexivity | apply Forall_splice1, Hgood].
Qed.

Lemma evolve_well_formed posts0 posts :
  posts_evolve posts0 posts ->
  Forall well_formed_post posts0 -> Forall well_formed_post posts.
Proof.
  induction 1 as [|posts He IH|now name filename t c posts He IH Hname
                  |id posts He IH|posts i p p' He IH Hi Hupd]; intros H0.
  - exact H0.
  - rewrite map_backfill_post_canonical; [exact (IH H0)|].
    eapply list.Forall_impl; [exact (IH H0)|]. apply well_formed_canonical.
  - apply Forall_app. split; [exact (IH H0)|]. constructor; [|constructor].
    split; [apply uploaded_new_post, Hname|]. cbn.
    split; [exists 0%Z; split; [reflexivity | lia]|].
    split; eexists; (split; [reflexivity | constructor]).
  - apply list.Forall_forall. intros q [Hq _]%elem_of_remove_id.
    exact (proj1 (list.Forall_forall _ _) (IH H0) q Hq).
  - apply Forall_insert; [exact (IH H0)|].
    eapply well_formed_update; [|exact Hupd].
    eapply (proj1 (list.Forall_forall _ _) (IH H0)), list_elem_of_lookup_2, Hi.
Qed.

(** X16: the posts file keeps its schema.  If every post of the file is
    well formed (as in an empty file), every post of the file is well
    formed after any sequence of requests: its identifier is a number and
    equals its creation time, its title and its author are truthy, its
    image name is a string, [likes] is a number that is not negative,
    [likedBy] is an array of truthy entries, and [comments] is an array of
    comment objects with a numeric [id] equal to [createdAt], a truthy
    [author] and a [text] that is a string, not empty, with no white space
    at either end. *)
Theorem posts_stay_well_formed (arrivals : list arrival) (w : world)
    (posts : list post) :
  posts_file w = Text_json posts ->
  (forall p, p ∈ posts -> well_formed_post p) ->
  exists posts',
    posts_file (run arrivals w) = Text_json posts' /\
    forall p, p ∈ posts' ->
      uploaded (content_of p) /\
      (exists n, likes p = VNum n /\ (0 <= n)%Z) /\
      (exists xs, likedBy p = VArr xs /\ forall v, v ∈ xs -> truthy v = true) /\
      (exists cs, comments p = VArr cs /\
                  forall c, c ∈ cs ->
                    exists n a t,
                      c = VObj [("id", VNum n); ("author", a); ("text", VStr t);
                                ("createdAt", VNum n)] /\
                      truthy a = true /\ t <> "" /\ trim t = t).
Proof.
  intros Hf H0. destruct (posts_history arrivals w posts Hf) as (posts' & Hf' & He).
  exists posts'. split; [exact Hf'|].
  pose proof (evolve_well_formed posts posts' He
                (proj2 (list.Forall_forall _ _) H0)) as Hall.
  intros p Hp.
  destruct (proj1 (list.Forall_forall _ _) Hall p Hp)
    as (Hc & Hl & (xs & Hxs & Hnames) & (cs & Hcs & Hgood)).
  split; [exact Hc|]. split; [exact Hl|].
  split; [exists xs; split; [exact Hxs | apply list.Forall_forall, Hnames]|].
  exists cs. split; [exact Hcs | apply list.Forall_forall, Hgood].
Qed.

Lemma posts_stay_well_formed_witness :
  exists posts',
    posts_file (run sample_session (started fresh_world)) = Text_json posts' /\
    forall p, p ∈ posts' ->
      uploaded (content_of p) /\
      (exists n, likes p = VNum n /\ (0 <= n)%Z) /\
      (exists xs, likedBy p = VArr xs /\ forall v, v ∈ xs -> truthy v = true) /\
      (exists cs, comments p = VArr cs /\
                  forall c, c ∈ cs ->
                    exists n a t,
                      c = VObj [("id", VNum n); ("author", a); ("text", VStr t);
                                ("createdAt", VNum n)] /\
                      truthy a = true /\ t <> "" /\ trim t = t).
Proof.
  apply (posts_stay_well_formed sample_session (started fresh_world) []).
  - reflexivity.
  - intros p Hp. apply elem_of_nil in Hp. contradiction.
Defined.

(** ** No handler throws on a healthy store *)

Lemma safe_ret {A} (I : world -> Prop) (a : A) (Q : A -> Prop) :
  Q a -> safe I (ret a) Q.
Proof. intros HQ w Hw. exists a, w. auto. Qed.

Lemma safe_bind {A B} (I : world -> Prop) (m : io A) (k : A -> io B)
    (Q : A -> Prop) (R : B -> Prop) :
  safe I m Q -> (forall a, Q a -> safe I (k a) R) -> safe I (bind m k) R.
Proof.
  intros Hm Hk w Hw. destruct (Hm w Hw) as (a & w1 & E & Hw1 & Ha).
  destruct (Hk a Ha w1 Hw1) as (b & w2 & E2 & Hw2 & Hb).
  exists b, w2. unfold bind. rewrite E. auto.
Qed.

Lemma safe_weaken {A} (I : world -> Prop) (m : io A) (Q R : A -> Prop) :
  safe I m Q -> (forall a, Q a -> R a) -> safe I m R.
Proof.
  intros Hm HQR w Hw. destruct (Hm w Hw) as (a & w' & E & Hw' & Ha).
  exists a, w'. auto.
Qed.

Lemma healthy_saveUsers users w :
  healthy w ->
  healthy (World (Text_json users) (posts_file w) (writes w ++ [USERS_FILE])).
Proof. intros (_ & Hp & Hc). split; [exact Logic.I|]. split; assumption. Qed.

Lemma healthy_savePosts posts w :
  Forall readable_comments posts -> healthy w ->
  healthy (World (users_file w) (Text_json posts) (writes w ++ [POSTS_FILE])).
Proof. intros Hall (Hu & _ & _). split; [exact Hu|]. split; [exact Logic.I | exact Hall]. Qed.

Lemma safe_loadUsers : safe healthy loadUsers top.
Proof.
  intros w Hw. pose proof Hw as (Hu & _). unfold loadUsers.
  destruct (users_file w) as [| |users|]; try contradiction; simpl; eauto 6.
Qed.

Lemma safe_saveUsers users : safe healthy (saveUsers users) top.
Proof.
  intros w Hw. eexists tt, _. split; [reflexivity|].
  split; [apply healthy_saveUsers, Hw | exact Logic.I].
Qed.

Lemma safe_normaliseUsers now raw :
  safe healthy (normaliseUsers now raw) (Forall has_arrays).
Proof.
  intros w Hw. rewrite normaliseUsers_run. eexists _, _. split; [reflexivity|].
  split.
  - destruct (existsb needs_backfill raw); [apply healthy_saveUsers, Hw | exact Hw].
  - apply list.Forall_forall. intros u Hu.
    exact (normalised_users_arrays now raw u Hu).
Qed.

Lemma safe_load_normalise_users {A} now (k : list user -> io A) (R : A -> Prop) :
  (forall users, Forall has_arrays users -> safe healthy (k users) R) ->
  safe healthy
    (let* raw := loadUsers in let* users := normaliseUsers now raw in k users) R.
Proof.
  intros Hk. eapply safe_bind; [apply safe_loadUsers|]. intros raw _.
  eapply safe_bind; [apply safe_normaliseUsers|]. exact Hk.
Qed.

Lemma safe_loadPosts : safe healthy loadPosts (Forall readable_comments).
Proof.
  intros w Hw. pose proof Hw as (_ & Hp & Hc). unfold loadPosts.
  destruct (posts_file w) as [| |posts|]; try contradiction; simpl.
  - exists [], w. split; [reflexivity|]. split; [exact Hw | constructor].
  - exists posts, w. split; [reflexivity|]. split; [exact Hw | exact Hc].
Qed.

Lemma safe_savePosts posts :
  Forall readable_comments posts -> safe healthy (savePosts posts) top.
Proof.
  intros Hall w Hw. eexists tt, _. split; [reflexivity|].
  split; [apply healthy_savePosts; assumption | exact Logic.I].
Qed.

Lemma readable_comments_backfill p :
  readable_comments p -> readable_comments (backfill_post p).
Proof.
  intros Hr cs. destruct p as [i t c f a ca l lb cms]. unfold readable_comments in Hr.
  simpl in Hr. post_cases l lb cms; intros E;
    first [ apply Hr; exact E | injection E as <-; constructor ].
Qed.

Lemma safe_load_normalise_posts {A} (k : list post -> io A) (R : A -> Prop) :
  (forall posts, Forall canonical_post posts -> Forall readable_comments posts ->
                 safe healthy (k posts) R) ->
  safe healthy
    (let* raw := loadPosts in let* posts := normalisePosts raw in k posts) R.
Proof.
  intros Hk. eapply safe_bind; [apply safe_loadPosts|]. intros raw Hraw.
  eapply (safe_bind _ _ _ (fun posts => Forall canonical_post posts /\
                                        Forall readable_comments posts)).
  - apply safe_ret. split.
    + apply list.Forall_forall. intros p Hp.
      change (map backfill_post raw) with (backfill_post <$> raw) in Hp.
      apply list_elem_of_fmap in Hp as (q & -> & _).
      apply backfill_post_makes_canonical.
    + apply Forall_map. eapply list.Forall_impl; [exact Hraw|].
      apply readable_comments_backfill.
  - intros posts [Hc Hr]. exact (Hk posts Hc Hr).
Qed.

Lemma found_Forall {A} (P : A -> Prop) (l : list A) i x :
  Forall P l -> l !! i = Some x -> P x.
Proof.
  intros Hall Hi.
  eapply (proj1 (list.Forall_forall _ _) Hall), list_elem_of_lookup_2, Hi.
Qed.

Lemma safe_attach_current_user now sess :
  safe healthy (attach_current_user now sess) top.
Proof.
  unfold attach_current_user.
  destruct (logged_in sess); [|apply safe_ret; exact Logic.I].
  apply safe_load_normalise_users. intros users _. apply safe_ret. exact Logic.I.
Qed.

Lemma safe_requireAdmin now sess next :
  safe healthy next top -> safe healthy (requireAdmin now sess next) top.
Proof.
  intros Hnext. unfold requireAdmin.
  destruct (logged_in sess); [|apply safe_ret; exact Logic.I].
  apply safe_load_normalise_users. intros users _.
  destruct (find_user s users) as [[k user]|]; [|apply safe_ret; exact Logic.I].
  destruct (truthy (isAdmin user)); [exact Hnext | apply safe_ret; exact Logic.I].
Qed.

Lemma safe_register_route now body : safe healthy (register_route now body) top.
Proof.
  unfold register_route.
  destruct (_ || _); [apply safe_ret; exact Logic.I|].
  destruct (negb _); [apply safe_ret; exact Logic.I|].
  apply safe_load_normalise_users. intros users _.
  destruct (find_user _ users); [apply safe_ret; exact Logic.I|].
  eapply safe_bind; [apply safe_saveUsers|]. intros _ _. apply safe_ret. exact Logic.I.
Qed.

Lemma safe_login_route now body : safe healthy (login_route now body) top.
Proof.
  unfold login_route. apply safe_load_normalise_users. intros users _.
  destruct (list_find _ users) as [[k user]|]; [|apply safe_ret; exact Logic.I].
  destruct (truthy (banned user)); apply safe_ret; exact Logic.I.
Qed.

Lemma safe_follow_route now sess targetName :
  safe healthy (follow_route now sess targetName) top.
Proof.
  unfold follow_route. destruct (logged_in sess) as [meName|];
    [|apply safe_ret; exact Logic.I].
  destruct (String.eqb targetName meName); [apply safe_ret; exact Logic.I|].
  apply safe_load_normalise_users. intros users Harr.
  destruct (find_user meName users) as [[i me]|] eqn:Hme;
    [|apply safe_ret; exact Logic.I].
  destruct (find_user targetName users) as [[j target]|] eqn:Htg;
    [|apply safe_ret; exact Logic.I].
  apply find_user_Some in Hme as (Hi & _). apply find_user_Some in Htg as (Hj & _).
  destruct (found_Forall _ _ _ _ Harr Hi) as (_ & xs & _ & Hxs).
  destruct (found_Forall _ _ _ _ Harr Hj) as (ys & _ & Hys & _).
  unfold push_following, push_follower. rewrite Hxs, Hys. cbn [as_array].
  apply (safe_bind _ _ _ top); [apply safe_ret; exact Logic.I|]. intros me' _.
  apply (safe_bind _ _ _ top); [apply safe_ret; exact Logic.I|]. intros target' _.
  eapply safe_bind; [apply safe_saveUsers|]. intros _ _. apply safe_ret. exact Logic.I.
Qed.

Lemma safe_unfollow_route now sess targetName :
  safe healthy (unfollow_route now sess targetName) top.
Proof.
  unfold unfollow_route. destruct (logged_in sess) as [meName|];
    [|apply safe_ret; exact Logic.I].
  destruct (String.eqb targetName meName); [apply safe_ret; exact Logic.I|].
  apply safe_load_normalise_users. intros users Harr.
  destruct (find_user meName users) as [[i me]|] eqn:Hme;
    [|apply safe_ret; exact Logic.I].
  destruct (find_user targetName users) as [[j target]|] eqn:Htg;
    [|apply safe_ret; exact Logic.I].
  apply find_user_Some in Hme as (Hi & _). apply find_user_Some in Htg as (Hj & _).
  destruct (found_Forall _ _ _ _ Harr Hi) as (_ & xs & _ & Hxs).
  destruct (found_Forall _ _ _ _ Harr Hj) as (ys & _ & Hys & _).
  unfold drop_following, drop_follower. rewrite Hxs, Hys. cbn [as_array].
  apply (safe_bind _ _ _ top); [apply safe_ret; exact Logic.I|]. intros me' _.
  apply (safe_bind _ _ _ top); [apply safe_ret; exact Logic.I|]. intros target' _.
  eapply safe_bind; [apply safe_saveUsers|]. intros _ _. apply safe_ret. exact Logic.I.
Qed.

Lemma safe_admin_set_field now set name :
  safe healthy (admin_set_field now set name) top.
Proof.
  unfold admin_set_field. apply safe_load_normalise_users. intros users _.
  destruct (find_user name users) as [[i user]|]; [|apply safe_ret; exact Logic.I].
  eapply safe_bind; [apply safe_saveUsers|]. intros _ _. apply safe_ret. exact Logic.I.
Qed.

Lemma safe_upload_route now sess t c f : safe healthy (upload_route now sess t c f) top.
Proof.
  unfold upload_route. destruct (logged_in sess) as [name|];
    [|apply safe_ret; exact Logic.I].
  destruct f as [filename|]; [|apply safe_ret; exact Logic.I].
  apply safe_load_normalise_posts. intros posts _ Hr.
  eapply safe_bind; [|intros _ _; apply safe_ret; exact Logic.I].
  apply safe_savePosts, Forall_app. split; [exact Hr|].
  constructor; [|constructor]. intros cs [= <-]. constructor.
Qed.

Lemma readable_comments_set_likes v w p :
  readable_comments p -> readable_comments (set_likes v (set_likedBy w p)).
Proof. intros H. exact H. Qed.

Lemma safe_like_route sess id : safe healthy (like_route sess id) top.
Proof.
  unfold like_route. destruct (logged_in sess) as [user|];
    [|apply safe_ret; exact Logic.I].
  apply safe_load_normalise_posts. intros posts Hc Hr.
  destruct (find_post id posts) as [[i p]|] eqn:Hfind;
    [|apply safe_ret; exact Logic.I].
  apply find_post_Some in Hfind as (Hi & _).
  pose proof (found_Forall _ _ _ _ Hc Hi) as (Hl & Hb & _).
  pose proof (found_Forall _ _ _ _ Hr Hi) as Hrp.
  destruct (likes p) as [| | |n| | |] eqn:Hn; try discriminate.
  destruct (likedBy p) as [| | | | |xs|] eqn:Hxs; try discriminate.
  apply (safe_bind _ _ _ (fun p' => p' = toggled user xs n p)).
  - intros w Hw. rewrite (toggle_like_run user p xs n w Hxs Hn). eauto.
  - intros p' ->. eapply safe_bind; [|intros _ _; apply safe_ret; exact Logic.I].
    apply safe_savePosts, Forall_insert; [exact Hr|].
    unfold toggled. destruct (indexOf xs user); exact Hrp.
Qed.

Lemma safe_delete_route sess id : safe healthy (delete_route sess id) top.
Proof.
  unfold delete_route. destruct (logged_in sess) as [user|];
    [|apply safe_ret; exact Logic.I].
  apply safe_load_normalise_posts. intros posts _ Hr.
  destruct (find_post id posts) as [[i p]|]; [|apply safe_ret; exact Logic.I].
  destruct (negb _); [apply safe_ret; exact Logic.I|].
  eapply safe_bind; [|intros _ _; apply safe_ret; exact Logic.I].
  apply safe_savePosts, list.Forall_forall. intros q [Hq _]%elem_of_remove_id.
  exact (proj1 (list.Forall_forall _ _) Hr q Hq).
Qed.

Lemma or_empty_trimmable text :
  truthy text = false \/ (exists s, text = VStr s) -> exists s, or_empty text = VStr s.
Proof.
  unfold or_empty. intros [Hf|[s ->]].
  - rewrite Hf. exists "". reflexivity.
  - destruct (truthy (VStr s)); eauto.
Qed.

Lemma safe_comment_route now sess id text :
  truthy text = false \/ (exists s, text = VStr s) ->
  safe healthy (comment_route now sess id text) top.
Proof.
  intros Htext. unfold comment_route. destruct (logged_in sess) as [user|];
    [|apply safe_ret; exact Logic.I].
  destruct (or_empty_trimmable text Htext) as [s ->]. cbv zeta.
  destruct (String.eqb (trim s) ""); [apply safe_ret; exact Logic.I|].
  apply safe_load_normalise_posts. intros posts Hc Hr.
  destruct (find_post id posts) as [[i p]|] eqn:Hfind;
    [|apply safe_ret; exact Logic.I].
  apply find_post_Some in Hfind as (Hi & _).
  pose proof (found_Forall _ _ _ _ Hc Hi) as (_ & _ & Hcm).
  pose proof (found_Forall _ _ _ _ Hr Hi) as Hrp.
  destruct (comments p) as [| | | | |cs|] eqn:Hcs; try discriminate.
  apply (safe_bind _ _ _ (fun cs' => cs' = cs)); [apply safe_ret; reflexivity|].
  intros cs' ->.
  eapply safe_bind; [|intros _ _; apply safe_ret; exact Logic.I].
  apply safe_savePosts, Forall_insert; [exact Hr|].
  intros zs [= <-]. apply Forall_app. split; [exact (Hrp cs Hcs)|].
  constructor; [split; discriminate | constructor].
Qed.

(** On comments that can all be read, [findIndex] returns, and what it
    returns is the position of a comment. *)
Lemma safe_findIndex_id (I : world -> Prop) commentId cs :
  Forall readable cs ->
  safe I (findIndex_id commentId cs)
       (fun r => forall idx, r = Some idx -> exists c, cs !! idx = Some c).
Proof.
  induction 1 as [|c rest Hc Hrest IH]; simpl.
  - apply safe_ret. discriminate.
  - destruct c as [| | | | | |fields]; try (destruct Hc; congruence); simpl;
      try (destruct (strict_eq_num _ commentId);
           [apply safe_ret; intros idx [= <-]; eauto|]);
      (eapply safe_bind; [exact IH|]; intros r Hr; apply safe_ret;
       intros [|idx] E; [destruct r; discriminate|];
       destruct r as [k|]; [|discriminate]; injection E as <-;
       simpl; apply Hr; reflexivity).
Qed.

Lemma safe_delete_comment_route sess postId commentId :
  safe healthy (delete_comment_route sess postId commentId) top.
Proof.
  unfold delete_comment_route. destruct (logged_in sess) as [user|];
    [|apply safe_ret; exact Logic.I].
  apply safe_load_normalise_posts. intros posts Hc Hr.
  destruct (find_post postId posts) as [[i p]|] eqn:Hfind;
    [|apply safe_ret; exact Logic.I].
  apply find_post_Some in Hfind as (Hi & _).
  pose proof (found_Forall _ _ _ _ Hc Hi) as (_ & _ & Hcm).
  pose proof (found_Forall _ _ _ _ Hr Hi) as Hrp.
  destruct (comments p) as [| | | | |cs|] eqn:Hcs; try discriminate.
  apply (safe_bind _ _ _ (fun cs' => cs' = cs)); [apply safe_ret; reflexivity|].
  intros cs' ->.
  eapply safe_bind; [apply safe_findIndex_id, (Hrp cs Hcs)|].
  intros [idx|] Hidx; [|apply safe_ret; exact Logic.I].
  destruct (Hidx idx eq_refl) as (c & Hcidx). rewrite Hcidx. cbn [mbind option_bind].
  pose proof (found_Forall _ _ _ _ (Hrp cs Hcs) Hcidx) as [Hu Hn].
  destruct (get_prop c "author") as [comment_author|] eqn:Hauthor;
    [|destruct c; simpl in Hauthor; congruence].
  destruct (_ && _); [apply safe_ret; exact Logic.I|].
  eapply safe_bind; [|intros _ _; apply safe_ret; exact Logic.I].
  apply safe_savePosts, Forall_insert; [exact Hr|].
  intros zs [= <-]. unfold splice1. apply Forall_app.
  split; [apply Forall_take | apply Forall_drop]; exact (Hrp cs Hcs).
Qed.

Lemma safe_admin_page_route now sess : safe healthy (admin_page_route now sess) top.
Proof.
  unfold admin_page_route. apply safe_requireAdmin.
  apply safe_load_normalise_users. intros users _.
  apply safe_load_normalise_posts. intros posts _ _. apply safe_ret. exact Logic.I.
Qed.

Lemma safe_admin_delete_route now sess id :
  safe healthy (admin_delete_route now sess id) top.
Proof.
  unfold admin_delete_route. apply safe_requireAdmin.
  apply safe_load_normalise_posts. intros posts _ Hr.
  eapply safe_bind; [|intros _ _; apply safe_ret; exact Logic.I].
  apply safe_savePosts, list.Forall_forall. intros q [Hq _]%elem_of_remove_id.
  exact (proj1 (list.Forall_forall _ _) Hr q Hq).
Qed.

Lemma safe_profile_route now name :
  safe healthy (profile_route now name) top.
Proof.
  unfold profile_route. apply safe_load_normalise_users. intros users _.
  destruct (find_user name users) as [[k user]|]; [|apply safe_ret; exact Logic.I].
  apply safe_load_normalise_posts. intros posts _ _. apply safe_ret. exact Logic.I.
Qed.

Lemma safe_route now sess r :
  trimmable r -> safe healthy (route now sess r) top.
Proof.
  intros Htext. destruct r; cbn [route].
  - eapply safe_bind; [apply safe_register_route|]. intros a _.
    apply safe_ret. exact Logic.I.
  - eapply safe_bind; [apply safe_login_route|]. intros a _.
    apply safe_ret. exact Logic.I.
  - apply safe_follow_route.
  - apply safe_unfollow_route.
  - apply safe_requireAdmin, safe_admin_set_field.
  - apply safe_requireAdmin, safe_admin_set_field.
  - apply safe_requireAdmin, safe_admin_set_field.
  - apply safe_upload_route.
  - apply safe_like_route.
  - apply safe_delete_route.
  - apply safe_comment_route, Htext.
  - apply safe_delete_comment_route.
  - apply safe_admin_page_route.
  - apply safe_admin_delete_route.
  - apply (safe_bind _ _ _ top); [|intros v _; apply safe_ret; exact Logic.I].
    unfold home_route. apply safe_load_normalise_posts. intros posts _ _.
    apply safe_ret. exact Logic.I.
  - apply (safe_bind _ _ _ top); [|intros v _; apply safe_ret; exact Logic.I].
    unfold top_route. apply safe_load_normalise_posts. intros posts _ _.
    apply safe_ret. exact Logic.I.
  - unfold random_route. apply safe_load_normalise_posts. intros posts _ _.
    destruct posts; apply safe_ret; exact Logic.I.
  - apply (safe_bind _ _ _ top); [apply safe_profile_route|].
    intros v _. apply safe_ret. exact Logic.I.
  - apply safe_ret. exact Logic.I.
  - unfold form_page. destruct (logged_in sess); apply safe_ret; exact Logic.I.
  - unfold form_page. destruct (logged_in sess); apply safe_ret; exact Logic.I.
  - apply safe_ret. exact Logic.I.
Qed.

Lemma safe_serve now sess r :
  trimmable r -> safe healthy (serve now sess r) top.
Proof.
  intros Htext. unfold serve. eapply safe_bind; [apply safe_attach_current_user|].
  intros _ _. apply safe_route, Htext.
Qed.

(** A comment whose field is truthy and no string: the handler throws
    when it calls [trim], before it has read a file. *)
Lemma comment_route_throws now sess user id text w :
  logged_in sess = Some user -> truthy text = true -> (forall s, text <> VStr s) ->
  comment_route now sess id text w = Thrown TypeError w.
Proof.
  intros Hs Ht Hne. unfold comment_route, or_empty. rewrite Hs, Ht.
  destruct text; try reflexivity. exfalso. exact (Hne s eq_refl).
Qed.

Lemma trimmable_dec r :
  trimmable r \/
  exists id text, r = Add_comment id text /\ truthy text = true /\
                  forall s, text <> VStr s.
Proof.
  destruct r; try (left; exact Logic.I).
  destruct form_comment as [| |b|n|s|xs|fields];
    try (left; left; reflexivity); try (left; right; eexists; reflexivity).
  - destruct b; [right | left; left; reflexivity].
    eexists _, _. split; [reflexivity|]. split; [reflexivity | discriminate].
  - destruct (truthy (VNum n)) eqn:Hn; [right | left; left; exact Hn].
    eexists _, _. split; [reflexivity|]. split; [exact Hn | discriminate].
  - right. eexists _, _. split; [reflexivity|]. split; [reflexivity | discriminate].
  - right. eexists _, _. split; [reflexivity|]. split; [reflexivity | discriminate].
Qed.

Lemma healthy_serve now sess r w :
  healthy w -> healthy (final_world (serve now sess r w)).
Proof.
  intros Hw. destruct (trimmable_dec r) as [Htext|(id & text & -> & Ht & Hne)].
  - destruct (safe_serve now sess r Htext w Hw) as (resp & w' & E & Hw' & _).
    rewrite E. exact Hw'.
  - unfold serve, bind.
    destruct (safe_attach_current_user now sess w Hw) as ([] & w1 & E & Hw1 & _).
    rewrite E. cbn [route].
    destruct (logged_in sess) as [user|] eqn:Hs.
    + rewrite (comment_route_throws now sess user id text w1 Hs Ht Hne). exact Hw1.
    + unfold comment_route. rewrite Hs. exact Hw1.
Qed.

Lemma healthy_run arrivals w : healthy w -> healthy (run arrivals w).
Proof.
  revert w. induction arrivals as [|a rest IH]; intros w Hw; simpl; [exact Hw|].
  apply IH, healthy_serve, Hw.
Qed.

(** X17: what makes a handler throw on a healthy store.  When each of
    the two files is empty or holds an array of records and no array of
    comments holds [null] or [undefined] (as right after start-up), the
    store is still so after any sequence of requests, and every request
    is answered with a response, with one exception: a comment sent by a
    logged-in client whose form field is truthy and not a string (an
    array or an object of the body parser), on which the handler throws
    a [TypeError] at [trim] without having touched the posts file. *)
Theorem healthy_store_never_throws (arrivals : list arrival) (w : world)
    (now : Z) (sess : option string) (r : request) :
  healthy w ->
  healthy (run arrivals w) /\
  (trimmable r ->
   exists resp w', serve now sess r (run arrivals w) = Done resp w' /\ healthy w') /\
  (forall user id text,
     r = Add_comment id text -> logged_in sess = Some user ->
     truthy text = true -> (forall s, text <> VStr s) ->
     exists w',
       serve now sess r (run arrivals w) = Thrown TypeError w' /\ healthy w' /\
       posts_file w' = posts_file (run arrivals w)).
Proof.
  intros Hw. pose proof (healthy_run arrivals w Hw) as Hrun.
  split; [exact Hrun|]. split.
  - intros Htext.
    destruct (safe_serve now sess r Htext _ Hrun) as (resp & w' & E & Hw' & _).
    exists resp, w'. split; assumption.
  - intros user id text -> Hs Ht Hne. unfold serve, bind.
    destruct (safe_attach_current_user now sess _ Hrun) as ([] & w1 & E & Hw1 & _).
    pose proof (users_attach_current_user
                  (fun w' => posts_file w' = posts_file (run arrivals w))
                  (fun users w' H => H) now sess _ eq_refl) as Hposts.
    rewrite E in *. cbn [route].
    rewrite (comment_route_throws now sess user id text w1 Hs Ht Hne).
    exists w1. split; [reflexivity|]. split; [exact Hw1 | apply Hposts].
Qed.

Lemma healthy_store_never_throws_witness :
  healthy (run sample_session (started fresh_world)) /\
  (exists resp w',
     serve 200 (Some "alice") (Delete_comment (Some 120%Z) (Some 150%Z))
           (run sample_session (started fresh_world)) = Done resp w' /\
     healthy w') /\
  (exists w',
     serve 200 (Some "alice") (Add_comment (Some 120%Z) (VArr [VStr "hello"]))
           (run sample_session (started fresh_world)) = Thrown TypeError w').
Proof.
  assert (Hfresh : healthy (started fresh_world)).
  { split; [exact Logic.I|]. split; [exact Logic.I | constructor]. }
  split; [|split].
  - apply (healthy_store_never_throws sample_session (started fresh_world) 200
             (Some "alice") (Delete_comment (Some 120%Z) (Some 150%Z)) Hfresh).
  - apply (healthy_store_never_throws sample_session (started fresh_world) 200
             (Some "alice") (Delete_comment (Some 120%Z) (Some 150%Z)) Hfresh).
    exact Logic.I.
  - destruct (healthy_store_never_throws sample_session (started fresh_world) 200
                (Some "alice") (Add_comment (Some 120%Z) (VArr [VStr "hello"])) Hfresh)
      as (_ & _ & Hthrows).
    destruct (Hthrows "alice" (Some 120%Z) (VArr [VStr "hello"]) eq_refl eq_refl eq_refl
                ltac:(discriminate)) as (w' & E & _).
    exists w'. exact E.
Defined.

(** ** Uploading *)

(** An element the comparator puts before every other one comes first,
    wherever it stood. *)
Lemma sort_by_snoc_first {A} (cmp : A -> A -> option Z) l x :
  (forall y, y ∈ l -> sorts_after cmp y x = true) ->
  sort_by cmp (l ++ [x]) = x :: sort_by cmp l.
Proof.
  intros Hall. unfold sort_by. rewrite foldr_app. cbn [foldr insert_sorted].
  induction l as [|y rest IH]; [reflexivity|]. cbn [foldr].
  rewrite IH by (intros z Hz; apply Hall; right; exact Hz).
  cbn [insert_sorted]. rewrite (Hall y) by left. reflexivity.
Qed.

Lemma upload_route_run now sess name t c filename raw w :
  posts_file w = Text_json raw -> logged_in sess = Some name ->
  upload_route now sess t c (Some filename) w =
    Done (Redirect "/")
         (World (users_file w)
                (Text_json (map backfill_post raw ++ [new_post now name filename t c]))
                (writes w ++ [POSTS_FILE])).
Proof.
  intros Hf Hs. unfold upload_route. rewrite Hs.
  rewrite (load_normalise_posts raw w _ Hf). reflexivity.
Qed.

Lemma map_backfill_post_idempotent posts :
  map backfill_post (map backfill_post posts) = map backfill_post posts.
Proof.
  apply map_backfill_post_canonical, list.Forall_forall. intros p Hp.
  change (map backfill_post posts) with (backfill_post <$> posts) in Hp.
  apply list_elem_of_fmap in Hp as (q & -> & _). apply backfill_post_makes_canonical.
Qed.

(** X18: an upload adds one post at the end of the normalised collection
    and saves it; when the clock is past the creation time of every post
    of the file, the home feed then opens with the new post. *)
Theorem upload_tops_home_feed (now : Z) (sess : option string) (name filename : string)
    (t c : option string) (raw : list post) (w : world) :
  posts_file w = Text_json raw -> logged_in sess = Some name ->
  (forall p, p ∈ raw -> exists n, createdAt p = VNum n /\ (n < now)%Z) ->
  let np := new_post now name filename t c in
  let w1 := World (users_file w) (Text_json (map backfill_post raw ++ [np]))
                  (writes w ++ [POSTS_FILE]) in
  upload_route now sess t c (Some filename) w = Done (Redirect "/") w1 /\
  exists older,
    home_route None w1
      = Done (Page_view (np :: older) 1
                (Z.max 1 (ceil_div (Z.of_nat (S (length raw))) POSTS_PER_PAGE))) w1 /\
    older = take 4 (sort_by newest_first (map backfill_post raw)).
Proof.
  intros Hf Hs Hold np w1.
  split; [exact (upload_route_run now sess name t c filename raw w Hf Hs)|].
  eexists. split; [|reflexivity].
  unfold home_route. rewrite (load_normalise_posts _ w1 _ eq_refl).
  rewrite map_app, map_backfill_post_idempotent. cbn [map].
  change (backfill_post np) with np.
  rewrite sort_by_snoc_first.
  - unfold ret, feed_page. rewrite paginate_fields. cbn [default length].
    assert (Hlen : length (sort_by newest_first (map backfill_post raw)) = length raw).
    { rewrite (Permutation_length (sort_by_Permutation _ _)). apply length_map. }
    rewrite Hlen.
    set (tp := Z.max 1 (ceil_div (Z.of_nat (S (length raw))) POSTS_PER_PAGE)).
    assert (Hpg : Z.min (Z.max 1 1) tp = 1%Z) by lia.
    rewrite Hpg. reflexivity.
  - intros y Hy. change (map backfill_post raw) with (backfill_post <$> raw) in Hy.
    apply list_elem_of_fmap in Hy as (q & -> & Hq).
    destruct (Hold q Hq) as (n & Hn & Hlt).
    destruct (backfill_post_timestamped q (ex_intro _ n Hn)) as (n' & Hn').
    assert (n' = n) as ->.
    { destruct q as [i ti ca f a cr l lb cs]; simpl in *. subst.
      revert Hn'. post_cases l lb cs; congruence. }
    unfold sorts_after, newest_first. rewrite Hn'. cbn. apply Z.ltb_lt. lia.
Qed.

Lemma upload_tops_home_feed_witness :
  let np := new_post 500 "alice" "500-1.png" (Some "Dusk") None in
  let w := World (Text_json [alice]) (Text_json [twin_a; other_post]) [] in
  let w1 := World (Text_json [alice])
                  (Text_json (map backfill_post [twin_a; other_post] ++ [np]))
                  [POSTS_FILE] in
  upload_route 500 (Some "alice") (Some "Dusk") None (Some "500-1.png") w
    = Done (Redirect "/") w1 /\
  exists older,
    home_route None w1 = Done (Page_view (np :: older) 1 1) w1 /\
    older = take 4 (sort_by newest_first (map backfill_post [twin_a; other_post])).
Proof.
  intros np w w1.
  apply (upload_tops_home_feed 500 (Some "alice") "alice" "500-1.png" (Some "Dusk") None
           [twin_a; other_post] w); [reflexivity | reflexivity |].
  intros p [->|[->|H]%elem_of_cons]%elem_of_cons;
    [eexists; split; [reflexivity | reflexivity]
    |eexists; split; [reflexivity | reflexivity]
    |apply elem_of_nil in H; contradiction].
Defined.

(** ** Comments *)

(** [findIndex] stops at the first comment with the identifier. *)
Lemma findIndex_id_first commentId cs idx w :
  (forall j c, j < idx -> cs !! j = Some c ->
     exists v, get_prop c "id" = Some v /\ strict_eq_num v commentId = false) ->
  (exists c v, cs !! idx = Some c /\ get_prop c "id" = Some v /\
               strict_eq_num v commentId = true) ->
  findIndex_id commentId cs w = Done (Some idx) w.
Proof.
  revert idx. induction cs as [|c rest IH]; intros idx Hbefore (c0 & v & Hc0 & Hv & Heq).
  - rewrite lookup_nil in Hc0. discriminate.
  - destruct idx as [|idx]; simpl.
    + injection Hc0 as ->. rewrite Hv, Heq. reflexivity.
    + destruct (Hbefore 0 c ltac:(lia) eq_refl) as (v' & Hv' & Hne).
      rewrite Hv', Hne. unfold bind.
      rewrite (IH idx); [reflexivity| |exists c0, v; auto].
      intros j c' Hj Hc'. apply (Hbefore (S j) c'); [lia | exact Hc'].
Qed.

Lemma findIndex_id_absent commentId cs w :
  (forall c, c ∈ cs ->
     exists v, get_prop c "id" = Some v /\ strict_eq_num v commentId = false) ->
  findIndex_id commentId cs w = Done None w.
Proof.
  induction cs as [|c rest IH]; intros Hall; simpl; [reflexivity|].
  destruct (Hall c ltac:(left)) as (v & Hv & Hne). rewrite Hv, Hne. unfold bind.
  rewrite IH; [reflexivity|]. intros c' Hc'. apply Hall. right. exact Hc'.
Qed.

Lemma comment_route_run now sess user id s posts i p cs w :
  posts_file w = Text_json posts -> logged_in sess = Some user ->
  trim s <> "" ->
  find_post id (map backfill_post posts) = Some (i, p) -> comments p = VArr cs ->
  comment_route now sess id (VStr s) w =
    Done (Redirect "/")
         (World (users_file w)
                (Text_json
                   (<[i := set_comments
                             (VArr (cs ++ [new_comment now user (trim s)]))
                             p]> (map backfill_post posts)))
                (writes w ++ [POSTS_FILE])).
Proof.
  intros Hf Hs Htext Hfind Hcs. unfold comment_route. rewrite Hs.
  assert (Hs0 : s <> "") by (intros ->; apply Htext; reflexivity).
  unfold or_empty. rewrite (truthy_VStr s Hs0). cbv zeta.
  apply String.eqb_neq in Htext. rewrite Htext.
  rewrite (load_normalise_posts posts w _ Hf), Hfind. unfold bind.
  rewrite Hcs. reflexivity.
Qed.

Lemma delete_comment_route_run sess user postId commentId posts i p cs idx c a w :
  posts_file w = Text_json posts -> logged_in sess = Some user ->
  find_post postId (map backfill_post posts) = Some (i, p) -> comments p = VArr cs ->
  findIndex_id commentId cs w = Done (Some idx) w ->
  cs !! idx = Some c -> get_prop c "author" = Some a ->
  delete_comment_route sess postId commentId w =
    if negb (strict_eq_str a user) && negb (strict_eq_str (author p) user)
    then Done (Send 403 "You cannot delete this comment.") w
    else Done (Redirect "/")
              (World (users_file w)
                     (Text_json (<[i := set_comments (VArr (splice1 idx cs)) p]>
                                   (map backfill_post posts)))
                     (writes w ++ [POSTS_FILE])).
Proof.
  intros Hf Hs Hfind Hcs Hidx Hc Ha. unfold delete_comment_route. rewrite Hs.
  rewrite (load_normalise_posts posts w _ Hf), Hfind. unfold bind at 1.
  rewrite Hcs. cbn [as_array ret]. unfold bind at 1. rewrite Hidx.
  rewrite Hc. cbn [mbind option_bind]. rewrite Ha.
  destruct (_ && _); reflexivity.
Qed.

Lemma set_comments_same p cs : comments p = VArr cs -> set_comments (VArr cs) p = p.
Proof. destruct p. simpl. intros ->. reflexivity. Qed.

(** X19: a comment can be taken back.  On a normalised posts file, after a
    logged-in user has commented on a post (with a string that is not
    blank: something is left of it when the white space and the line
    terminators of ECMAScript are stripped from its ends), the deletion of
    the comment with the identifier of that moment, asked by the same
    user, leaves the posts file as it was before the comment, provided no
    older comment of the post has that identifier.  The comment saved in
    between is the last of the post and holds the user's name and the
    trimmed text. *)
Theorem comment_then_delete_restores (now : Z) (sess : option string) (user : string)
    (id : option Z) (text : string) (posts : list post) (i : nat) (p : post)
    (cs : list value) (w : world) :
  posts_file w = Text_json posts -> Forall canonical_post posts ->
  logged_in sess = Some user ->
  trim text <> "" ->
  find_post id posts = Some (i, p) -> comments p = VArr cs ->
  (forall c, c ∈ cs ->
     exists v, get_prop c "id" = Some v /\ strict_eq_num v (Some now) = false) ->
  let c := VObj [("id", VNum now); ("author", VStr user);
                 ("text", VStr (trim text)); ("createdAt", VNum now)] in
  let w1 := World (users_file w)
                  (Text_json (<[i := set_comments (VArr (cs ++ [c])) p]> posts))
                  (writes w ++ [POSTS_FILE]) in
  let w2 := World (users_file w) (Text_json posts)
                  (writes w ++ [POSTS_FILE; POSTS_FILE]) in
  comment_route now sess id (VStr text) w = Done (Redirect "/") w1 /\
  delete_comment_route sess id (Some now) w1 = Done (Redirect "/") w2.
Proof.
  intros Hf Hcan Hs Htext Hfind Hcs Hfresh c w1 w2.
  pose proof (map_backfill_post_canonical posts Hcan) as Hmap.
  pose proof (proj1 (find_post_Some _ _ _ _) Hfind) as (Hi & Hid & Hleast).
  assert (Hfind0 : find_post id (map backfill_post posts) = Some (i, p))
    by (rewrite Hmap; exact Hfind).
  split.
  - rewrite (comment_route_run now sess user id text posts i p cs w Hf Hs Htext Hfind0 Hcs).
    rewrite Hmap. reflexivity.
  - set (p1 := set_comments (VArr (cs ++ [c])) p).
    set (posts1 := <[i := p1]> posts).
    assert (Hi1 : posts1 !! i = Some p1).
    { apply list_lookup_insert_eq. eapply lookup_lt_Some, Hi. }
    assert (Hcan1 : Forall canonical_post posts1).
    { apply Forall_insert; [exact Hcan|].
      pose proof (found_Forall _ _ _ _ Hcan Hi) as (Hl & Hb & _).
      split; [exact Hl|]. split; [exact Hb | reflexivity]. }
    assert (Hfind1 : find_post id (map backfill_post posts1) = Some (i, p1)).
    { rewrite (map_backfill_post_canonical posts1 Hcan1).
      apply find_post_Some. split; [exact Hi1|]. split; [exact Hid|].
      intros j q Hj Hlt. unfold posts1 in Hj.
      rewrite list_lookup_insert_ne in Hj by lia. exact (Hleast j q Hj Hlt). }
    assert (Hidx : findIndex_id (Some now) (cs ++ [c]) w1 = Done (Some (length cs)) w1).
    { apply findIndex_id_first.
      - intros j c' Hj Hc'. rewrite lookup_app_l in Hc' by exact Hj.
        apply Hfresh. eapply list_elem_of_lookup_2, Hc'.
      - exists c, (VNum now). split; [apply list_lookup_middle; reflexivity|].
        split; [reflexivity|]. simpl. apply Z.eqb_refl. }
    rewrite (delete_comment_route_run sess user id (Some now) posts1 i p1 (cs ++ [c])
               (length cs) c (VStr user) w1 eq_refl Hs Hfind1 eq_refl Hidx
               (list_lookup_middle cs [] c (length cs) eq_refl) eq_refl).
    cbn [strict_eq_str]. rewrite String.eqb_refl. cbn [negb andb].
    rewrite (map_backfill_post_canonical posts1 Hcan1), splice1_push.
    unfold posts1, p1, w1, w2. cbn [users_file writes].
    rewrite list_insert_insert_eq.
    change (set_comments (VArr cs) (set_comments (VArr (cs ++ [c])) p))
      with (set_comments (VArr cs) p).
    rewrite (set_comments_same p cs Hcs), (list_insert_id posts i p Hi).
    rewrite <- app_assoc. reflexivity.
Qed.

Lemma comment_then_delete_restores_witness :
  let c := VObj [("id", VNum 30); ("author", VStr "bob");
                 ("text", VStr "nice one"); ("createdAt", VNum 30)] in
  let w := World (Text_json [alice]) (Text_json [twin_a; other_post]) [] in
  let w1 := World (Text_json [alice])
                  (Text_json [twin_a; set_comments (VArr [c]) other_post])
                  [POSTS_FILE] in
  let w2 := World (Text_json [alice]) (Text_json [twin_a; other_post])
                  [POSTS_FILE; POSTS_FILE] in
  comment_route 30 (Some "bob") (Some 9%Z) (VStr "  nice one ") w
    = Done (Redirect "/") w1 /\
  delete_comment_route (Some "bob") (Some 9%Z) (Some 30%Z) w1 = Done (Redirect "/") w2.
Proof.
  intros c w w1 w2.
  assert (Hcan : Forall canonical_post [twin_a; other_post]) by (repeat constructor).
  apply (comment_then_delete_restores 30 (Some "bob") "bob" (Some 9%Z)
           "  nice one " [twin_a; other_post] 1 other_post [] w
           eq_refl Hcan eq_refl ltac:(discriminate) eq_refl eq_refl).
  intros c' Hc'. apply elem_of_nil in Hc'. contradiction.
Defined.

(** X20: who may delete a comment.  On a normalised posts file, when the
    first comment of the post with the given identifier was written by
    [a], the deletion is carried out for the author of the comment and for
    the author of the post: that comment, and no other, leaves the post.
    Anybody else is answered 403 and nothing is written. *)
Theorem delete_comment_authorised (sess : option string) (user : string)
    (postId commentId : option Z) (posts : list post) (i : nat) (p : post)
    (cs : list value) (idx : nat) (c : value) (a : value) (w : world) :
  posts_file w = Text_json posts -> Forall canonical_post posts ->
  logged_in sess = Some user ->
  find_post postId posts = Some (i, p) -> comments p = VArr cs ->
  cs !! idx = Some c -> get_prop c "author" = Some a ->
  (exists v, get_prop c "id" = Some v /\ strict_eq_num v commentId = true) ->
  (forall j c', j < idx -> cs !! j = Some c' ->
     exists v, get_prop c' "id" = Some v /\ strict_eq_num v commentId = false) ->
  (a = VStr user \/ author p = VStr user ->
     delete_comment_route sess postId commentId w =
       Done (Redirect "/")
            (World (users_file w)
                   (Text_json (<[i := set_comments (VArr (take idx cs ++ drop (S idx) cs)) p]>
                                 posts))
                   (writes w ++ [POSTS_FILE]))) /\
  (a <> VStr user -> author p <> VStr user ->
     delete_comment_route sess postId commentId w =
       Done (Send 403 "You cannot delete this comment.") w).
Proof.
  intros Hf Hcan Hs Hfind Hcs Hc Ha (v & Hv & Heq) Hbefore.
  pose proof (map_backfill_post_canonical posts Hcan) as Hmap.
  assert (Hfind0 : find_post postId (map backfill_post posts) = Some (i, p))
    by (rewrite Hmap; exact Hfind).
  assert (Hidx : findIndex_id commentId cs w = Done (Some idx) w).
  { apply findIndex_id_first; [exact Hbefore|]. exists c, v. auto. }
  rewrite (delete_comment_route_run sess user postId commentId posts i p cs idx c a w
             Hf Hs Hfind0 Hcs Hidx Hc Ha), Hmap.
  split.
  - intros [->|Hp].
    + cbn [strict_eq_str]. rewrite String.eqb_refl. reflexivity.
    + rewrite Hp. cbn [strict_eq_str]. rewrite String.eqb_refl, andb_false_r.
      reflexivity.
  - intros Hna Hnp.
    assert (H1 : strict_eq_str a user = false).
    { destruct (strict_eq_str a user) eqn:E; [|reflexivity].
      apply strict_eq_str_true in E. contradiction. }
    assert (H2 : strict_eq_str (author p) user = false).
    { destruct (strict_eq_str (author p) user) eqn:E; [|reflexivity].
      apply strict_eq_str_true in E. contradiction. }
    rewrite H1, H2. reflexivity.
Qed.

Lemma delete_comment_authorised_witness :
  let c := VObj [("id", VNum 30); ("author", VStr "bob");
                 ("text", VStr "nice one"); ("createdAt", VNum 30)] in
  let commented := set_comments (VArr [c]) twin_a in
  let w := World (Text_json [alice]) (Text_json [commented; other_post]) [] in
  delete_comment_route (Some "alice") (Some 7%Z) (Some 30%Z) w
    = Done (Redirect "/")
           (World (Text_json [alice]) (Text_json [twin_a; other_post]) [POSTS_FILE]) /\
  delete_comment_route (Some "carol") (Some 7%Z) (Some 30%Z) w
    = Done (Send 403 "You cannot delete this comment.") w.
Proof.
  intros c commented w.
  assert (Hcan : Forall canonical_post [commented; other_post]) by (repeat constructor).
  assert (Hid : exists v, get_prop c "id" = Some v /\ strict_eq_num v (Some 30%Z) = true)
    by (exists (VNum 30); split; reflexivity).
  assert (Hbefore : forall j c', j < 0 -> [c] !! j = Some c' ->
            exists v, get_prop c' "id" = Some v /\ strict_eq_num v (Some 30%Z) = false)
    by (intros j c' Hj; lia).
  split.
  - apply (delete_comment_authorised (Some "alice") "alice" (Some 7%Z) (Some 30%Z)
             [commented; other_post] 0 commented [c] 0 c (VStr "bob") w
             eq_refl Hcan eq_refl eq_refl eq_refl eq_refl eq_refl Hid Hbefore).
    right. reflexivity.
  - apply (delete_comment_authorised (Some "carol") "carol" (Some 7%Z) (Some 30%Z)
             [commented; other_post] 0 commented [c] 0 c (VStr "bob") w
             eq_refl Hcan eq_refl eq_refl eq_refl eq_refl eq_refl Hid Hbefore);
      discriminate.
Defined.

(** ** The profile page *)





(** ** What a route leaves alone *)

Lemma commutes_ret {A} f (a : A) : commutes f (ret a).
Proof. intros w. reflexivity. Qed.

Lemma commutes_throw {A} f e : commutes f (@throw A e).
Proof. intros w. reflexivity. Qed.

Lemma commutes_bind {A B} f (m : io A) (k : A -> io B) :
  commutes f m -> (forall a, commutes f (k a)) -> commutes f (bind m k).
Proof.
  intros Hm Hk w. unfold bind. rewrite (Hm w).
  destruct (m w) as [a w'|e w']; simpl; [apply Hk | reflexivity].
Qed.

Lemma commutes_as_array f v : commutes f (as_array v).
Proof. destruct v; first [apply commutes_ret | apply commutes_throw]. Qed.

Lemma commutes_as_number f v : commutes f (as_number v).
Proof. destruct v; first [apply commutes_ret | apply commutes_throw]. Qed.

Lemma commutes_findIndex_id f commentId cs : commutes f (findIndex_id commentId cs).
Proof.
  induction cs as [|c rest IH]; simpl; [apply commutes_ret|].
  destruct (get_prop c "id"); [|apply commutes_throw].
  destruct (strict_eq_num v commentId); [apply commutes_ret|].
  apply commutes_bind; [exact IH|]. intros r. apply commutes_ret.
Qed.

Lemma commutes_toggle_like f user p : commutes f (toggle_like user p).
Proof.
  unfold toggle_like.
  apply commutes_bind; [apply commutes_as_array|]. intros xs.
  apply commutes_bind; [apply commutes_as_number|]. intros n.
  destruct (indexOf xs user); apply commutes_ret.
Qed.

Lemma commutes_loadPosts uf : commutes (with_users uf) loadPosts.
Proof. intros w. unfold loadPosts. simpl. destruct (posts_file w); reflexivity. Qed.

Lemma commutes_savePosts uf posts : commutes (with_users uf) (savePosts posts).
Proof. intros w. reflexivity. Qed.

Lemma commutes_loadUsers pf : commutes (with_posts pf) loadUsers.
Proof. intros w. unfold loadUsers. simpl. destruct (users_file w); reflexivity. Qed.

Lemma commutes_saveUsers pf users : commutes (with_posts pf) (saveUsers users).
Proof. intros w. reflexivity. Qed.

Lemma commutes_normaliseUsers pf now users :
  commutes (with_posts pf) (normaliseUsers now users).
Proof.
  intros w. rewrite !normaliseUsers_run.
  destruct (existsb needs_backfill users); reflexivity.
Qed.

(** One step through a handler, whatever [f] replaces. *)
Ltac commutes_step :=
  match goal with
  | |- commutes _ (bind _ _) => apply commutes_bind; [|intros]
  | |- commutes _ (ret _) => apply commutes_ret
  | |- commutes _ (throw _) => apply commutes_throw
  | |- commutes _ (as_array _) => apply commutes_as_array
  | |- commutes _ (as_number _) => apply commutes_as_number
  | |- commutes _ (findIndex_id _ _) => apply commutes_findIndex_id
  | |- commutes _ (toggle_like _ _) => apply commutes_toggle_like
  | |- commutes _ (normalisePosts _) => apply commutes_ret
  | |- commutes _ loadPosts => apply commutes_loadPosts
  | |- commutes _ (savePosts _) => apply commutes_savePosts
  | |- commutes _ loadUsers => apply commutes_loadUsers
  | |- commutes _ (saveUsers _) => apply commutes_saveUsers
  | |- commutes _ (normaliseUsers _ _) => apply commutes_normaliseUsers
  | |- commutes _ (match ?x with _ => _ end) => destruct x
  end.

Lemma with_users_same w : with_users (users_file w) w = w.
Proof. destruct w. reflexivity. Qed.

Lemma with_posts_same w : with_posts (posts_file w) w = w.
Proof. destruct w. reflexivity. Qed.

Lemma final_world_lift {A} f (o : outcome A) :
  final_world (lift_outcome f o) = f (final_world o).
Proof. destruct o; reflexivity. Qed.

(** X22: the post routes do not look at the users file, and the user
    routes do not look at the posts file.  The handlers of an upload, a
    like, a post deletion, a comment and a comment deletion give the same
    response and make the same change to the posts file whatever the users
    file holds (a banned user's session is served like any other), and
    they leave the users file as it is.  Likewise a registration, a login,
    a follow, an unfollow, a ban, an unban and a promotion, with the
    middleware in front of them, are served alike whatever the posts file
    holds, and leave it as it is. *)
Theorem routes_ignore_the_other_file (now : Z) (sess : option string) (r : request)
    (w : world) :
  match r with
  | Upload _ _ _ | Like _ | Delete_post _ | Add_comment _ _ | Delete_comment _ _ =>
      (forall uf, route now sess r (with_users uf w)
                  = lift_outcome (with_users uf) (route now sess r w)) /\
      users_file (final_world (route now sess r w)) = users_file w
  | Register _ | Login _ | Follow _ | Unfollow _ | Ban _ | Unban _ | Make_admin _ =>
      (forall pf, serve now sess r (with_posts pf w)
                  = lift_outcome (with_posts pf) (serve now sess r w)) /\
      posts_file (final_world (serve now sess r w)) = posts_file w
  | Admin_page | Admin_delete_post _ => True
  | Home _ | Top _ | Random_post _ | Profile _ | About | Login_page | Register_page
  | Logout => True
  end.
Proof.
  assert (Hposts : forall m : io response,
            (forall uf, commutes (with_users uf) m) ->
            (forall uf, m (with_users uf w) = lift_outcome (with_users uf) (m w)) /\
            users_file (final_world (m w)) = users_file w).
  { intros m Hm. split; [intros uf; apply Hm|].
    pose proof (Hm (users_file w) w) as E. rewrite with_users_same in E.
    rewrite E at 1. rewrite final_world_lift. reflexivity. }
  assert (Husers : forall m : io response,
            (forall pf, commutes (with_posts pf) m) ->
            (forall pf, m (with_posts pf w) = lift_outcome (with_posts pf) (m w)) /\
            posts_file (final_world (m w)) = posts_file w).
  { intros m Hm. split; [intros pf; apply Hm|].
    pose proof (Hm (posts_file w) w) as E. rewrite with_posts_same in E.
    rewrite E at 1. rewrite final_world_lift. reflexivity. }
  assert (Hmid : forall pf, commutes (with_posts pf) (attach_current_user now sess)).
  { intros pf. unfold attach_current_user. repeat commutes_step. }
  destruct r; try exact Logic.I;
    first [ apply Hposts; intros uf; cbn [route]
          | apply Husers; intros pf; unfold serve;
            apply commutes_bind; [apply Hmid|]; intros _; cbn [route] ];
    unfold upload_route, like_route, delete_route, comment_route, delete_comment_route,
      register_route, login_route, follow_route, unfollow_route, ban_route,
      unban_route, make_admin_route, requireAdmin, admin_set_field,
      push_following, push_follower, drop_following, drop_follower;
    repeat commutes_step.
Qed.

(** X23: what a client that is not logged in can do to the store.  A
    registration and a login apart, nothing but a normalisation: the
    routes that change a collection and the admin routes turn the client
    away before either file is read (with a redirection to the login
    page, 401 for an upload), and so leave the store as it is, whatever
    state the files are in; the static pages and the logout do not read a
    file either; the two feeds and the random page read the posts file and
    write nothing; and the profile page leaves the store as the
    normalising load of the users file leaves it, which is a write when
    some record lacks a field. *)
Theorem anonymous_requests_at_most_normalise (now : Z) (sess : option string)
    (r : request) (w : world) :
  logged_in sess = None ->
  match r with
  | Register _ | Login _ => True
  | Home _ | Top _ | Random_post _ => final_world (serve now sess r w) = w
  | Profile _ =>
      (forall users, users_file w = Text_json users ->
         final_world (serve now sess r w) = after_normalise now users w) /\
      ((forall users, users_file w <> Text_json users) ->
         final_world (serve now sess r w) = w)
  | _ => serve now sess r w = Done (anonymous_answer r) w
  end.
Proof.
  intros Hs.
  assert (Hserve : serve now sess r w = route now sess r w).
  { unfold serve, attach_current_user, bind. rewrite Hs. reflexivity. }
  assert (Hread : forall A (k : list post -> A),
            final_world ((let* raw := loadPosts in
                          let* posts := normalisePosts raw in ret (k posts)) w) = w).
  { intros A k. unfold bind, loadPosts, normalisePosts, ret.
    destruct (posts_file w); reflexivity. }
  assert (Hpure : forall A B (m : io A) (f : A -> B),
            final_world ((let* a := m in ret (f a)) w) = final_world (m w)).
  { intros A B m f. unfold bind, ret. destruct (m w); reflexivity. }
  destruct r; try exact Logic.I; rewrite Hserve; cbn [route];
    try (unfold follow_route, unfollow_route, ban_route, unban_route,
           make_admin_route, upload_route, like_route, delete_route, comment_route,
           delete_comment_route, admin_page_route, admin_delete_route, requireAdmin,
           form_page;
         rewrite ?Hs; reflexivity).
  - rewrite Hpure. apply Hread.
  - rewrite Hpure. apply Hread.
  - unfold random_route, bind, loadPosts, normalisePosts, ret, read_collection.
    destruct (posts_file w) as [| |posts|]; try reflexivity; cbn.
    destruct (map backfill_post posts); reflexivity.
  - rewrite Hpure. split.
    + intros users Hf. unfold profile_route.
      rewrite (load_normalise_users now users w _ Hf).
      destruct (find_user name _) as [[k u]|]; [|reflexivity].
      unfold bind, loadPosts, normalisePosts, ret, read_collection.
      destruct (posts_file (after_normalise now users w)); reflexivity.
    + intros Hnot. unfold profile_route, bind, loadUsers, read_collection.
      destruct (users_file w) as [| |users|] eqn:E; try reflexivity.
      exfalso. exact (Hnot users eq_refl).
Qed.

Lemma anonymous_requests_at_most_normalise_witness :
  serve 5 (Some "") (Delete_post (Some 7%Z)) (World Absent Text_other [])
    = Done (Redirect "/login") (World Absent Text_other []) /\
  final_world (serve 5 None (Home None) (World Absent (Text_json [legacy_post]) []))
    = World Absent (Text_json [legacy_post]) [] /\
  final_world (serve 5 None (Profile "alice")
                 (World (Text_json [legacy_user]) (Text_json []) []))
    = World (Text_json (normalised_users 5 [legacy_user])) (Text_json []) [USERS_FILE].
Proof.
  split; [|split].
  - apply (anonymous_requests_at_most_normalise 5 (Some "") (Delete_post (Some 7%Z))
             (World Absent Text_other []) eq_refl).
  - apply (anonymous_requests_at_most_normalise 5 None (Home None)
             (World Absent (Text_json [legacy_post]) []) eq_refl).
  - exact (proj1 (anonymous_requests_at_most_normalise 5 None (Profile "alice")
                    (World (Text_json [legacy_user]) (Text_json []) []) eq_refl)
                 [legacy_user] eq_refl).
Defined.

(** ** Without an admin *)

Lemma backfill_user_flags now u c :
  (isAdmin u <> VBool true -> isAdmin (fst (backfill_user now u c)) = VBool false) /\
  (banned u <> VBool true -> banned (fst (backfill_user now u c)) <> VBool true).
Proof.
  destruct u as [n e p j a b fr fg].
  backfill_cases j a b fr fg; simpl in *; split; intros H; try congruence;
    destruct a as [| |[|]| | | |]; simpl in *; congruence.
Qed.

Section No_admin.
Variable B : Prop.

Lemma locked_normalised now users :
  locked B users ->
  locked B (normalised_users now users) /\
  Forall (fun u => isAdmin u = VBool false) (normalised_users now users).
Proof.
  intros (Hne & Hadm & Hban).
  assert (Hfalse : Forall (fun u => isAdmin u = VBool false) (normalised_users now users)).
  { unfold normalised_users. apply Forall_map.
    eapply list.Forall_impl; [exact Hadm|]. intros u Hu.
    apply (backfill_user_flags now u false), Hu. }
  split; [|exact Hfalse]. split; [|split].
  - intros E. apply (f_equal length) in E. rewrite length_normalised_users in E.
    destruct users; [congruence | discriminate].
  - eapply list.Forall_impl; [exact Hfalse|]. intros u ->. discriminate.
  - intros HB. unfold normalised_users. apply Forall_map.
    eapply list.Forall_impl; [exact (Hban HB)|]. intros u Hu.
    apply (backfill_user_flags now u false), Hu.
Qed.

Lemma locked_insert users i u u' :
  locked B users -> users !! i = Some u ->
  isAdmin u' = isAdmin u -> banned u' = banned u ->
  locked B (<[i := u']> users).
Proof.
  intros (Hne & Hadm & Hban) Hi Ha Hb. split; [|split].
  - intros E. apply (f_equal length) in E. rewrite length_insert in E.
    destruct users; [congruence | discriminate].
  - apply Forall_insert; [exact Hadm|]. rewrite Ha.
    exact (found_Forall _ _ _ _ Hadm Hi).
  - intros HB. apply Forall_insert; [exact (Hban HB)|]. rewrite Hb.
    exact (found_Forall _ _ _ _ (Hban HB) Hi).
Qed.

Lemma lk_savePosts posts w :
  users_hold (locked B) w ->
  users_hold (locked B)
    (World (users_file w) (Text_json posts) (writes w ++ [POSTS_FILE])).
Proof. intros (users & Hf & He). exists users. split; assumption. Qed.

Lemma lk_saveUsers users :
  locked B users -> triple (users_hold (locked B)) (saveUsers users) top.
Proof.
  intros He w _. simpl. split; [|exact Logic.I].
  exists users. split; [reflexivity | exact He].
Qed.

Lemma lk_load_normalise {A} now (k : list user -> io A) :
  (forall users, locked B users -> Forall (fun u => isAdmin u = VBool false) users ->
                 triple (users_hold (locked B)) (k users) top) ->
  triple (users_hold (locked B))
    (let* raw := loadUsers in let* users := normaliseUsers now raw in k users) top.
Proof.
  intros Hk w Hw. pose proof Hw as (raw & Hf & Hl).
  rewrite (load_normalise_users now raw w _ Hf).
  destruct (locked_normalised now raw Hl) as [Hl' Hfalse].
  apply (Hk _ Hl' Hfalse). exists (normalised_users now raw).
  split; [apply after_normalise_users_file, Hf | exact Hl'].
Qed.

Lemma lk_attach_current_user now sess :
  triple (users_hold (locked B)) (attach_current_user now sess) top.
Proof.
  unfold attach_current_user. destruct (logged_in sess); [|triple_step].
  apply lk_load_normalise. intros users _ _. triple_step.
Qed.

(** Nobody gets through the guard: the handler behind it is not run. *)
Lemma lk_requireAdmin now sess next :
  triple (users_hold (locked B)) (requireAdmin now sess next) top.
Proof.
  unfold requireAdmin. destruct (logged_in sess); [|triple_step].
  apply lk_load_normalise. intros users _ Hfalse.
  destruct (find_user s users) as [[k user]|] eqn:Hfind; [|triple_step].
  apply find_user_Some in Hfind as (Hk & _).
  rewrite (found_Forall _ _ _ _ Hfalse Hk). cbn [truthy]. triple_step.
Qed.

Lemma lk_register_route now body :
  triple (users_hold (locked B)) (register_route now body) top.
Proof.
  unfold register_route.
  destruct (_ || _); [triple_step|]. destruct (negb _); [triple_step|].
  apply lk_load_normalise. intros users (Hne & Hadm & Hban) _.
  destruct (find_user _ users); [triple_step|].
  eapply triple_bind_top; [|intros; triple_step].
  apply lk_saveUsers.
  assert (Hfirst : bool_decide (length users = 0) = false).
  { apply bool_decide_eq_false. destruct users; [congruence | discriminate]. }
  rewrite Hfirst. split; [|split].
  - destruct users; discriminate.
  - apply Forall_app. split; [exact Hadm|]. constructor; [discriminate | constructor].
  - intros HB. apply Forall_app. split; [exact (Hban HB)|].
    constructor; [discriminate | constructor].
Qed.

Lemma lk_login_route now body :
  triple (users_hold (locked B)) (login_route now body) top.
Proof.
  unfold login_route. apply lk_load_normalise. intros users _ _.
  repeat triple_step.
Qed.

Lemma lk_follow_route now sess targetName :
  triple (users_hold (locked B)) (follow_route now sess targetName) top.
Proof.
  unfold follow_route. destruct (logged_in sess) as [meName|]; [|triple_step].
  destruct (String.eqb_spec targetName meName) as [|Hne]; [triple_step|].
  apply lk_load_normalise. intros users Hl _.
  destruct (find_user meName users) as [[i me]|] eqn:Hme; [|triple_step].
  destruct (find_user targetName users) as [[j target]|] eqn:Htg; [|triple_step].
  apply find_user_Some in Hme as (Hi & Hm & _).
  apply find_user_Some in Htg as (Hj & Ht & _).
  assert (Hij : i <> j) by (intros ->; congruence).
  unfold push_following, push_follower.
  destruct (following me) as [| | | | |xs|] eqn:Hxs;
    try (intros w Hw; simpl; exact Hw).
  destruct (followers target) as [| | | | |ys|] eqn:Hys;
    try (intros w Hw; simpl; exact Hw).
  simpl. intros w Hw. simpl. split; [|exact Logic.I].
  eexists. split; [reflexivity|].
  apply (locked_insert _ j target).
  - apply (locked_insert _ i me); [exact Hl | exact Hi | |];
      destruct (includes xs targetName); reflexivity.
  - rewrite list_lookup_insert_ne by exact Hij. exact Hj.
  - destruct (includes ys meName); reflexivity.
  - destruct (includes ys meName); reflexivity.
Qed.

Lemma lk_unfollow_route now sess targetName :
  triple (users_hold (locked B)) (unfollow_route now sess targetName) top.
Proof.
  unfold unfollow_route. destruct (logged_in sess) as [meName|]; [|triple_step].
  destruct (String.eqb_spec targetName meName) as [|Hne]; [triple_step|].
  apply lk_load_normalise. intros users Hl _.
  destruct (find_user meName users) as [[i me]|] eqn:Hme; [|triple_step].
  destruct (find_user targetName users) as [[j target]|] eqn:Htg; [|triple_step].
  apply find_user_Some in Hme as (Hi & Hm & _).
  apply find_user_Some in Htg as (Hj & Ht & _).
  assert (Hij : i <> j) by (intros ->; congruence).
  unfold drop_following, drop_follower.
  destruct (following me) as [| | | | |xs|] eqn:Hxs;
    try (intros w Hw; simpl; exact Hw).
  destruct (followers target) as [| | | | |ys|] eqn:Hys;
    try (intros w Hw; simpl; exact Hw).
  simpl. intros w Hw. simpl. split; [|exact Logic.I].
  eexists. split; [reflexivity|].
  apply (locked_insert _ j target); [|  | reflexivity | reflexivity].
  - apply (locked_insert _ i me); [exact Hl | exact Hi | reflexivity | reflexivity].
  - rewrite list_lookup_insert_ne by exact Hij. exact Hj.
Qed.

Lemma lk_route now sess r : triple (users_hold (locked B)) (route now sess r) top.
Proof.
  pose proof lk_savePosts as HI.
  destruct r; try (apply triple_readonly; reflexivity); simpl.
  - eapply triple_bind_top; [apply lk_register_route | intros; triple_step].
  - eapply triple_bind_top; [apply lk_login_route | intros; triple_step].
  - apply lk_follow_route.
  - apply lk_unfollow_route.
  - apply lk_requireAdmin.
  - apply lk_requireAdmin.
  - apply lk_requireAdmin.
  - apply posts_upload_route, HI.
  - apply posts_like_route, HI.
  - apply posts_delete_route, HI.
  - apply posts_comment_route, HI.
  - apply posts_delete_comment_route, HI.
  - apply lk_requireAdmin.
  - apply lk_requireAdmin.
  - unfold profile_route. eapply triple_bind_top; [|intros; triple_step].
    apply lk_load_normalise. intros users _ _. repeat triple_step.
Qed.

Lemma lk_run arrivals w :
  users_hold (locked B) w -> users_hold (locked B) (run arrivals w).
Proof.
  revert w. induction arrivals as [|a rest IH]; intros w Hw; simpl; [exact Hw|].
  apply IH. eapply triple_final; [|exact Hw].
  unfold serve. eapply triple_bind_top; [apply lk_attach_current_user|].
  intros _. apply lk_route.
Qed.
End No_admin.

(** X24: without an admin there is never an admin.  When the users file
    holds at least one user and none of them is an admin, this is still so
    after any sequence of requests, from any sessions: a registration makes
    an admin of the first user only, and the guard of the admin routes lets
    nobody through.  And if nobody was banned, nobody is banned
    afterwards. *)
Theorem no_admin_without_an_admin (arrivals : list arrival) (w : world)
    (users : list user) :
  users_file w = Text_json users -> users <> [] ->
  (forall u, u ∈ users -> isAdmin u <> VBool true) ->
  exists users',
    users_file (run arrivals w) = Text_json users' /\ users' <> [] /\
    (forall u, u ∈ users' -> isAdmin u <> VBool true) /\
    ((forall u, u ∈ users -> banned u <> VBool true) ->
     forall u, u ∈ users' -> banned u <> VBool true).
Proof.
  intros Hf Hne Hadm.
  destruct (lk_run (forall u, u ∈ users -> banned u <> VBool true) arrivals w)
    as (users' & Hf' & Hne' & Hadm' & Hban').
  { exists users. split; [exact Hf|]. split; [exact Hne|].
    split; [apply list.Forall_forall, Hadm|]. intros HB. apply list.Forall_forall, HB. }
  exists users'. split; [exact Hf'|]. split; [exact Hne'|].
  split; [apply list.Forall_forall, Hadm'|].
  intros HB. apply list.Forall_forall, Hban', HB.
Qed.

Lemma no_admin_without_an_admin_witness :
  exists users',
    users_file (run sample_session (World (Text_json [bob_banned]) (Text_json []) []))
      = Text_json users' /\ users' <> [] /\
    (forall u, u ∈ users' -> isAdmin u <> VBool true) /\
    ((forall u, u ∈ [bob_banned] -> banned u <> VBool true) ->
     forall u, u ∈ users' -> banned u <> VBool true).
Proof.
  apply (no_admin_without_an_admin sample_session
           (World (Text_json [bob_banned]) (Text_json []) []) [bob_banned]).
  - reflexivity.
  - discriminate.
  - intros u [->|H]%elem_of_cons; [discriminate | apply elem_of_nil in H; contradiction].
Defined.

(** ** The migration of the users file *)

Lemma migrated_backfill now u c : migrated_user (fst (backfill_user now u c)).
Proof.
  unfold migrated_user. destruct u as [n e p j a b fr fg].
  backfill_cases j a b fr fg; auto.
Qed.

Lemma migrated_update u u' : migrated_user u -> user_update u u' -> migrated_user u'.
Proof.
  intros (Ha & Hb & Hfr & Hfg) Hup. destruct Hup; unfold migrated_user; simpl; auto.
Qed.

Lemma evolve_migrated users0 users :
  users_evolve users0 users -> Forall migrated_user users0 -> Forall migrated_user users.
Proof.
  induction 1 as [|now users He IH|now body users He IH Hb Hfind
                  |users i u u' He IH Hi Hup]; intros H0.
  - exact H0.
  - unfold normalised_users. apply Forall_map, list.Forall_forall.
    intros u _. apply migrated_backfill.
  - apply Forall_app. split; [exact (IH H0)|]. constructor; [|constructor].
    unfold migrated_user. simpl. auto.
  - apply Forall_insert; [exact (IH H0)|].
    eapply migrated_update; [|exact Hup]. exact (found_Forall _ _ _ _ (IH H0) Hi).
Qed.

Lemma serve_logged_in now sess name r users w :
  logged_in sess = Some name -> users_file w = Text_json users ->
  serve now sess r w = route now sess r (after_normalise now users w).
Proof.
  intros Hs Hf. unfold serve, attach_current_user. rewrite Hs. unfold bind at 1.
  rewrite (load_normalise_users now users w _ Hf). reflexivity.
Qed.

(** X25: the users file is migrated by the first request of a logged-in
    client, and for good.  Whatever the records of the file lack, once the
    server has handled one request that carries a session, every record
    of the file has a boolean [isAdmin], a boolean [banned] and arrays
    [followers] and [following], and this is so after any further
    requests.  A file whose records have these fields keeps them without
    such a request too. *)
Theorem users_file_is_migrated_for_good (now : Z) (sess : option string) (r : request)
    (arrivals : list arrival) (w : world) (users : list user) :
  users_file w = Text_json users ->
  logged_in sess <> None \/ (forall u, u ∈ users -> migrated_user u) ->
  exists users',
    users_file (run (Arrival now sess r :: arrivals) w) = Text_json users' /\
    forall u, u ∈ users' ->
      is_boolean (isAdmin u) = true /\ is_boolean (banned u) = true /\
      isArray (followers u) = true /\ isArray (following u) = true.
Proof.
  intros Hf Hcase.
  assert (Hfirst : exists users1,
            users_file (final_world (serve now sess r w)) = Text_json users1 /\
            Forall migrated_user users1).
  { destruct Hcase as [Hs|Hmig].
    - destruct (logged_in sess) as [name|] eqn:Hname; [|contradiction].
      rewrite (serve_logged_in now sess name r users w Hname Hf).
      destruct (triple_final _ _ _ (after_normalise now users w)
                  (hist_route (normalised_users now users) now sess r))
        as (users1 & Hf1 & He1).
      { exists (normalised_users now users).
        split; [apply after_normalise_users_file, Hf | apply evolve_start]. }
      exists users1. split; [exact Hf1|].
      apply (evolve_migrated _ _ He1). apply list.Forall_forall.
      intros u Hu. unfold normalised_users in Hu.
      change (map ?f users) with (f <$> users) in Hu.
      apply list_elem_of_fmap in Hu as (v & -> & _). apply migrated_backfill.
    - destruct (triple_final _ _ _ w (hist_serve users now sess r))
        as (users1 & Hf1 & He1).
      { exists users. split; [exact Hf | apply evolve_start]. }
      exists users1. split; [exact Hf1|].
      apply (evolve_migrated _ _ He1), list.Forall_forall, Hmig. }
  destruct Hfirst as (users1 & Hf1 & Hmig1).
  cbn [run at_time session req].
  destruct (users_history arrivals _ users1 Hf1) as (users' & Hf' & He').
  exists users'. split; [exact Hf'|].
  intros u Hu.
  exact (proj1 (list.Forall_forall _ _) (evolve_migrated _ _ He' Hmig1) u Hu).
Qed.

Lemma users_file_is_migrated_for_good_witness :
  exists users',
    users_file (run (Arrival 5 (Some "alice") (Like (Some 1%Z)) :: sample_session)
                    (World (Text_json [legacy_user]) (Text_json []) []))
      = Text_json users' /\
    forall u, u ∈ users' ->
      is_boolean (isAdmin u) = true /\ is_boolean (banned u) = true /\
      isArray (followers u) = true /\ isArray (following u) = true.
Proof.
  apply (users_file_is_migrated_for_good 5 (Some "alice") (Like (Some 1%Z))
           sample_session (World (Text_json [legacy_user]) (Text_json []) [])
           [legacy_user] eq_refl).
  left. discriminate.
Defined.

(** ** One like *)

Lemma filter_ne_splice1 xs s idx :
  xs !! idx = Some (VStr s) -> filter_ne (splice1 idx xs) s = filter_ne xs s.
Proof.
  intros Hidx. pose proof (take_drop_middle xs idx _ Hidx) as E.
  rewrite <- E at 2. unfold splice1, filter_ne. rewrite !filter_app. cbn [List.filter].
  cbn [strict_eq_str]. rewrite String.eqb_refl. reflexivity.
Qed.

(** X26: a like changes the liker's entry and nothing else.  The toggle
    rewrites the first post with the identifier and leaves every other
    post, and the title, caption, image, author, creation time and
    comments of that post, as they are; the other names of [likedBy] stay,
    in their order.  A user who is not in [likedBy] is added at its end;
    for a user who is in it, one entry (the first with that name) is
    removed.  When the counter is a safe integer (strictly between
    [-2^53] and [2^53]), it goes up by one in the first case and down by
    one, but not below 0, in the second. *)
Theorem like_changes_only_the_liker (sess : option string) (user : string)
    (id : option Z) (posts : list post) (i : nat) (p : post) (xs : list value)
    (n : Z) (w : world) :
  posts_file w = Text_json posts -> logged_in sess = Some user ->
  find_post id (map backfill_post posts) = Some (i, p) ->
  likedBy p = VArr xs -> likes p = VNum n ->
  exists p' xs' n',
    like_route sess id w =
      Done (Redirect "/")
           (World (users_file w)
                  (Text_json (<[i := p']> (map backfill_post posts)))
                  (writes w ++ [POSTS_FILE])) /\
    (forall j, j <> i ->
       <[i := p']> (map backfill_post posts) !! j = map backfill_post posts !! j) /\
    content_of p' = content_of p /\ comments p' = comments p /\
    likedBy p' = VArr xs' /\ likes p' = VNum n' /\
    filter_ne xs' user = filter_ne xs user /\
    (VStr user ∉ xs -> xs' = xs ++ [VStr user]) /\
    (VStr user ∈ xs -> length xs' + 1 = length xs) /\
    ((- 2 ^ 53 < n < 2 ^ 53)%Z ->
     (VStr user ∉ xs -> n' = (n + 1)%Z) /\
     (VStr user ∈ xs -> n' = Z.max 0 (n - 1))).
Proof.
  intros Hf Hs Hfind Hxs Hn.
  pose proof (like_route_run sess user id posts i p xs n w Hf Hs Hfind Hxs Hn) as Hrun.
  assert (Hframe : forall p' j, j <> i ->
            <[i := p']> (map backfill_post posts) !! j = map backfill_post posts !! j).
  { intros p' j Hj. apply list_lookup_insert_ne. congruence. }
  unfold toggled in Hrun. destruct (indexOf xs user) as [idx|] eqn:Hidx.
  - pose proof (indexOf_Some xs user idx Hidx) as Hat.
    assert (Hin : VStr user ∈ xs) by (eapply list_elem_of_lookup_2, Hat).
    eexists _, _, _. split; [exact Hrun|]. split; [apply Hframe|].
    split; [reflexivity|]. split; [reflexivity|]. split; [reflexivity|].
    split; [reflexivity|]. split; [apply filter_ne_splice1, Hat|].
    split; [intros Hnot; contradiction|]. split.
    + intros _. pose proof (splice1_length xs idx _ Hat) as Hl. lia.
    + intros Hsafe. split; [intros Hnot; contradiction|]. intros _.
      rewrite round_double_exact by lia.
      destruct (Z.ltb_spec (n - 1) 0); lia.
  - apply indexOf_None in Hidx.
    eexists _, _, _. split; [exact Hrun|]. split; [apply Hframe|].
    split; [reflexivity|]. split; [reflexivity|]. split; [reflexivity|].
    split; [reflexivity|]. split.
    { rewrite (filter_ne_push xs user Hidx). symmetry. apply filter_ne_absent, Hidx. }
    split; [intros _; reflexivity|]. split; [intros Hin; contradiction|].
    intros Hsafe. split; [|intros Hin; contradiction].
    intros _. apply round_double_exact. lia.
Qed.

Lemma like_changes_only_the_liker_witness :
  exists p' xs' n',
    like_route (Some "carol") (Some 11%Z)
               (World (Text_json []) (Text_json sample_feed) []) =
      Done (Redirect "/")
           (World (Text_json [])
                  (Text_json (<[1 := p']> (map backfill_post sample_feed)))
                  [POSTS_FILE]) /\
    (forall j, j <> 1 ->
       <[1 := p']> (map backfill_post sample_feed) !! j
       = map backfill_post sample_feed !! j) /\
    content_of p' = content_of liked_post /\ comments p' = comments liked_post /\
    likedBy p' = VArr xs' /\ likes p' = VNum n' /\
    filter_ne xs' "carol" = filter_ne [VStr "bob"; VStr "carol"] "carol" /\
    (VStr "carol" ∉ [VStr "bob"; VStr "carol"] ->
       xs' = [VStr "bob"; VStr "carol"] ++ [VStr "carol"]) /\
    (VStr "carol" ∈ [VStr "bob"; VStr "carol"] ->
       length xs' + 1 = length [VStr "bob"; VStr "carol"]) /\
    ((- 2 ^ 53 < 2 < 2 ^ 53)%Z ->
     (VStr "carol" ∉ [VStr "bob"; VStr "carol"] -> n' = (2 + 1)%Z) /\
     (VStr "carol" ∈ [VStr "bob"; VStr "carol"] -> n' = Z.max 0 (2 - 1))).
Proof.
  apply (like_changes_only_the_liker (Some "carol") "carol" (Some 11%Z) sample_feed 1
           liked_post [VStr "bob"; VStr "carol"] 2
           (World (Text_json []) (Text_json sample_feed) []));
    reflexivity.
Defined.
